(** * SMC analysis, backtest and optimizer: a shallow embedding

    The definitions below follow [frontend/services/smcService.ts]
    ([findSwingPoints], [analyzeSMC], [runBacktest], [generateCombinations],
    [runOptimizer], [retry], the sizing of [sendOrderToCoinEx] and
    [sendOrderToBinance], [md5]) and the records of [frontend/types.ts].

    Modelling conventions.
    - A JavaScript [number] is a value of [num]: a rational, [+Infinity],
      [-Infinity] or [NaN].  Arithmetic on finite values is exact (no
      rounding, no overflow, a single zero); the special values follow
      IEEE-754, since the source relies on them ([Infinity] as a profit
      factor, [0] and [NaN] being falsy, every comparison with [NaN] false).
    - A [Time] is an integer number of epoch seconds ([Z]).
    - The two lookback settings are numbers like every other setting.  The
      source uses them as loop bounds and array offsets: [data[i]] for a
      number [i] that is not a natural number is [undefined].
    - Arrays are lists; [data[i]] is list lookup, and reading a property of
      an absent element raises [TypeError] in the [result] monad.
    - An object shared by reference (the active trade, which is also an
      element of [executedTrades]) is a position in the array holding it.
    - The one loop of the source that need not end, the expansion of a swept
      range in [generateCombinations], takes fuel.
    - The function that [retry] calls is given by the outcomes of its
      successive calls; [retry] returns its result together with the calls
      and pauses it made.
    - The numbers of [md5] are integers ([Z]) under the 32-bit operators of
      JavaScript, and a string is the list of its UTF-16 code units. *)

From Stdlib Require Import ZArith QArith Qabs Qround Qreduction Lia Lqa.
From Stdlib Require Import Zbitwise ZifyNat.
From Stdlib Require Import String DecimalString.
From Stdlib Require HexadecimalString.
From Stdlib Require Import Sorting.Sorted Permutation.
From stdpp Require Import base option list.

Local Open Scope bool_scope.

(** ** Numbers *)

Inductive num : Type :=
| Fin (q : Q)
| PInf
| NInf
| NaN.

Module Num.

Definition zero : num := Fin 0.
Definition one : num := Fin 1.
Definition two : num := Fin 2.
Definition hundred : num := Fin 100.

Definition of_Z (z : Z) : num := Fin (inject_Z z).
Definition of_nat (n : nat) : num := of_Z (Z.of_nat n).

Definition inf_of_sign (s : comparison) : num :=
  match s with
  | Gt => PInf
  | Lt => NInf
  | Eq => NaN
  end.

Definition neg (a : num) : num :=
  match a with
  | Fin x => Fin (Qred (- x))
  | PInf => NInf
  | NInf => PInf
  | NaN => NaN
  end.

Definition add (a b : num) : num :=
  match a, b with
  | NaN, _ | _, NaN => NaN
  | Fin x, Fin y => Fin (Qred (x + y))
  | PInf, NInf | NInf, PInf => NaN
  | PInf, _ | _, PInf => PInf
  | NInf, _ | _, NInf => NInf
  end.

Definition sub (a b : num) : num :=
  match a, b with
  | NaN, _ | _, NaN => NaN
  | Fin x, Fin y => Fin (Qred (x - y))
  | PInf, PInf | NInf, NInf => NaN
  | PInf, _ | _, NInf => PInf
  | NInf, _ | _, PInf => NInf
  end.

Definition mul (a b : num) : num :=
  match a, b with
  | NaN, _ | _, NaN => NaN
  | Fin x, Fin y => Fin (Qred (x * y))
  | Fin x, PInf | PInf, Fin x => inf_of_sign (x ?= 0)%Q
  | Fin x, NInf | NInf, Fin x => inf_of_sign (CompOpp (x ?= 0)%Q)
  | PInf, PInf | NInf, NInf => PInf
  | PInf, NInf | NInf, PInf => NInf
  end.

(** Division by the (single, positive) zero gives an infinity of the sign
    of the numerator, and [0 / 0] is [NaN]. *)
Definition div (a b : num) : num :=
  match a, b with
  | NaN, _ | _, NaN => NaN
  | Fin x, Fin y =>
      if Qeq_bool y 0 then inf_of_sign (x ?= 0)%Q else Fin (Qred (x / y))
  | Fin _, (PInf | NInf) => Fin 0
  | PInf, Fin y => if Qle_bool 0 y then PInf else NInf
  | NInf, Fin y => if Qle_bool 0 y then NInf else PInf
  | (PInf | NInf), (PInf | NInf) => NaN
  end.

(** [Math.abs] and [Math.ceil]. *)
Definition abs (a : num) : num :=
  match a with
  | Fin x => Fin (Qabs x)
  | PInf | NInf => PInf
  | NaN => NaN
  end.

Definition ceil (a : num) : num :=
  match a with
  | Fin x => of_Z (Qceiling x)
  | _ => a
  end.

(** [a < b], [a <= b], [a > b], [a >= b] and [a === b]. *)
Definition ltb (a b : num) : bool :=
  match a, b with
  | NaN, _ | _, NaN => false
  | Fin x, Fin y => negb (Qle_bool y x)
  | _, NInf => false
  | NInf, _ => true
  | PInf, _ => false
  | _, PInf => true
  end.

Definition leb (a b : num) : bool :=
  match a, b with
  | NaN, _ | _, NaN => false
  | Fin x, Fin y => Qle_bool x y
  | NInf, _ => true
  | _, PInf => true
  | _, NInf => false
  | PInf, _ => false
  end.

Definition gtb (a b : num) : bool := ltb b a.
Definition geb (a b : num) : bool := leb b a.

Definition eqb (a b : num) : bool :=
  match a, b with
  | Fin x, Fin y => Qeq_bool x y
  | PInf, PInf | NInf, NInf => true
  | _, _ => false
  end.

(** JavaScript truthiness of a number: [0] and [NaN] are falsy. *)
Definition truthy (a : num) : bool :=
  match a with
  | Fin x => negb (Qeq_bool x 0)
  | PInf | NInf => true
  | NaN => false
  end.

Definition is_nan (a : num) : bool :=
  match a with
  | NaN => true
  | _ => false
  end.

End Num.

(** ** Exceptions *)

Inductive exn : Type :=
| TypeError
| Error (message : string).

Inductive result (A : Type) : Type :=
| Ok (a : A)
| Throw (e : exn).

Arguments Ok {A} a.
Arguments Throw {A} e.

Definition bind {A B : Type} (r : result A) (f : A -> result B) : result B :=
  match r with
  | Ok a => f a
  | Throw e => Throw e
  end.

Notation "x <- e ; k" := (bind e (fun x => k))
  (at level 20, e at level 100, k at level 200, only parsing).
Notation "' pat <- e ; k" := (bind e (fun x => match x with pat => k end))
  (at level 20, pat pattern, e at level 100, k at level 200, only parsing).

(** [data[i].field]: the element must be there. *)
Definition at_index {A : Type} (data : list A) (i : nat) : result A :=
  match data !! i with
  | Some x => Ok x
  | None => Throw TypeError
  end.

(** A counted [for] loop whose body may raise. *)
Fixpoint for_each {A B : Type} (xs : list A) (body : A -> B -> result B) (s : B)
  : result B :=
  match xs with
  | [] => Ok s
  | x :: xs' => s' <- body x s; for_each xs' body s'
  end.

(** [a || b] with JavaScript's short-circuit evaluation. *)
Definition or_else (a b : result bool) : result bool :=
  x <- a; if x then Ok true else b.

(** The array index that a number denotes, if it is a natural number. *)
Definition as_index (i : num) : option nat :=
  match i with
  | Fin q =>
      let q := Qred q in
      if (0 <=? Qnum q)%Z && (Qden q =? 1)%positive then Some (Z.to_nat (Qnum q)) else None
  | _ => None
  end.

(** [data[i].field] for a number [i]: [data[i]] is [undefined] unless [i]
    is a natural number below the length. *)
Definition at_num {A : Type} (data : list A) (i : num) : result A :=
  match as_index i with
  | Some n => at_index data n
  | None => Throw TypeError
  end.

(** The values of the loop variable in [for (let v = start; v < stop; v++)],
    or with [v <= stop] when [inclusive]: [start], [start + 1], ... as long
    as the test holds.  A loop whose test never fails (the distance from
    [start] to [stop] is infinite) is cut after its first round. *)
Definition rounds (inclusive : bool) (start stop : num) : list num :=
  if (if inclusive then Num.leb start stop else Num.ltb start stop) then
    match Num.sub stop start with
    | Fin d =>
        let n := if inclusive then (Qfloor d + 1)%Z else Qceiling d in
        map (fun k => Num.add start (Num.of_nat k)) (seq 0 (Z.to_nat n))
    | _ => [start]
    end
  else [].

(** ** Data model ([types.ts]) *)

Module Candle.
Record t : Type := mk
  { time : Z; open : num; high : num; low : num; close : num }.
End Candle.

Inductive SwingType : Type := SwingHigh | SwingLow.

Module SwingPoint.
Record t : Type := mk { time : Z; price : num; type : SwingType }.
End SwingPoint.

Inductive Direction : Type := Bullish | Bearish.

Module BOS.
Record t : Type := mk { time : Z; price : num }.
End BOS.

Module CHoCH.
Record t : Type := mk { time : Z; price : num }.
End CHoCH.

(** [POI & { direction }], as [analyzeSMC] builds it. *)
Module POI.
Record t : Type := mk
  { startTime : Z; endTime : Z; top : num; bottom : num;
    direction : Direction }.
End POI.

Inductive Drawing : Type :=
| DrawBOS (data : BOS.t)
| DrawPOI (data : POI.t)
| DrawCHoCH (data : CHoCH.t).

Module TradeSignal.
Record t : Type := mk
  { entryTime : Z; entryPrice : num; stopLoss : num; takeProfit : num;
    type : Direction }.
End TradeSignal.

Inductive Outcome : Type := Win | Loss | Open.

Module ExecutedTrade.
Record t : Type := mk
  { signalTime : Z;
    entryTime : option Z;
    exitTime : option Z;
    entryPrice : num;
    exitPrice : option num;
    outcome : Outcome;
    pnl : num;
    equity : num;
    type : Direction;
    slPrice : num;
    tpPrice : num;
    returnOnEquityPercent : num;
    leverage : num }.
End ExecutedTrade.

Module BacktestResults.
Record t : Type := mk
  { trades : list ExecutedTrade.t;
    maxDrawdown : num;
    maxDrawdownAmount : num;
    netProfitPercent : num;
    winRate : num;
    profitFactor : num;
    finalEquity : num;
    totalTrades : nat }.
End BacktestResults.

Module SMCAnalysisResult.
Record t : Type := mk { trades : list TradeSignal.t; drawings : list Drawing }.
End SMCAnalysisResult.

Module ChartData.
Record t : Type := mk
  { htf : list Candle.t; mtf : list Candle.t; ltf : list Candle.t }.
End ChartData.

Inductive SlType : Type := Structure | Fixed.

(** The fields of [Settings] that the analysis and the backtest read. *)
Module Settings.
Record t : Type := mk
  { htfSwingLookback : num;
    ltfChochLookback : num;
    discountZone : num;
    useFvgFilter : bool;
    useLiquiditySweepFilter : bool;
    initialCapital : num;
    orderSizePercent : num;
    rrRatio : num;
    commissionPercent : num;
    filterByCommission : bool;
    slType : SlType;
    fixedSlValue : num }.
End Settings.

(** ** The swing detector *)

(** One round of the inner loop of [findSwingPoints], for offset [j]. *)
Definition swing_round (data : list Candle.t) (i j : num) (flags : bool * bool)
  : result (bool * bool) :=
  let '(isHigh, isLow) := flags in
  notHigh <- or_else
    (ci <- at_num data i; cl <- at_num data (Num.sub i j);
     Ok (Num.ltb (Candle.high ci) (Candle.high cl)))
    (ci <- at_num data i; cr <- at_num data (Num.add i j);
     Ok (Num.leb (Candle.high ci) (Candle.high cr)));
  notLow <- or_else
    (ci <- at_num data i; cl <- at_num data (Num.sub i j);
     Ok (Num.gtb (Candle.low ci) (Candle.low cl)))
    (ci <- at_num data i; cr <- at_num data (Num.add i j);
     Ok (Num.geb (Candle.low ci) (Candle.low cr)));
  Ok (if notHigh then false else isHigh, if notLow then false else isLow).

(** One round of the outer loop, for the candle at [i]. *)
Definition swing_at (data : list Candle.t) (lookback i : num)
  (acc : list SwingPoint.t * list SwingPoint.t)
  : result (list SwingPoint.t * list SwingPoint.t) :=
  let '(highs, lows) := acc in
  flags <- for_each (rounds true Num.one lookback) (swing_round data i) (true, true);
  let '(isHigh, isLow) := flags in
  highs' <- (if isHigh
            then c <- at_num data i; c' <- at_num data i;
                 Ok (highs ++ [SwingPoint.mk (Candle.time c) (Candle.high c') SwingHigh])
            else Ok highs);
  lows' <- (if isLow
           then c <- at_num data i; c' <- at_num data i;
                Ok (lows ++ [SwingPoint.mk (Candle.time c) (Candle.low c') SwingLow])
           else Ok lows);
  Ok (highs', lows').

(** [data.length < lookback * 2 + 1]. *)
Definition too_short (data : list Candle.t) (lookback : num) : bool :=
  Num.ltb (Num.of_nat (length data)) (Num.add (Num.mul lookback Num.two) Num.one).

Definition findSwingPoints (data : list Candle.t) (lookback : num)
  : result (list SwingPoint.t * list SwingPoint.t) :=
  if too_short data lookback then Ok ([], [])
  else for_each (rounds false lookback (Num.sub (Num.of_nat (length data)) lookback))
         (swing_at data lookback) ([], []).

(** The same loops for a lookback that is a natural number, with natural
    numbers as loop variables and array indices.  [findSwingPoints_of_nat]
    shows that this is [findSwingPoints] on such a lookback; the properties
    of the swing detector are proved on this form. *)
Definition swing_round_nat (data : list Candle.t) (i j : nat) (flags : bool * bool)
  : result (bool * bool) :=
  let '(isHigh, isLow) := flags in
  notHigh <- or_else
    (ci <- at_index data i; cl <- at_index data (i - j);
     Ok (Num.ltb (Candle.high ci) (Candle.high cl)))
    (ci <- at_index data i; cr <- at_index data (i + j);
     Ok (Num.leb (Candle.high ci) (Candle.high cr)));
  notLow <- or_else
    (ci <- at_index data i; cl <- at_index data (i - j);
     Ok (Num.gtb (Candle.low ci) (Candle.low cl)))
    (ci <- at_index data i; cr <- at_index data (i + j);
     Ok (Num.geb (Candle.low ci) (Candle.low cr)));
  Ok (if notHigh then false else isHigh, if notLow then false else isLow).

Definition swing_at_nat (data : list Candle.t) (lookback i : nat)
  (acc : list SwingPoint.t * list SwingPoint.t)
  : result (list SwingPoint.t * list SwingPoint.t) :=
  let '(highs, lows) := acc in
  flags <- for_each (seq 1 lookback) (swing_round_nat data i) (true, true);
  let '(isHigh, isLow) := flags in
  highs' <- (if isHigh
            then c <- at_index data i; c' <- at_index data i;
                 Ok (highs ++ [SwingPoint.mk (Candle.time c) (Candle.high c') SwingHigh])
            else Ok highs);
  lows' <- (if isLow
           then c <- at_index data i; c' <- at_index data i;
                Ok (lows ++ [SwingPoint.mk (Candle.time c) (Candle.low c') SwingLow])
           else Ok lows);
  Ok (highs', lows').

Definition findSwingPoints_nat (data : list Candle.t) (lookback : nat)
  : result (list SwingPoint.t * list SwingPoint.t) :=
  if (length data <? lookback * 2 + 1)%nat then Ok ([], [])
  else for_each (seq lookback (length data - lookback - lookback))
         (swing_at_nat data lookback) ([], []).

(** ** Array helpers *)

(** [Array.prototype.sort] with a comparator, given as [after a b], which
    says that the comparator is positive on [(a, b)].  The sort is stable;
    with a consistent comparator every conforming engine returns this list. *)
Fixpoint sort_insert {A : Type} (after : A -> A -> bool) (x : A) (l : list A)
  : list A :=
  match l with
  | [] => [x]
  | y :: l' => if after x y then y :: sort_insert after x l' else x :: l
  end.

Definition js_sort {A : Type} (after : A -> A -> bool) (l : list A) : list A :=
  foldr (sort_insert after) [] l.

(** [Array.prototype.findIndex]; [None] stands for [-1]. *)
Fixpoint findIndex {A : Type} (p : A -> bool) (l : list A) : option nat :=
  match l with
  | [] => None
  | x :: l' => if p x then Some 0%nat else option_map S (findIndex p l')
  end.

(** The last element, as [arr.pop()] or [arr[arr.length - 1]] read it. *)
Definition pop {A : Type} (l : list A) : option A := last l.

Definition is_direction (d d' : Direction) : bool :=
  match d, d' with
  | Bullish, Bullish | Bearish, Bearish => true
  | _, _ => false
  end.

Definition positive (a : num) : bool := Num.gtb a Num.zero.

Definition swing_time_after (a b : SwingPoint.t) : bool :=
  (SwingPoint.time a - SwingPoint.time b >? 0)%Z.

Definition between (lo hi : Z) (t : Z) : bool := (lo <? t)%Z && (t <? hi)%Z.
Definition within (lo hi : Z) (t : Z) : bool := (lo <=? t)%Z && (t <=? hi)%Z.

(** ** The structure analyzer *)

Section Structure.

Variable settings : Settings.t.
Variable mtf : list Candle.t.
(** [htfSwings.highs] and [htfSwings.lows]; the source sorts both arrays in
    place, so these are also [htfSwingHighs] and [htfSwingLows]. *)
Variables htfSwingHighs htfSwingLows : list SwingPoint.t.

(** The FVG filter; [true] when the candidate is to be skipped. *)
Definition fvg_skips (bullish : bool) (obCandle : Candle.t) : result bool :=
  match findIndex (fun c => (Candle.time c =? Candle.time obCandle)%Z) mtf with
  | None => Ok true
  | Some obCandleIndex =>
      if (length mtf <=? obCandleIndex + 2)%nat then Ok true
      else
        secondCandleAfterOb <- at_index mtf (obCandleIndex + 2);
        Ok (if bullish
            then Num.leb (Candle.low secondCandleAfterOb) (Candle.high obCandle)
            else Num.geb (Candle.high secondCandleAfterOb) (Candle.low obCandle))
  end.

Definition poi_candidate (bullish : bool) (level : num) (endTime : Z)
  (obCandle : Candle.t) (potentialPois : list POI.t) : result (list POI.t) :=
  let qualifies :=
    if bullish
    then Num.gtb (Candle.open obCandle) (Candle.close obCandle)
         && Num.ltb (Candle.high obCandle) level
    else Num.ltb (Candle.open obCandle) (Candle.close obCandle)
         && Num.gtb (Candle.low obCandle) level in
  if qualifies then
    skip <- (if Settings.useFvgFilter settings
             then fvg_skips bullish obCandle else Ok false);
    if skip then Ok potentialPois
    else Ok (potentialPois ++
               [POI.mk (Candle.time obCandle) endTime (Candle.high obCandle)
                  (Candle.low obCandle) (if bullish then Bullish else Bearish)])
  else Ok potentialPois.

(** One iteration of the bullish loop, on [htfSwingHighs[i - 1]] and
    [htfSwingHighs[i]]. *)
Definition bullish_leg (pair : SwingPoint.t * SwingPoint.t)
  (acc : list Drawing * list POI.t) : result (list Drawing * list POI.t) :=
  let '(prevHigh, currentHigh) := pair in
  let '(allDrawings, potentialPois) := acc in
  if Num.gtb (SwingPoint.price currentHigh) (SwingPoint.price prevHigh) then
    let bos := BOS.mk (SwingPoint.time currentHigh) (SwingPoint.price prevHigh) in
    let allDrawings := allDrawings ++ [DrawBOS bos] in
    match head (js_sort
                  (fun a b => positive (Num.sub (SwingPoint.price a) (SwingPoint.price b)))
                  (filter (fun l => between (SwingPoint.time prevHigh)
                                      (SwingPoint.time currentHigh) (SwingPoint.time l) = true)
                     htfSwingLows)) with
    | None => Ok (allDrawings, potentialPois)
    | Some impulseLowCandle =>
        let unswept :=
          match pop (filter (fun l => (SwingPoint.time l <? SwingPoint.time impulseLowCandle)%Z = true)
                       htfSwingLows) with
          | None => true
          | Some priorLow =>
              Num.geb (SwingPoint.price impulseLowCandle) (SwingPoint.price priorLow)
          end in
        if Settings.useLiquiditySweepFilter settings && unswept
        then Ok (allDrawings, potentialPois)
        else
          let discountLevel :=
            Num.add (SwingPoint.price impulseLowCandle)
              (Num.mul (Num.sub (SwingPoint.price currentHigh)
                          (SwingPoint.price impulseLowCandle))
                 (Settings.discountZone settings)) in
          let mtfCandlesInLeg :=
            filter (fun c => within (SwingPoint.time impulseLowCandle)
                               (SwingPoint.time currentHigh) (Candle.time c) = true) mtf in
          potentialPois <- for_each (reverse mtfCandlesInLeg)
            (poi_candidate true discountLevel (SwingPoint.time currentHigh))
            potentialPois;
          Ok (allDrawings, potentialPois)
    end
  else Ok (allDrawings, potentialPois).

(** One iteration of the bearish loop, on [htfSwingLows[i - 1]] and
    [htfSwingLows[i]]. *)
Definition bearish_leg (pair : SwingPoint.t * SwingPoint.t)
  (acc : list Drawing * list POI.t) : result (list Drawing * list POI.t) :=
  let '(prevLow, currentLow) := pair in
  let '(allDrawings, potentialPois) := acc in
  if Num.ltb (SwingPoint.price currentLow) (SwingPoint.price prevLow) then
    let bos := BOS.mk (SwingPoint.time currentLow) (SwingPoint.price prevLow) in
    let allDrawings := allDrawings ++ [DrawBOS bos] in
    match head (js_sort
                  (fun a b => positive (Num.sub (SwingPoint.price b) (SwingPoint.price a)))
                  (filter (fun h => between (SwingPoint.time prevLow)
                                      (SwingPoint.time currentLow) (SwingPoint.time h) = true)
                     htfSwingHighs)) with
    | None => Ok (allDrawings, potentialPois)
    | Some impulseHighCandle =>
        let unswept :=
          match pop (filter (fun h => (SwingPoint.time h <? SwingPoint.time impulseHighCandle)%Z = true)
                       htfSwingHighs) with
          | None => true
          | Some priorHigh =>
              Num.leb (SwingPoint.price impulseHighCandle) (SwingPoint.price priorHigh)
          end in
        if Settings.useLiquiditySweepFilter settings && unswept
        then Ok (allDrawings, potentialPois)
        else
          let premiumLevel :=
            Num.sub (SwingPoint.price impulseHighCandle)
              (Num.mul (Num.sub (SwingPoint.price impulseHighCandle)
                          (SwingPoint.price currentLow))
                 (Settings.discountZone settings)) in
          let mtfCandlesInLeg :=
            filter (fun c => within (SwingPoint.time impulseHighCandle)
                               (SwingPoint.time currentLow) (Candle.time c) = true) mtf in
          potentialPois <- for_each (reverse mtfCandlesInLeg)
            (poi_candidate false premiumLevel (SwingPoint.time currentLow))
            potentialPois;
          Ok (allDrawings, potentialPois)
    end
  else Ok (allDrawings, potentialPois).

End Structure.

(** The pairs [(l[i - 1], l[i])] for [i] from [1]. *)
Fixpoint consecutive {A : Type} (l : list A) : list (A * A) :=
  match l with
  | a :: (b :: _) as l' => (a, b) :: consecutive l'
  | _ => []
  end.

Definition same_zone (p poi : POI.t) : bool :=
  (POI.startTime p =? POI.startTime poi)%Z
  && Num.eqb (POI.top p) (POI.top poi)
  && Num.eqb (POI.bottom p) (POI.bottom poi).

(** [sorted.filter((poi, index, self) => index === self.findIndex(...))]. *)
Definition dedupe_pois (sorted : list POI.t) : list POI.t :=
  map snd
    (filter (fun entry => findIndex (fun p => same_zone p (snd entry)) sorted = Some (fst entry))
       (combine (seq 0 (length sorted)) sorted)).

(** ** The entry tracker *)

Module Tracker.
Record t : Type := mk
  { monitoredPoi : option POI.t;
    ltfDataForChoch : list Candle.t;
    activePois : list POI.t;
    allTrades : list TradeSignal.t;
    allDrawings : list Drawing }.
End Tracker.

Section Entry.

Variable settings : Settings.t.

(** [monitoredPoi = null; ltfDataForChoch = [];] *)
Definition release (st : Tracker.t) (allTrades : list TradeSignal.t)
  (allDrawings : list Drawing) : Tracker.t :=
  Tracker.mk None [] (Tracker.activePois st) allTrades allDrawings.

Definition push_signal (allTrades : list TradeSignal.t) (signal : TradeSignal.t)
  : list TradeSignal.t :=
  if existsb (fun t => (TradeSignal.entryTime t =? TradeSignal.entryTime signal)%Z) allTrades
  then allTrades
  else allTrades ++ [signal].

(** The body of [if (lastLtfHigh && currentLtfCandle.high > lastLtfHigh.price)]. *)
Definition bullish_choch (st : Tracker.t) (buffer : list Candle.t)
  (lows : list SwingPoint.t) (currentLtfCandle : Candle.t)
  (lastLtfHigh : SwingPoint.t) : Tracker.t :=
  let choch := CHoCH.mk (Candle.time currentLtfCandle) (SwingPoint.price lastLtfHigh) in
  let allDrawings := Tracker.allDrawings st ++ [DrawCHoCH choch] in
  match pop (filter (fun l => (SwingPoint.time l <? CHoCH.time choch)%Z = true) lows) with
  | None => release st (Tracker.allTrades st) allDrawings
  | Some chochLowPoint =>
      let entryLegCandles :=
        filter (fun c => within (SwingPoint.time chochLowPoint) (CHoCH.time choch)
                           (Candle.time c) = true) buffer in
      let entryOB :=
        find (fun c => Num.gtb (Candle.open c) (Candle.close c)) (reverse entryLegCandles) in
      let allTrades :=
        match entryOB with
        | None => Tracker.allTrades st
        | Some entryOB =>
            let entryPrice := Candle.high entryOB in
            let stopLoss :=
              match Settings.slType settings with
              | Structure => SwingPoint.price chochLowPoint
              | Fixed =>
                  Num.mul entryPrice
                    (Num.sub Num.one (Num.div (Settings.fixedSlValue settings) Num.hundred))
              end in
            let risk := Num.sub entryPrice stopLoss in
            if positive risk then
              let takeProfit :=
                Num.add entryPrice (Num.mul risk (Settings.rrRatio settings)) in
              push_signal (Tracker.allTrades st)
                (TradeSignal.mk (Candle.time entryOB) entryPrice stopLoss takeProfit Bullish)
            else Tracker.allTrades st
        end in
      release st allTrades allDrawings
  end.

(** The body of [if (lastLtfLow && currentLtfCandle.low < lastLtfLow.price)]. *)
Definition bearish_choch (st : Tracker.t) (buffer : list Candle.t)
  (highs : list SwingPoint.t) (currentLtfCandle : Candle.t)
  (lastLtfLow : SwingPoint.t) : Tracker.t :=
  let choch := CHoCH.mk (Candle.time currentLtfCandle) (SwingPoint.price lastLtfLow) in
  let allDrawings := Tracker.allDrawings st ++ [DrawCHoCH choch] in
  match pop (filter (fun h => (SwingPoint.time h <? CHoCH.time choch)%Z = true) highs) with
  | None => release st (Tracker.allTrades st) allDrawings
  | Some chochHighPoint =>
      let entryLegCandles :=
        filter (fun c => within (SwingPoint.time chochHighPoint) (CHoCH.time choch)
                           (Candle.time c) = true) buffer in
      let entryOB :=
        find (fun c => Num.ltb (Candle.open c) (Candle.close c)) (reverse entryLegCandles) in
      let allTrades :=
        match entryOB with
        | None => Tracker.allTrades st
        | Some entryOB =>
            let entryPrice := Candle.low entryOB in
            let stopLoss :=
              match Settings.slType settings with
              | Structure => SwingPoint.price chochHighPoint
              | Fixed =>
                  Num.mul entryPrice
                    (Num.add Num.one (Num.div (Settings.fixedSlValue settings) Num.hundred))
              end in
            let risk := Num.sub stopLoss entryPrice in
            if positive risk then
              let takeProfit :=
                Num.sub entryPrice (Num.mul risk (Settings.rrRatio settings)) in
              push_signal (Tracker.allTrades st)
                (TradeSignal.mk (Candle.time entryOB) entryPrice stopLoss takeProfit Bearish)
            else Tracker.allTrades st
        end in
      release st allTrades allDrawings
  end.

Definition isInvalidated (monitoredPoi : POI.t) (currentLtfCandle : Candle.t) : bool :=
  (is_direction (POI.direction monitoredPoi) Bullish
   && Num.ltb (Candle.low currentLtfCandle) (POI.bottom monitoredPoi))
  || (is_direction (POI.direction monitoredPoi) Bearish
      && Num.gtb (Candle.high currentLtfCandle) (POI.top monitoredPoi)).

(** The test of the [for (const poi of activePois)] loop: the candle is not
    before the zone, and the zone [hasEntered]. *)
Definition enters (currentLtfCandle : Candle.t) (poi : POI.t) : bool :=
  negb (Candle.time currentLtfCandle <? POI.startTime poi)%Z
  && ((is_direction (POI.direction poi) Bullish
       && Num.leb (Candle.low currentLtfCandle) (POI.top poi)
       && Num.geb (Candle.high currentLtfCandle) (POI.bottom poi))
      || (is_direction (POI.direction poi) Bearish
          && Num.geb (Candle.high currentLtfCandle) (POI.bottom poi)
          && Num.leb (Candle.low currentLtfCandle) (POI.top poi))).

(** One iteration of the loop over the LTF candles. *)
Definition track (currentLtfCandle : Candle.t) (st : Tracker.t) : result Tracker.t :=
  match Tracker.monitoredPoi st with
  | Some monitoredPoi =>
      if isInvalidated monitoredPoi currentLtfCandle
      then Ok (release st (Tracker.allTrades st) (Tracker.allDrawings st))
      else
        let buffer := Tracker.ltfDataForChoch st ++ [currentLtfCandle] in
        let st := Tracker.mk (Tracker.monitoredPoi st) buffer (Tracker.activePois st)
                    (Tracker.allTrades st) (Tracker.allDrawings st) in
        if too_short buffer (Settings.ltfChochLookback settings) then Ok st
        else
          ltfLocalSwings <- findSwingPoints buffer (Settings.ltfChochLookback settings);
          let '(highs, lows) := ltfLocalSwings in
          match POI.direction monitoredPoi with
          | Bullish =>
              match pop highs with
              | Some lastLtfHigh =>
                  if Num.gtb (Candle.high currentLtfCandle) (SwingPoint.price lastLtfHigh)
                  then Ok (bullish_choch st buffer lows currentLtfCandle lastLtfHigh)
                  else Ok st
              | None => Ok st
              end
          | Bearish =>
              match pop lows with
              | Some lastLtfLow =>
                  if Num.ltb (Candle.low currentLtfCandle) (SwingPoint.price lastLtfLow)
                  then Ok (bearish_choch st buffer highs currentLtfCandle lastLtfLow)
                  else Ok st
              | None => Ok st
              end
          end
  | None =>
      match findIndex (enters currentLtfCandle) (Tracker.activePois st) with
      | Some k =>
          Ok (Tracker.mk (Tracker.activePois st !! k) [currentLtfCandle]
                (delete k (Tracker.activePois st))
                (Tracker.allTrades st) (Tracker.allDrawings st))
      | None => Ok st
      end
  end.

End Entry.

Definition poi_time_after (a b : POI.t) : bool :=
  (POI.startTime a - POI.startTime b >? 0)%Z.

Definition signal_time_after (a b : TradeSignal.t) : bool :=
  (TradeSignal.entryTime a - TradeSignal.entryTime b >? 0)%Z.

Definition analyzeSMC (chartData : ChartData.t) (settings : Settings.t)
  : result SMCAnalysisResult.t :=
  let htf := ChartData.htf chartData in
  let mtf := ChartData.mtf chartData in
  let ltf := ChartData.ltf chartData in
  if too_short htf (Settings.htfSwingLookback settings)
     || (length mtf <? 10)%nat || (length ltf <? 10)%nat
  then Ok (SMCAnalysisResult.mk [] [])
  else
    htfSwings <- findSwingPoints htf (Settings.htfSwingLookback settings);
    let htfSwingHighs := js_sort swing_time_after (fst htfSwings) in
    let htfSwingLows := js_sort swing_time_after (snd htfSwings) in
    bullish <- for_each (consecutive htfSwingHighs)
      (bullish_leg settings mtf htfSwingLows) ([], []);
    both <- for_each (consecutive htfSwingLows)
      (bearish_leg settings mtf htfSwingHighs) bullish;
    let '(allDrawings, potentialPois) := both in
    let activePois := dedupe_pois (js_sort poi_time_after potentialPois) in
    allDrawings <- for_each activePois
      (fun p allDrawings =>
         lastLtf <- at_index ltf (length ltf - 1);
         Ok (allDrawings ++
               [DrawPOI (POI.mk (POI.startTime p) (Candle.time lastLtf) (POI.top p)
                           (POI.bottom p) (POI.direction p))]))
      allDrawings;
    final <- for_each ltf (track settings) (Tracker.mk None [] activePois [] allDrawings);
    Ok (SMCAnalysisResult.mk (js_sort signal_time_after (Tracker.allTrades final))
          (Tracker.allDrawings final)).

(** ** The backtest simulator *)

(** The mutable variables of [runBacktest].  [activeTrade] is the position in
    [executedTrades] of the object that the source's [activeTrade] refers
    to. *)
Module Backtest.
Record t : Type := mk
  { equity : num;
    peakEquity : num;
    maxDrawdown : num;
    maxDrawdownAmount : num;
    executedTrades : list ExecutedTrade.t;
    activeTrade : option nat;
    pendingSignals : list TradeSignal.t }.
End Backtest.

Section Simulator.

Variable settings : Settings.t.

Definition hitSL (activeTrade : ExecutedTrade.t) (candle : Candle.t) : bool :=
  match ExecutedTrade.type activeTrade with
  | Bullish => Num.leb (Candle.low candle) (ExecutedTrade.slPrice activeTrade)
  | Bearish => Num.geb (Candle.high candle) (ExecutedTrade.slPrice activeTrade)
  end.

Definition hitTP (activeTrade : ExecutedTrade.t) (candle : Candle.t) : bool :=
  match ExecutedTrade.type activeTrade with
  | Bullish => Num.geb (Candle.high candle) (ExecutedTrade.tpPrice activeTrade)
  | Bearish => Num.leb (Candle.low candle) (ExecutedTrade.tpPrice activeTrade)
  end.

(** [outcome] and [exitPrice] after the stop-loss / take-profit tests. *)
Definition exit_of (activeTrade : ExecutedTrade.t) (candle : Candle.t)
  : option Outcome * option num :=
  if hitSL activeTrade candle then (Some Loss, Some (ExecutedTrade.slPrice activeTrade))
  else if hitTP activeTrade candle then (Some Win, Some (ExecutedTrade.tpPrice activeTrade))
  else (None, None).

(** The net profit of a trade that closes with [outcome]. *)
Definition net_pnl (activeTrade : ExecutedTrade.t) (outcome : Outcome) : num :=
  let equityBefore := ExecutedTrade.equity activeTrade in
  let amountToRisk := Num.abs (ExecutedTrade.pnl activeTrade) in
  let positionValue := Num.mul (ExecutedTrade.leverage activeTrade) equityBefore in
  let finalPnl :=
    match outcome with
    | Win => Num.mul amountToRisk (Settings.rrRatio settings)
    | _ => Num.neg amountToRisk
    end in
  let finalCommissionCost :=
    Num.mul (Num.mul positionValue
               (Num.div (Settings.commissionPercent settings) Num.hundred))
      Num.two in
  Num.sub finalPnl finalCommissionCost.

(** The body of [if (outcome && exitPrice)]: the trade at position [k] is
    closed in place. *)
Definition close_trade (k : nat) (activeTrade : ExecutedTrade.t) (candle : Candle.t)
  (outcome : Outcome) (exitPrice : num) (st : Backtest.t) : Backtest.t :=
  let equityBefore := ExecutedTrade.equity activeTrade in
  let netPnl := net_pnl activeTrade outcome in
  let equity := Num.add (Backtest.equity st) netPnl in
  let peakEquity :=
    if Num.gtb equity (Backtest.peakEquity st) then equity else Backtest.peakEquity st in
  let drawdownPercent :=
    if positive peakEquity
    then Num.mul (Num.div (Num.sub peakEquity equity) peakEquity) Num.hundred
    else Num.zero in
  let exceeds := Num.gtb drawdownPercent (Backtest.maxDrawdown st) in
  let closed :=
    ExecutedTrade.mk
      (ExecutedTrade.signalTime activeTrade)
      (ExecutedTrade.entryTime activeTrade)
      (Some (Candle.time candle))
      (ExecutedTrade.entryPrice activeTrade)
      (Some exitPrice)
      outcome
      netPnl
      equity
      (ExecutedTrade.type activeTrade)
      (ExecutedTrade.slPrice activeTrade)
      (ExecutedTrade.tpPrice activeTrade)
      (Num.mul (Num.div netPnl equityBefore) Num.hundred)
      (ExecutedTrade.leverage activeTrade) in
  Backtest.mk equity peakEquity
    (if exceeds then drawdownPercent else Backtest.maxDrawdown st)
    (if exceeds then Num.sub peakEquity equity else Backtest.maxDrawdownAmount st)
    (<[k := closed]> (Backtest.executedTrades st))
    None
    (Backtest.pendingSignals st).

(** Step 1 of the loop body: check to close an active trade. *)
Definition check_close (candle : Candle.t) (st : Backtest.t) : Backtest.t :=
  match Backtest.activeTrade st with
  | None => st
  | Some k =>
      match Backtest.executedTrades st !! k with
      | None => st
      | Some activeTrade =>
          match exit_of activeTrade candle with
          | (Some outcome, Some exitPrice) =>
              if Num.truthy exitPrice
              then close_trade k activeTrade candle outcome exitPrice st
              else st
          | _ => st
          end
      end
  end.

(** The trade that [signal] opens on [candle], or [None] when the loop
    over the pending signals goes on to the next one. *)
Definition try_open (equity : num) (candle : Candle.t) (signal : TradeSignal.t)
  : option ExecutedTrade.t :=
  if (Candle.time candle <? TradeSignal.entryTime signal)%Z then None
  else
    let isBullishEntry :=
      is_direction (TradeSignal.type signal) Bullish
      && Num.leb (Candle.low candle) (TradeSignal.entryPrice signal)
      && Num.geb (Candle.high candle) (TradeSignal.entryPrice signal) in
    let isBearishEntry :=
      is_direction (TradeSignal.type signal) Bearish
      && Num.geb (Candle.high candle) (TradeSignal.entryPrice signal)
      && Num.leb (Candle.low candle) (TradeSignal.entryPrice signal) in
    if isBullishEntry || isBearishEntry then
      let equityBefore := equity in
      let amountToRiskOriginal :=
        Num.mul equityBefore (Num.div (Settings.orderSizePercent settings) Num.hundred) in
      let riskPerUnit :=
        Num.abs (Num.sub (TradeSignal.entryPrice signal) (TradeSignal.stopLoss signal)) in
      if Num.leb riskPerUnit Num.zero then None
      else
        let positionSizeInUnitsOriginal := Num.div amountToRiskOriginal riskPerUnit in
        let positionValueOriginal :=
          Num.mul positionSizeInUnitsOriginal (TradeSignal.entryPrice signal) in
        let filtered :=
          Settings.filterByCommission settings
          && (let commissionCost :=
                Num.mul (Num.mul positionValueOriginal
                           (Num.div (Settings.commissionPercent settings) Num.hundred))
                  Num.two in
              let potentialProfit :=
                Num.mul amountToRiskOriginal (Settings.rrRatio settings) in
              Num.leb potentialProfit commissionCost) in
        if filtered then None
        else
          let exactLeverage := Num.div positionValueOriginal equityBefore in
          let appliedLeverage := Num.ceil exactLeverage in
          let finalPositionValue := Num.mul equityBefore appliedLeverage in
          let finalPositionSizeInUnits :=
            Num.div finalPositionValue (TradeSignal.entryPrice signal) in
          let finalAmountToRisk := Num.mul finalPositionSizeInUnits riskPerUnit in
          Some (ExecutedTrade.mk
                  (TradeSignal.entryTime signal)
                  (Some (Candle.time candle))
                  None
                  (TradeSignal.entryPrice signal)
                  None
                  Open
                  finalAmountToRisk
                  equityBefore
                  (TradeSignal.type signal)
                  (TradeSignal.stopLoss signal)
                  (TradeSignal.takeProfit signal)
                  Num.zero
                  appliedLeverage)
    else None.

(** The loop [for (let i = 0; i < pendingSignals.length; i++)], from
    position [i] on: the first signal that opens a trade, and its
    position. *)
Fixpoint scan_signals (equity : num) (candle : Candle.t)
  (signals : list TradeSignal.t) (i : nat) : option (nat * ExecutedTrade.t) :=
  match signals with
  | [] => None
  | signal :: rest =>
      match try_open equity candle signal with
      | Some trade => Some (i, trade)
      | None => scan_signals equity candle rest (S i)
      end
  end.

(** Step 2 of the loop body: check to open a new trade. *)
Definition check_open (candle : Candle.t) (st : Backtest.t) : Backtest.t :=
  match Backtest.activeTrade st with
  | Some _ => st
  | None =>
      match scan_signals (Backtest.equity st) candle (Backtest.pendingSignals st) 0 with
      | None => st
      | Some (i, trade) =>
          Backtest.mk (Backtest.equity st) (Backtest.peakEquity st)
            (Backtest.maxDrawdown st) (Backtest.maxDrawdownAmount st)
            (Backtest.executedTrades st ++ [trade])
            (Some (length (Backtest.executedTrades st)))
            (delete i (Backtest.pendingSignals st))
      end
  end.

Definition step (st : Backtest.t) (candle : Candle.t) : Backtest.t :=
  check_open candle (check_close candle st).

Definition initialCapitalForRun (startingEquity : option num) : num :=
  match startingEquity with
  | Some e => e
  | None => Settings.initialCapital settings
  end.

Definition init (tradeSignals : list TradeSignal.t) (startingEquity : option num)
  : Backtest.t :=
  Backtest.mk (initialCapitalForRun startingEquity) (initialCapitalForRun startingEquity)
    Num.zero Num.zero [] None (js_sort signal_time_after tradeSignals).

(** The state after the loop over [ltfData]. *)
Definition simulate (ltfData : list Candle.t) (tradeSignals : list TradeSignal.t)
  (startingEquity : option num) : Backtest.t :=
  foldl step (init tradeSignals startingEquity) ltfData.

Definition is_closed (t : ExecutedTrade.t) : bool :=
  match ExecutedTrade.outcome t with
  | Open => false
  | _ => true
  end.

Definition has_outcome (o : Outcome) (t : ExecutedTrade.t) : bool :=
  match ExecutedTrade.outcome t, o with
  | Win, Win | Loss, Loss | Open, Open => true
  | _, _ => false
  end.

(** [list.reduce((sum, t) => sum + t.pnl, start)]. *)
Definition sum_pnl (start : num) (l : list ExecutedTrade.t) : num :=
  foldl (fun sum t => Num.add sum (ExecutedTrade.pnl t)) start l.

Definition aggregate (initialCapital : num) (st : Backtest.t) : BacktestResults.t :=
  let executedTrades := Backtest.executedTrades st in
  let closedTrades := filter (fun t => is_closed t = true) executedTrades in
  let totalTrades := length closedTrades in
  if (totalTrades =? 0)%nat then
    BacktestResults.mk executedTrades Num.zero Num.zero Num.zero Num.zero Num.zero
      (Backtest.equity st) 0
  else
    let wins := length (filter (fun t => has_outcome Win t = true) closedTrades) in
    let winRate :=
      if (0 <? totalTrades)%nat
      then Num.mul (Num.div (Num.of_nat wins) (Num.of_nat totalTrades)) Num.hundred
      else Num.zero in
    let finalEquity := Backtest.equity st in
    let netProfitPercent :=
      Num.mul (Num.div (Num.sub finalEquity initialCapital) initialCapital) Num.hundred in
    let totalWinPnl :=
      sum_pnl Num.zero (filter (fun t => has_outcome Win t = true) closedTrades) in
    let totalLossPnl :=
      Num.abs (sum_pnl Num.zero (filter (fun t => has_outcome Loss t = true) closedTrades)) in
    let profitFactor :=
      if positive totalLossPnl then Num.div totalWinPnl totalLossPnl else PInf in
    BacktestResults.mk executedTrades (Backtest.maxDrawdown st)
      (Backtest.maxDrawdownAmount st) netProfitPercent winRate profitFactor
      finalEquity totalTrades.

Definition runBacktest (ltfData : list Candle.t) (tradeSignals : list TradeSignal.t)
  (startingEquity : option num) : BacktestResults.t :=
  aggregate (initialCapitalForRun startingEquity)
    (simulate ltfData tradeSignals startingEquity).

End Simulator.

(** ** The optimizer *)

Module OptimizerParameter.
Record t (A : Type) : Type := mk
  { enabled : bool; start : A; end_ : A; step : A }.
Arguments mk {A}.
Arguments enabled {A}.
Arguments start {A}.
Arguments end_ {A}.
Arguments step {A}.
End OptimizerParameter.

(** [keyof BacktestResults]. *)
Inductive Metric : Type :=
| MetricTrades
| MetricMaxDrawdown
| MetricMaxDrawdownAmount
| MetricNetProfitPercent
| MetricWinRate
| MetricProfitFactor
| MetricFinalEquity
| MetricTotalTrades.

Module OptimizerSettings.
Record t : Type := mk
  { htfSwingLookback : OptimizerParameter.t num;
    ltfChochLookback : OptimizerParameter.t num;
    discountZone : OptimizerParameter.t num;
    rrRatio : OptimizerParameter.t num;
    targetMetric : Metric }.
End OptimizerSettings.

(** The [Partial<Settings>] values that [generateCombinations] builds: only
    the four swept keys can be present. *)
Module Params.
Record t : Type := mk
  { htfSwingLookback : option num;
    ltfChochLookback : option num;
    discountZone : option num;
    rrRatio : option num }.
Definition empty : t := mk None None None None.
End Params.

Module OptimizationResultRow.
Record t : Type := mk
  { params : Params.t; results : BacktestResults.t; id : nat }.
End OptimizationResultRow.

Module OptimizationResults.
Record t : Type := mk
  { runs : list OptimizationResultRow.t;
    bestRun : option OptimizationResultRow.t }.
End OptimizationResults.

(** [for (let v = start; v <= end; v += step) values.push(v)].  The loop need
    not end (a step of [0]); [fuel] bounds the number of tests of the loop
    condition, and [None] says that it was not enough. *)
Fixpoint range_values {A : Type} (le : A -> A -> bool) (plus : A -> A -> A)
  (fuel : nat) (v end_ step : A) : option (list A) :=
  match fuel with
  | O => None
  | S fuel' =>
      if le v end_
      then option_map (cons v) (range_values le plus fuel' (plus v step) end_ step)
      else Some []
  end.

(** An entry of [paramsToOptimize]: a key and its values. *)
Inductive Sweep : Type :=
| SweepHtfSwingLookback (values : list num)
| SweepLtfChochLookback (values : list num)
| SweepDiscountZone (values : list num)
| SweepRrRatio (values : list num).

(** [{ ...combo, [key]: value }] for each value of the entry. *)
Definition assignments (p : Sweep) (combo : Params.t) : list Params.t :=
  match p with
  | SweepHtfSwingLookback values =>
      map (fun v => Params.mk (Some v) (Params.ltfChochLookback combo)
                      (Params.discountZone combo) (Params.rrRatio combo)) values
  | SweepLtfChochLookback values =>
      map (fun v => Params.mk (Params.htfSwingLookback combo) (Some v)
                      (Params.discountZone combo) (Params.rrRatio combo)) values
  | SweepDiscountZone values =>
      map (fun v => Params.mk (Params.htfSwingLookback combo)
                      (Params.ltfChochLookback combo) (Some v) (Params.rrRatio combo)) values
  | SweepRrRatio values =>
      map (fun v => Params.mk (Params.htfSwingLookback combo)
                      (Params.ltfChochLookback combo) (Params.discountZone combo) (Some v)) values
  end.

(** [helper(combo, i)], on the entries from position [i] on; it is only
    called with at least one entry left. *)
Fixpoint helper (paramsToOptimize : list Sweep) (combo : Params.t) : list Params.t :=
  match paramsToOptimize with
  | [] => []
  | p :: rest =>
      flat_map (fun nextCombo =>
                  match rest with
                  | [] => [nextCombo]
                  | _ => helper rest nextCombo
                  end)
        (assignments p combo)
  end.

Definition sweep_of {A : Type} (le : A -> A -> bool) (plus : A -> A -> A)
  (fuel : nat) (key : list A -> Sweep) (p : OptimizerParameter.t A)
  : option (list Sweep) :=
  if OptimizerParameter.enabled p
  then option_map (fun values => [key values])
         (range_values le plus fuel (OptimizerParameter.start p)
            (OptimizerParameter.end_ p) (OptimizerParameter.step p))
  else Some [].

(** The keys are visited in the order of the [OptimizerSettings] interface. *)
Definition generateCombinations (fuel : nat) (optimizerSettings : OptimizerSettings.t)
  : option (list Params.t) :=
  match
    sweep_of Num.leb Num.add fuel SweepHtfSwingLookback
      (OptimizerSettings.htfSwingLookback optimizerSettings),
    sweep_of Num.leb Num.add fuel SweepLtfChochLookback
      (OptimizerSettings.ltfChochLookback optimizerSettings),
    sweep_of Num.leb Num.add fuel SweepDiscountZone
      (OptimizerSettings.discountZone optimizerSettings),
    sweep_of Num.leb Num.add fuel SweepRrRatio
      (OptimizerSettings.rrRatio optimizerSettings)
  with
  | Some a, Some b, Some c, Some d =>
      let paramsToOptimize := a ++ b ++ c ++ d in
      match paramsToOptimize with
      | [] => Some [Params.empty]
      | _ => Some (helper paramsToOptimize Params.empty)
      end
  | _, _, _, _ => None
  end.

(** [{ ...baseSettings, ...params }]. *)
Definition override (baseSettings : Settings.t) (params : Params.t) : Settings.t :=
  Settings.mk
    (default (Settings.htfSwingLookback baseSettings) (Params.htfSwingLookback params))
    (default (Settings.ltfChochLookback baseSettings) (Params.ltfChochLookback params))
    (default (Settings.discountZone baseSettings) (Params.discountZone params))
    (Settings.useFvgFilter baseSettings)
    (Settings.useLiquiditySweepFilter baseSettings)
    (Settings.initialCapital baseSettings)
    (Settings.orderSizePercent baseSettings)
    (default (Settings.rrRatio baseSettings) (Params.rrRatio params))
    (Settings.commissionPercent baseSettings)
    (Settings.filterByCommission baseSettings)
    (Settings.slType baseSettings)
    (Settings.fixedSlValue baseSettings).

(** [a.results[metric] as number], as the subtraction in the comparator
    reads it: the [trades] array converts to [0] when empty and to [NaN]
    otherwise. *)
Definition metric_value (metric : Metric) (r : BacktestResults.t) : num :=
  match metric with
  | MetricTrades =>
      match BacktestResults.trades r with
      | [] => Num.zero
      | _ => NaN
      end
  | MetricMaxDrawdown => BacktestResults.maxDrawdown r
  | MetricMaxDrawdownAmount => BacktestResults.maxDrawdownAmount r
  | MetricNetProfitPercent => BacktestResults.netProfitPercent r
  | MetricWinRate => BacktestResults.winRate r
  | MetricProfitFactor => BacktestResults.profitFactor r
  | MetricFinalEquity => BacktestResults.finalEquity r
  | MetricTotalTrades => Num.of_nat (BacktestResults.totalTrades r)
  end.

Definition lower_is_better (metric : Metric) : bool :=
  match metric with
  | MetricMaxDrawdown | MetricMaxDrawdownAmount => true
  | _ => false
  end.

(** The comparator of [runs.sort]. *)
Definition compare_runs (metric : Metric) (a b : OptimizationResultRow.t) : num :=
  let valA := metric_value metric (OptimizationResultRow.results a) in
  let valB := metric_value metric (OptimizationResultRow.results b) in
  if lower_is_better metric then Num.sub valA valB else Num.sub valB valA.

Definition too_many (n : nat) : exn :=
  Error ("Too many combinations to test: "
         ++ NilEmpty.string_of_uint (Nat.to_uint n)
         ++ ". Please narrow the optimization range.")%string.

(** The analysis and the backtest of one combination. *)
Definition run_one (chartData : ChartData.t) (baseSettings : Settings.t)
  (i : nat) (params : Params.t) : result OptimizationResultRow.t :=
  let currentSettings := override baseSettings params in
  analysis <- analyzeSMC chartData currentSettings;
  let results :=
    runBacktest currentSettings (ChartData.ltf chartData)
      (SMCAnalysisResult.trades analysis) None in
  Ok (OptimizationResultRow.mk params results i).

(** The loop over the combinations, from position [i] on.  The first
    component lists the settings of the runs that were started. *)
Fixpoint run_all (chartData : ChartData.t) (baseSettings : Settings.t)
  (i : nat) (combinations : list Params.t) (runs : list OptimizationResultRow.t)
  : list Settings.t * result (list OptimizationResultRow.t) :=
  match combinations with
  | [] => ([], Ok runs)
  | params :: rest =>
      match run_one chartData baseSettings i params with
      | Throw e => ([override baseSettings params], Throw e)
      | Ok row =>
          let '(started, r) := run_all chartData baseSettings (S i) rest (runs ++ [row]) in
          (override baseSettings params :: started, r)
      end
  end.

(** [runOptimizer], on the combinations that [generateCombinations] returned:
    the runs that were started, and the outcome. *)
Definition optimize (chartData : ChartData.t) (baseSettings : Settings.t)
  (optimizerSettings : OptimizerSettings.t) (combinations : list Params.t)
  : list Settings.t * result OptimizationResults.t :=
  if (500 <? length combinations)%nat then ([], Throw (too_many (length combinations)))
  else
    let '(started, r) := run_all chartData baseSettings 0 combinations [] in
    (started,
     runs <- r;
     match runs with
     | [] => Ok (OptimizationResults.mk [] None)
     | _ =>
         let metric := OptimizerSettings.targetMetric optimizerSettings in
         let runs := js_sort (fun a b => positive (compare_runs metric a b)) runs in
         Ok (OptimizationResults.mk runs (head runs))
     end).

Definition runOptimizer (fuel : nat) (chartData : ChartData.t)
  (baseSettings : Settings.t) (optimizerSettings : OptimizerSettings.t)
  : option (list Settings.t * result OptimizationResults.t) :=
  option_map (optimize chartData baseSettings optimizerSettings)
    (generateCombinations fuel optimizerSettings).

(** ** Properties of the swing detector, as predicates *)

(** [sp] was produced from the candle at an index [i] with [lookback] candles
    on both sides, whose [field] stands in relation [left] to that of each
    of the [lookback] candles before it and in relation [right] to that of
    each of the [lookback] candles after it. *)
Definition flagged (field : Candle.t -> num) (kind : SwingType)
  (left right : num -> num -> bool) (data : list Candle.t) (lookback : nat)
  (sp : SwingPoint.t) : Prop :=
  exists i c,
    (lookback <= i)%nat /\ (i + lookback < length data)%nat /\
    data !! i = Some c /\
    sp = SwingPoint.mk (Candle.time c) (field c) kind /\
    forall j, (1 <= j <= lookback)%nat ->
      exists cl cr,
        data !! (i - j)%nat = Some cl /\ data !! (i + j)%nat = Some cr /\
        left (field c) (field cl) = true /\ right (field c) (field cr) = true.

(** Strictly beyond all [2 * lookback] neighbours. *)
Definition strict_swings (data : list Candle.t) (lookback : nat) : Prop :=
  forall highs lows, findSwingPoints data (Num.of_nat lookback) = Ok (highs, lows) ->
    (forall sp, sp ∈ highs ->
       flagged Candle.high SwingHigh Num.gtb Num.gtb data lookback sp) /\
    (forall sp, sp ∈ lows ->
       flagged Candle.low SwingLow Num.ltb Num.ltb data lookback sp).

Definition not_lt (a b : num) : bool := negb (Num.ltb a b).
Definition not_le (a b : num) : bool := negb (Num.leb a b).
Definition not_gt (a b : num) : bool := negb (Num.gtb a b).
Definition not_ge (a b : num) : bool := negb (Num.geb a b).

(** The candle at [i] and its neighbours at distance [j] pass one round of
    the inner loop. *)
Definition round_ok (field : Candle.t -> num) (left right : num -> num -> bool)
  (data : list Candle.t) (i j : nat) : Prop :=
  exists ci cl cr,
    data !! i = Some ci /\ data !! (i - j)%nat = Some cl /\ data !! (i + j)%nat = Some cr /\
    left (field ci) (field cl) = true /\ right (field ci) (field cr) = true.

(** ** Properties of the backtest simulator, as predicates *)

(** The number of trades of [l] whose outcome is [Open]. *)
Definition open_count (l : list ExecutedTrade.t) : nat :=
  length (filter (fun t => has_outcome Open t = true) l).

(** The closed trades of [l], as [runBacktest] selects them. *)
Definition closedTrades (l : list ExecutedTrade.t) : list ExecutedTrade.t :=
  filter (fun t => is_closed t = true) l.

(** The invariant of the loop of [runBacktest]: the trades before the active
    one are closed and account for the equity, and the active trade, if any,
    is the last element of [executedTrades] and is open. *)
Definition backtest_inv (initialCapital : num) (st : Backtest.t) : Prop :=
  exists closed,
    Forall (fun t => is_closed t = true) closed /\
    Backtest.equity st = sum_pnl initialCapital closed /\
    match Backtest.activeTrade st with
    | None => Backtest.executedTrades st = closed
    | Some k =>
        k = length closed /\
        exists t, Backtest.executedTrades st = closed ++ [t] /\
                  ExecutedTrade.outcome t = Open
    end.

(** ** Properties of the optimizer, as predicates *)

Definition run_metric (metric : Metric) (row : OptimizationResultRow.t) : num :=
  metric_value metric (OptimizationResultRow.results row).

(** [a] may come before [b] in the ranking by [metric]. *)
Definition ranks_before (metric : Metric) (a b : OptimizationResultRow.t) : Prop :=
  if lower_is_better metric
  then Num.leb (run_metric metric a) (run_metric metric b) = true
  else Num.geb (run_metric metric a) (run_metric metric b) = true.

(** The metric of every run is a number. *)
Definition comparable (metric : Metric) (runs : list OptimizationResultRow.t) : Prop :=
  Forall (fun row => Num.is_nan (run_metric metric row) = false) runs.

(** [s] is [{ ...baseSettings, ...params }]: it has the value of [params]
    for each swept key that [params] holds and agrees with [baseSettings]
    everywhere else. *)
Definition spread_of (baseSettings : Settings.t) (params : Params.t) (s : Settings.t)
  : Prop :=
  Settings.htfSwingLookback s
  = default (Settings.htfSwingLookback baseSettings) (Params.htfSwingLookback params) /\
  Settings.ltfChochLookback s
  = default (Settings.ltfChochLookback baseSettings) (Params.ltfChochLookback params) /\
  Settings.discountZone s
  = default (Settings.discountZone baseSettings) (Params.discountZone params) /\
  Settings.rrRatio s = default (Settings.rrRatio baseSettings) (Params.rrRatio params) /\
  Settings.useFvgFilter s = Settings.useFvgFilter baseSettings /\
  Settings.useLiquiditySweepFilter s = Settings.useLiquiditySweepFilter baseSettings /\
  Settings.initialCapital s = Settings.initialCapital baseSettings /\
  Settings.orderSizePercent s = Settings.orderSizePercent baseSettings /\
  Settings.commissionPercent s = Settings.commissionPercent baseSettings /\
  Settings.filterByCommission s = Settings.filterByCommission baseSettings /\
  Settings.slType s = Settings.slType baseSettings /\
  Settings.fixedSlValue s = Settings.fixedSlValue baseSettings.

(** [row] is the row of the completed run number [i], of [params]: it
    holds [i], [params] and the backtest, on the LTF candles, of the
    signals that the analysis returns under the settings of the run. *)
Definition row_of (chartData : ChartData.t) (baseSettings : Settings.t) (i : nat)
  (params : Params.t) (row : OptimizationResultRow.t) : Prop :=
  OptimizationResultRow.id row = i /\
  OptimizationResultRow.params row = params /\
  exists currentSettings analysis,
    spread_of baseSettings params currentSettings /\
    analyzeSMC chartData currentSettings = Ok analysis /\
    OptimizationResultRow.results row
    = runBacktest currentSettings (ChartData.ltf chartData)
        (SMCAnalysisResult.trades analysis) None.

(** The analysis of the run of [params] raises [e]. *)
Definition run_raises (chartData : ChartData.t) (baseSettings : Settings.t)
  (params : Params.t) (e : exn) : Prop :=
  exists currentSettings,
    spread_of baseSettings params currentSettings /\
    analyzeSMC chartData currentSettings = Throw e.

(** The second half of C8 as it is stated: on a grid of at most 500
    combinations the optimizer runs every combination. *)
Definition runs_every_combination (fuel : nat) (chartData : ChartData.t)
  (baseSettings : Settings.t) (optimizerSettings : OptimizerSettings.t) : Prop :=
  forall combinations started outcome,
    generateCombinations fuel optimizerSettings = Some combinations ->
    (length combinations <= 500)%nat ->
    runOptimizer fuel chartData baseSettings optimizerSettings = Some (started, outcome) ->
    length started = length combinations /\
    exists res, outcome = Ok res /\
                length (OptimizationResults.runs res) = length combinations.

(** A swept parameter whose loop ends: it is disabled, or it steps upwards
    by a positive amount between finite bounds. *)
Definition steps_up_num (p : OptimizerParameter.t num) : Prop :=
  OptimizerParameter.enabled p = true ->
  exists s e d,
    OptimizerParameter.start p = Fin s /\ OptimizerParameter.end_ p = Fin e /\
    OptimizerParameter.step p = Fin d /\ (0 < d)%Q.

(** ** Concrete inputs *)

(** A candle with finite prices. *)
Definition candle (time : Z) (open high low close : Q) : Candle.t :=
  Candle.mk time (Fin open) (Fin high) (Fin low) (Fin close).

(** Three candles; the first two share the high [5] and the low [1]. *)
Definition plateau : list Candle.t :=
  [candle 0 3 5 1 3; candle 1 3 5 1 3; candle 2 3 3 2 3].

(** Both lookbacks 1, capital 1000, reward twice the risk, no commission
    and no commission filter; the order size is left open. *)
Definition plain_settings (orderSizePercent : num) : Settings.t :=
  Settings.mk Num.one Num.one (Fin (1 # 2)) false false (Fin 1000) orderSizePercent (Fin 2)
    Num.zero false Structure Num.zero.

(** The same without any capital. *)
Definition penniless_settings (orderSizePercent : num) : Settings.t :=
  Settings.mk Num.one Num.one (Fin (1 # 2)) false false Num.zero orderSizePercent (Fin 2)
    Num.zero false Structure Num.zero.

(** The same with an HTF lookback of one and a half. *)
Definition fractional_settings (orderSizePercent : num) : Settings.t :=
  Settings.mk (Fin (3 # 2)) Num.one (Fin (1 # 2)) false false (Fin 1000) orderSizePercent
    (Fin 2) Num.zero false Structure Num.zero.

(** A long entry at 100 with its stop at 0 and its target at 200. *)
Definition zero_stop_signal : TradeSignal.t :=
  TradeSignal.mk 0 (Fin 100) (Fin 0) (Fin 200) Bullish.

(** A long entry at 100 with its stop at 95 and its target at 110. *)
Definition long_signal : TradeSignal.t :=
  TradeSignal.mk 0 (Fin 100) (Fin 95) (Fin 110) Bullish.

(** A candle that fills an entry at 100 without reaching 95 or 110. *)
Definition entry_candle : Candle.t := candle 0 100 101 99 100.

(** A candle from 0 to 250: it reaches both the stop and the target of
    [zero_stop_signal]. *)
Definition wide_candle : Candle.t := candle 60 100 250 0 100.

(** A candle from 90 to 120: it reaches both the stop and the target of
    [long_signal]. *)
Definition both_candle : Candle.t := candle 60 100 120 90 100.

(** A candle from 150 to 250: it reaches the target of [zero_stop_signal]
    and stays above its stop. *)
Definition target_candle : Candle.t := candle 120 200 250 150 200.

(** The grid of [lookbacks] values of the HTF lookback, from [1] on. *)
Definition lookback_grid (lookbacks : nat) : OptimizerSettings.t :=
  OptimizerSettings.mk
    (OptimizerParameter.mk true Num.one (Num.of_nat lookbacks) Num.one)
    (OptimizerParameter.mk false Num.one Num.one Num.one)
    (OptimizerParameter.mk false Num.zero Num.zero Num.one)
    (OptimizerParameter.mk false Num.zero Num.zero Num.one)
    MetricNetProfitPercent.

(** A sweep of the HTF lookback from [1] to [2] in steps of one half. *)
Definition half_step_grid : OptimizerSettings.t :=
  OptimizerSettings.mk
    (OptimizerParameter.mk true Num.one Num.two (Fin (1 # 2)))
    (OptimizerParameter.mk false Num.one Num.one Num.one)
    (OptimizerParameter.mk false Num.zero Num.zero Num.one)
    (OptimizerParameter.mk false Num.zero Num.zero Num.one)
    MetricNetProfitPercent.

Definition no_data : ChartData.t := ChartData.mk [] [] [].

(** A small market.  On the high timeframe the high of 12 breaks the swing
    high of 10 after a swing low of 5; on the mid timeframe the candle at
    time 22 is the only falling one under the discount level; the low
    timeframe enters its zone at time 31, turns at time 35 and then rises
    through 8.2 and 9.3. *)
Definition market : ChartData.t :=
  ChartData.mk
    [candle 0 7 8 6 7; candle 10 9 10 8 9; candle 20 7 9 5 7;
     candle 30 10 12 7 10; candle 40 10 11 9 10]
    [candle 20 6 7 (29 # 5) (13 # 2); candle 21 6 7 (29 # 5) (13 # 2);
     candle 22 7 (15 # 2) (11 # 2) 6; candle 23 6 7 (29 # 5) (13 # 2);
     candle 24 6 7 (29 # 5) (13 # 2); candle 25 6 7 (29 # 5) (13 # 2);
     candle 26 6 7 (29 # 5) (13 # 2); candle 27 6 7 (29 # 5) (13 # 2);
     candle 28 6 7 (29 # 5) (13 # 2); candle 29 6 7 (29 # 5) (13 # 2)]
    [candle 0 7 8 6 7; candle 1 7 8 6 7; candle 2 7 8 6 7;
     candle 31 7 (36 # 5) (13 # 2) (34 # 5);
     candle 32 (34 # 5) 7 6 (31 # 5);
     candle 33 (31 # 5) (37 # 5) (32 # 5) 7;
     candle 34 7 (71 # 10) (33 # 5) (34 # 5);
     candle 35 (34 # 5) (39 # 5) (34 # 5) (38 # 5);
     candle 36 (38 # 5) (17 # 2) (15 # 2) (42 # 5);
     candle 37 (42 # 5) (19 # 2) (15 # 2) 9].

(** The grid of the R:R ratios [1] and [2], ranked by [metric]. *)
Definition ratio_grid (metric : Metric) : OptimizerSettings.t :=
  OptimizerSettings.mk
    (OptimizerParameter.mk false Num.one Num.one Num.one)
    (OptimizerParameter.mk false Num.one Num.one Num.one)
    (OptimizerParameter.mk false Num.zero Num.zero Num.one)
    (OptimizerParameter.mk true Num.one Num.two Num.one)
    metric.

(** ** Properties of the analysis, as predicates *)

(** [signal] is what a change of character emits from the candles of
    [buffer]: it enters at the high of a falling candle (long) or at the low
    of a rising one (short), at that candle's time, with the stop on the
    losing side of the entry and the target at [rrRatio] times the risk on
    the other side. *)
Definition signal_from (settings : Settings.t) (buffer : list Candle.t)
  (signal : TradeSignal.t) : Prop :=
  exists entryOB,
    entryOB ∈ buffer /\
    TradeSignal.entryTime signal = Candle.time entryOB /\
    match TradeSignal.type signal with
    | Bullish =>
        Num.gtb (Candle.open entryOB) (Candle.close entryOB) = true /\
        TradeSignal.entryPrice signal = Candle.high entryOB /\
        positive (Num.sub (TradeSignal.entryPrice signal) (TradeSignal.stopLoss signal)) = true /\
        TradeSignal.takeProfit signal
        = Num.add (TradeSignal.entryPrice signal)
            (Num.mul (Num.sub (TradeSignal.entryPrice signal) (TradeSignal.stopLoss signal))
               (Settings.rrRatio settings))
    | Bearish =>
        Num.ltb (Candle.open entryOB) (Candle.close entryOB) = true /\
        TradeSignal.entryPrice signal = Candle.low entryOB /\
        positive (Num.sub (TradeSignal.stopLoss signal) (TradeSignal.entryPrice signal)) = true /\
        TradeSignal.takeProfit signal
        = Num.sub (TradeSignal.entryPrice signal)
            (Num.mul (Num.sub (TradeSignal.stopLoss signal) (TradeSignal.entryPrice signal))
               (Settings.rrRatio settings))
    end.

Definition is_poi_drawing (d : Drawing) : bool :=
  match d with
  | DrawPOI _ => true
  | _ => false
  end.

Definition is_choch_drawing (d : Drawing) : bool :=
  match d with
  | DrawCHoCH _ => true
  | _ => false
  end.

(** The number of drawings of [l] that [p] selects. *)
Definition count_drawings (p : Drawing -> bool) (l : list Drawing) : nat :=
  length (filter (fun d => p d = true) l).

(** The invariant of the loop over the LTF candles, for [zones] zones in
    all: the signals come from candles of [ltf] and have distinct entry
    times, every change of character used up a zone, and at most one signal
    was emitted per change of character. *)
Definition tracker_inv (settings : Settings.t) (ltf : list Candle.t) (zones : nat)
  (st : Tracker.t) : Prop :=
  Forall (signal_from settings ltf) (Tracker.allTrades st) /\
  NoDup (map TradeSignal.entryTime (Tracker.allTrades st)) /\
  (forall c, c ∈ Tracker.ltfDataForChoch st -> c ∈ ltf) /\
  (count_drawings is_choch_drawing (Tracker.allDrawings st)
   + length (Tracker.activePois st)
   + match Tracker.monitoredPoi st with Some _ => 1 | None => 0 end <= zones)%nat /\
  count_drawings is_poi_drawing (Tracker.allDrawings st) = zones /\
  (length (Tracker.allTrades st)
   <= count_drawings is_choch_drawing (Tracker.allDrawings st))%nat.

(** ** More properties of the backtest simulator, as predicates *)

(** The signal that an executed trade was opened from. *)
Definition signal_of (t : ExecutedTrade.t) : TradeSignal.t :=
  TradeSignal.mk (ExecutedTrade.signalTime t) (ExecutedTrade.entryPrice t)
    (ExecutedTrade.slPrice t) (ExecutedTrade.tpPrice t) (ExecutedTrade.type t).

(** [t] was filled on [candle]: at the candle's time, not before the time of
    its signal, at an entry price inside the candle's range, and with a stop
    that is not at the entry price. *)
Definition filled_on (candle : Candle.t) (t : ExecutedTrade.t) : Prop :=
  ExecutedTrade.entryTime t = Some (Candle.time candle) /\
  (ExecutedTrade.signalTime t <= Candle.time candle)%Z /\
  Num.leb (Candle.low candle) (ExecutedTrade.entryPrice t) = true /\
  Num.leb (ExecutedTrade.entryPrice t) (Candle.high candle) = true /\
  Num.leb (Num.abs (Num.sub (ExecutedTrade.entryPrice t) (ExecutedTrade.slPrice t)))
    Num.zero = false.

(** The exit fields of [t] agree with its outcome. *)
Definition exit_recorded (t : ExecutedTrade.t) : Prop :=
  match ExecutedTrade.outcome t with
  | Open => ExecutedTrade.exitTime t = None /\ ExecutedTrade.exitPrice t = None
  | Loss =>
      is_Some (ExecutedTrade.exitTime t) /\
      ExecutedTrade.exitPrice t = Some (ExecutedTrade.slPrice t)
  | Win =>
      is_Some (ExecutedTrade.exitTime t) /\
      ExecutedTrade.exitPrice t = Some (ExecutedTrade.tpPrice t)
  end.

(** The bookkeeping of the loop of [runBacktest] over the candles of [ltf]
    and the signals [tradeSignals]. *)
Definition ledger_inv (ltf : list Candle.t) (tradeSignals : list TradeSignal.t)
  (st : Backtest.t) : Prop :=
  Forall (fun t => (exists candle, candle ∈ ltf /\ filled_on candle t) /\ exit_recorded t)
    (Backtest.executedTrades st) /\
  map signal_of (Backtest.executedTrades st) ++ Backtest.pendingSignals st
    ≡ₚ tradeSignals /\
  Num.leb Num.zero (Backtest.maxDrawdown st) = true /\
  Num.leb Num.zero (Backtest.maxDrawdownAmount st) = true.

(** ** More properties of the optimizer, as predicates *)

(** The number of values that a parameter contributes to the grid: the size
    of its range when it is enabled, and [1] when it is not. *)
Definition range_size {A : Type} (le : A -> A -> bool) (plus : A -> A -> A)
  (fuel : nat) (p : OptimizerParameter.t A) : option nat :=
  if OptimizerParameter.enabled p
  then option_map (@length A)
         (range_values le plus fuel (OptimizerParameter.start p)
            (OptimizerParameter.end_ p) (OptimizerParameter.step p))
  else Some 1%nat.


(** The number of values of an entry of [paramsToOptimize]. *)
Definition sweep_size (p : Sweep) : nat :=
  match p with
  | SweepHtfSwingLookback values | SweepLtfChochLookback values => length values
  | SweepDiscountZone values | SweepRrRatio values => length values
  end.

(** The four keys that can be swept. *)
Inductive Key : Type := KeyHtfSwingLookback | KeyLtfChochLookback | KeyDiscountZone | KeyRrRatio.

Definition same_key (a b : Key) : bool :=
  match a, b with
  | KeyHtfSwingLookback, KeyHtfSwingLookback
  | KeyLtfChochLookback, KeyLtfChochLookback
  | KeyDiscountZone, KeyDiscountZone
  | KeyRrRatio, KeyRrRatio => true
  | _, _ => false
  end.

Definition sweep_key (p : Sweep) : Key :=
  match p with
  | SweepHtfSwingLookback _ => KeyHtfSwingLookback
  | SweepLtfChochLookback _ => KeyLtfChochLookback
  | SweepDiscountZone _ => KeyDiscountZone
  | SweepRrRatio _ => KeyRrRatio
  end.

(** [key in params]. *)
Definition has_key (key : Key) (params : Params.t) : bool :=
  match key with
  | KeyHtfSwingLookback => bool_decide (is_Some (Params.htfSwingLookback params))
  | KeyLtfChochLookback => bool_decide (is_Some (Params.ltfChochLookback params))
  | KeyDiscountZone => bool_decide (is_Some (Params.discountZone params))
  | KeyRrRatio => bool_decide (is_Some (Params.rrRatio params))
  end.

(** [optimizerSettings[key].enabled]. *)
Definition key_enabled (optimizerSettings : OptimizerSettings.t) (key : Key) : bool :=
  match key with
  | KeyHtfSwingLookback =>
      OptimizerParameter.enabled (OptimizerSettings.htfSwingLookback optimizerSettings)
  | KeyLtfChochLookback =>
      OptimizerParameter.enabled (OptimizerSettings.ltfChochLookback optimizerSettings)
  | KeyDiscountZone =>
      OptimizerParameter.enabled (OptimizerSettings.discountZone optimizerSettings)
  | KeyRrRatio =>
      OptimizerParameter.enabled (OptimizerSettings.rrRatio optimizerSettings)
  end.

(** ** Retrying a request: [retry] *)

(** One call of the retried function [fn]: its promise resolves, to a value
    or to [null] ([None]), or the call fails with an exception. *)
Inductive Attempt (T : Type) : Type :=
| Resolved (result : option T)
| Rejected.
Arguments Resolved {T} result.
Arguments Rejected {T}.

(** What [retry] does besides returning: the calls of [fn], numbered from
    [0], and the pauses.  Console output is not modelled. *)
Inductive Event : Type :=
| Call (i : nat)
| Wait (delay : num).

(** The loop [for (let i = 0; i < attempts; i++)] with [remaining]
    iterations to go; [fn i] is the outcome of the call made in iteration
    [i].  [attempts] is a whole number. *)
Fixpoint retry_loop {T : Type} (fn : nat -> Attempt T) (attempts : nat) (delay : num)
    (remaining : nat) : option T * list Event :=
  match remaining with
  | O => (None, [])
  | S remaining' =>
      let i := (attempts - remaining)%nat in
      match fn i with
      | Resolved (Some result) => (Some result, [Call i])
      | _ =>
          let pause := if (i <? attempts - 1)%nat then [Wait delay] else [] in
          let '(result, events) := retry_loop fn attempts delay remaining' in
          (result, Call i :: pause ++ events)
      end
  end.

Definition retry {T : Type} (fn : nat -> Attempt T) (attempts : nat) (delay : num)
  : option T * list Event :=
  retry_loop fn attempts delay attempts.

(** ** Sending an order: [sendOrderToCoinEx], [sendOrderToBinance] *)

(** [Math.max(a, b)]. *)
Definition Math_max (a b : num) : num :=
  match a, b with
  | NaN, _ | _, NaN => NaN
  | _, _ => if Num.ltb a b then b else a
  end.

(** The position size and the leverage that both order functions compute
    from the signal and the current equity, or [None] where they reject
    the signal for its risk. *)
Definition order_sizing (signal : TradeSignal.t) (settings : Settings.t)
    (currentEquity : num) : option (num * num) :=
  let amountToRisk :=
    Num.mul currentEquity (Num.div (Settings.orderSizePercent settings) Num.hundred) in
  let riskPerUnit :=
    Num.abs (Num.sub (TradeSignal.entryPrice signal) (TradeSignal.stopLoss signal)) in
  if Num.leb riskPerUnit Num.zero then None
  else
    let positionSizeInUnits := Num.div amountToRisk riskPerUnit in
    let positionValue := Num.mul positionSizeInUnits (TradeSignal.entryPrice signal) in
    let leverage := Math_max Num.one (Num.ceil (Num.div positionValue currentEquity)) in
    Some (positionSizeInUnits, leverage).

(** The two API keys of an exchange, which the source keeps in [Settings]. *)
Module ApiKeys.
Record t : Type := mk { accessId : string; secretKey : string }.
End ApiKeys.

Module OrderReply.
Record t : Type := mk { success : bool; description : option string }.
End OrderReply.

Definition is_empty (s : string) : bool :=
  match s with
  | EmptyString => true
  | _ => false
  end.

(** [sendOrderToBinance]: a placeholder in the source, which logs the order
    it would send. *)
Definition sendOrderToBinance (signal : TradeSignal.t) (settings : Settings.t)
    (keys : ApiKeys.t) (currentEquity : num) : OrderReply.t :=
  if is_empty (ApiKeys.accessId keys) || is_empty (ApiKeys.secretKey keys) then
    OrderReply.mk false (Some "Binance API keys are missing."%string)
  else
    match order_sizing signal settings currentEquity with
    | None =>
        OrderReply.mk false (Some "Invalid risk: SL and entry price are too close."%string)
    | Some _ =>
        OrderReply.mk true
          (Some "Placeholder function executed successfully. Check console for details."%string)
    end.

(** A call that does not end the loop: it resolved to [null] or failed. *)
Definition failed {T : Type} (a : Attempt T) : bool :=
  match a with
  | Resolved (Some _) => false
  | _ => true
  end.



(** ** The request signature: [md5] *)

(** The numbers of [md5] are integers, and its operators are the 32-bit
    operators of JavaScript: each takes its operands to 32-bit integers
    ([ToInt32], or [ToUint32] for the left operand of [>>>]) and returns a
    signed 32-bit integer ([>>>] an unsigned one).  A shift count is taken
    modulo 32. *)
Definition ToInt32 (x : Z) : Z := ((x + 2 ^ 31) mod 2 ^ 32 - 2 ^ 31)%Z.
Definition ToUint32 (x : Z) : Z := (x mod 2 ^ 32)%Z.

Definition band (x y : Z) : Z := Z.land (ToInt32 x) (ToInt32 y).
Definition bor (x y : Z) : Z := Z.lor (ToInt32 x) (ToInt32 y).
Definition bxor (x y : Z) : Z := Z.lxor (ToInt32 x) (ToInt32 y).
Definition bnot (x : Z) : Z := Z.lnot (ToInt32 x).
Definition shl (x s : Z) : Z := ToInt32 (Z.shiftl (ToInt32 x) (ToUint32 s mod 32)).
Definition shr (x s : Z) : Z := Z.shiftr (ToInt32 x) (ToUint32 s mod 32).
Definition shru (x s : Z) : Z := Z.shiftr (ToUint32 x) (ToUint32 s mod 32).

(** A number used as a condition: [0] is falsy. *)
Definition nonzero (x : Z) : bool := negb (x =? 0)%Z.

(** A string is the list of its UTF-16 code units.  [String.fromCharCode]
    keeps 16 bits of its argument. *)
Definition fromCharCode (c : Z) : Z := (c mod 2 ^ 16)%Z.

(** An array of numbers is a list of integers in which a hole is [0]: the
    source reads the elements of its word array as operands of [|] and [&]
    only, which take [undefined] to [0].  [array_set] is [a[i] = v], which
    extends the array when [i] is past its end. *)
Definition array_get (a : list Z) (i : nat) : Z := nth i a 0%Z.

Definition array_set (a : list Z) (i : nat) (v : Z) : list Z :=
  if (i <? length a)%nat then <[i := v]> a
  else a ++ replicate (i - length a) 0%Z ++ [v].

(** The text of a digest is made of ASCII characters. *)
Definition toString16 (n : Z) : string :=
  HexadecimalString.NilZero.string_of_int (Z.to_hex_int n).

Definition substr (s : string) (start len : nat) : string := String.substring start len s.

Definition lower (c : Ascii.ascii) : Ascii.ascii :=
  let n := Ascii.nat_of_ascii c in
  if (65 <=? n)%nat && (n <=? 90)%nat then Ascii.ascii_of_nat (n + 32) else c.

Fixpoint toLowerCase (s : string) : string :=
  match s with
  | EmptyString => EmptyString
  | String c rest => String (lower c) (toLowerCase rest)
  end.

Module MD5.

Definition rotateLeft (lValue iShiftBits : Z) : Z :=
  bor (shl lValue iShiftBits) (shru lValue (32 - iShiftBits)).

Definition addUnsigned (lX lY : Z) : Z :=
  let lX8 := band lX 0x80000000 in
  let lY8 := band lY 0x80000000 in
  let lX4 := band lX 0x40000000 in
  let lY4 := band lY 0x40000000 in
  let lResult := (band lX 0x3FFFFFFF + band lY 0x3FFFFFFF)%Z in
  if nonzero (band lX4 lY4) then bxor (bxor (bxor lResult 0x80000000) lX8) lY8
  else if nonzero (bor lX4 lY4) then
    if nonzero (band lResult 0x40000000) then bxor (bxor (bxor lResult 0xC0000000) lX8) lY8
    else bxor (bxor (bxor lResult 0x40000000) lX8) lY8
  else bxor (bxor lResult lX8) lY8.

Definition F (x y z : Z) : Z := bor (band x y) (band (bnot x) z).
Definition G (x y z : Z) : Z := bor (band x z) (band y (bnot z)).
Definition H (x y z : Z) : Z := bxor (bxor x y) z.
Definition I (x y z : Z) : Z := bxor y (bor x (bnot z)).

Definition FF (a b c d x s ac : Z) : Z :=
  let a := addUnsigned a (addUnsigned (addUnsigned (F b c d) x) ac) in
  addUnsigned (rotateLeft a s) b.

Definition GG (a b c d x s ac : Z) : Z :=
  let a := addUnsigned a (addUnsigned (addUnsigned (G b c d) x) ac) in
  addUnsigned (rotateLeft a s) b.

Definition HH (a b c d x s ac : Z) : Z :=
  let a := addUnsigned a (addUnsigned (addUnsigned (H b c d) x) ac) in
  addUnsigned (rotateLeft a s) b.

Definition II (a b c d x s ac : Z) : Z :=
  let a := addUnsigned a (addUnsigned (addUnsigned (I b c d) x) ac) in
  addUnsigned (rotateLeft a s) b.

(** One round of the loop [while (lByteCount < lMessageLength)]. *)
Definition put_byte (string : list Z) (lWordArray : list Z) (lByteCount : nat) : list Z :=
  let lWordCount := ((lByteCount - (lByteCount mod 4)) / 4)%nat in
  let lBytePosition := Z.of_nat ((lByteCount mod 4) * 8) in
  array_set lWordArray lWordCount
    (bor (array_get lWordArray lWordCount)
         (shl (array_get string lByteCount) lBytePosition)).

Definition convertToWordArray (string : list Z) : list Z :=
  let lMessageLength := length string in
  let lNumberOfWords_temp1 := (lMessageLength + 8)%nat in
  let lNumberOfWords_temp2 :=
    ((lNumberOfWords_temp1 - (lNumberOfWords_temp1 mod 64)) / 64)%nat in
  let lNumberOfWords := ((lNumberOfWords_temp2 + 1) * 16)%nat in
  let lWordArray := replicate (lNumberOfWords - 1) 0%Z in
  let lWordArray := foldl (put_byte string) lWordArray (seq 0 lMessageLength) in
  let lByteCount := lMessageLength in
  let lWordCount := ((lByteCount - (lByteCount mod 4)) / 4)%nat in
  let lBytePosition := Z.of_nat ((lByteCount mod 4) * 8) in
  let lWordArray :=
    array_set lWordArray lWordCount
      (bor (array_get lWordArray lWordCount) (shl 0x80 lBytePosition)) in
  let lWordArray :=
    array_set lWordArray (lNumberOfWords - 2) (shl (Z.of_nat lMessageLength) 3) in
  let lWordArray :=
    array_set lWordArray (lNumberOfWords - 1) (shru (Z.of_nat lMessageLength) 29) in
  lWordArray.

(** One round of the loop [for (lCount = 0; lCount <= 3; lCount++)]. *)
Definition put_hex (lValue : Z) (WordToHexValue : string) (lCount : Z) : string :=
  let lByte := band (shru lValue (lCount * 8)) 255 in
  let WordToHexValue_temp := ("0" ++ toString16 lByte)%string in
  (WordToHexValue
   ++ substr WordToHexValue_temp (String.length WordToHexValue_temp - 2) 2)%string.

Definition wordToHex (lValue : Z) : string :=
  foldl (put_hex lValue) EmptyString [0; 1; 2; 3]%Z.

(** [string.replace(/\r\n/g, "\n")]. *)
Fixpoint crlf_to_lf (string : list Z) : list Z :=
  match string with
  | [] => []
  | c :: rest =>
      match rest with
      | c' :: rest' =>
          if (c =? 13)%Z && (c' =? 10)%Z then 10%Z :: crlf_to_lf rest'
          else c :: crlf_to_lf rest
      | [] => [c]
      end
  end.

Definition encode_unit (c : Z) : list Z :=
  if (c <? 128)%Z then [fromCharCode c]
  else if (c >? 127)%Z && (c <? 2048)%Z then
    [fromCharCode (bor (shr c 6) 192); fromCharCode (bor (band c 63) 128)]
  else
    [fromCharCode (bor (shr c 12) 224);
     fromCharCode (bor (band (shr c 6) 63) 128);
     fromCharCode (bor (band c 63) 128)].

Definition utf8Encode (string : list Z) : list Z :=
  let string := crlf_to_lf string in
  flat_map encode_unit string.

Definition S11 : Z := 7.
Definition S12 : Z := 12.
Definition S13 : Z := 17.
Definition S14 : Z := 22.
Definition S21 : Z := 5.
Definition S22 : Z := 9.
Definition S23 : Z := 14.
Definition S24 : Z := 20.
Definition S31 : Z := 4.
Definition S32 : Z := 11.
Definition S33 : Z := 16.
Definition S34 : Z := 23.
Definition S41 : Z := 6.
Definition S42 : Z := 10.
Definition S43 : Z := 15.
Definition S44 : Z := 21.

(** The body of the loop [for (k = 0; k < x.length; k += 16)]. *)
Definition block (x : list Z) (state : Z * Z * Z * Z) (k : nat) : Z * Z * Z * Z :=
  let '(a, b, c, d) := state in
  let x_ := array_get x in
  let AA := a in
  let BB := b in
  let CC := c in
  let DD := d in
  let a := FF a b c d (x_ (k + 0)%nat) S11 0xD76AA478 in
  let d := FF d a b c (x_ (k + 1)%nat) S12 0xE8C7B756 in
  let c := FF c d a b (x_ (k + 2)%nat) S13 0x242070DB in
  let b := FF b c d a (x_ (k + 3)%nat) S14 0xC1BDCEEE in
  let a := FF a b c d (x_ (k + 4)%nat) S11 0xF57C0FAF in
  let d := FF d a b c (x_ (k + 5)%nat) S12 0x4787C62A in
  let c := FF c d a b (x_ (k + 6)%nat) S13 0xA8304613 in
  let b := FF b c d a (x_ (k + 7)%nat) S14 0xFD469501 in
  let a := FF a b c d (x_ (k + 8)%nat) S11 0x698098D8 in
  let d := FF d a b c (x_ (k + 9)%nat) S12 0x8B44F7AF in
  let c := FF c d a b (x_ (k + 10)%nat) S13 0xFFFF5BB1 in
  let b := FF b c d a (x_ (k + 11)%nat) S14 0x895CD7BE in
  let a := FF a b c d (x_ (k + 12)%nat) S11 0x6B901122 in
  let d := FF d a b c (x_ (k + 13)%nat) S12 0xFD987193 in
  let c := FF c d a b (x_ (k + 14)%nat) S13 0xA679438E in
  let b := FF b c d a (x_ (k + 15)%nat) S14 0x49B40821 in
  let a := GG a b c d (x_ (k + 1)%nat) S21 0xF61E2562 in
  let d := GG d a b c (x_ (k + 6)%nat) S22 0xC040B340 in
  let c := GG c d a b (x_ (k + 11)%nat) S23 0x265E5A51 in
  let b := GG b c d a (x_ (k + 0)%nat) S24 0xE9B6C7AA in
  let a := GG a b c d (x_ (k + 5)%nat) S21 0xD62F105D in
  let d := GG d a b c (x_ (k + 10)%nat) S22 0x2441453 in
  let c := GG c d a b (x_ (k + 15)%nat) S23 0xD8A1E681 in
  let b := GG b c d a (x_ (k + 4)%nat) S24 0xE7D3FBC8 in
  let a := GG a b c d (x_ (k + 9)%nat) S21 0x21E1CDE6 in
  let d := GG d a b c (x_ (k + 14)%nat) S22 0xC33707D6 in
  let c := GG c d a b (x_ (k + 3)%nat) S23 0xF4D50D87 in
  let b := GG b c d a (x_ (k + 8)%nat) S24 0x455A14ED in
  let a := GG a b c d (x_ (k + 13)%nat) S21 0xA9E3E905 in
  let d := GG d a b c (x_ (k + 2)%nat) S22 0xFCEFA3F8 in
  let c := GG c d a b (x_ (k + 7)%nat) S23 0x676F02D9 in
  let b := GG b c d a (x_ (k + 12)%nat) S24 0x8D2A4C8A in
  let a := HH a b c d (x_ (k + 5)%nat) S31 0xFFFA3942 in
  let d := HH d a b c (x_ (k + 8)%nat) S32 0x8771F681 in
  let c := HH c d a b (x_ (k + 11)%nat) S33 0x6D9D6122 in
  let b := HH b c d a (x_ (k + 14)%nat) S34 0xFDE5380C in
  let a := HH a b c d (x_ (k + 1)%nat) S31 0xA4BEEA44 in
  let d := HH d a b c (x_ (k + 4)%nat) S32 0x4BDECFA9 in
  let c := HH c d a b (x_ (k + 7)%nat) S33 0xF6BB4B60 in
  let b := HH b c d a (x_ (k + 10)%nat) S34 0xBEBFBC70 in
  let a := HH a b c d (x_ (k + 13)%nat) S31 0x289B7EC6 in
  let d := HH d a b c (x_ (k + 0)%nat) S32 0xEAA127FA in
  let c := HH c d a b (x_ (k + 3)%nat) S33 0xD4EF3085 in
  let b := HH b c d a (x_ (k + 6)%nat) S34 0x4881D05 in
  let a := HH a b c d (x_ (k + 9)%nat) S31 0xD9D4D039 in
  let d := HH d a b c (x_ (k + 12)%nat) S32 0xE6DB99E5 in
  let c := HH c d a b (x_ (k + 15)%nat) S33 0x1FA27CF8 in
  let b := HH b c d a (x_ (k + 2)%nat) S34 0xC4AC5665 in
  let a := II a b c d (x_ (k + 0)%nat) S41 0xF4292244 in
  let d := II d a b c (x_ (k + 7)%nat) S42 0x432AFF97 in
  let c := II c d a b (x_ (k + 14)%nat) S43 0xAB9423A7 in
  let b := II b c d a (x_ (k + 5)%nat) S44 0xFC93A039 in
  let a := II a b c d (x_ (k + 12)%nat) S41 0x655B59C3 in
  let d := II d a b c (x_ (k + 3)%nat) S42 0x8F0CCC92 in
  let c := II c d a b (x_ (k + 10)%nat) S43 0xFFEFF47D in
  let b := II b c d a (x_ (k + 1)%nat) S44 0x85845DD1 in
  let a := II a b c d (x_ (k + 8)%nat) S41 0x6FA87E4F in
  let d := II d a b c (x_ (k + 15)%nat) S42 0xFE2CE6E0 in
  let c := II c d a b (x_ (k + 6)%nat) S43 0xA3014314 in
  let b := II b c d a (x_ (k + 13)%nat) S44 0x4E0811A1 in
  let a := II a b c d (x_ (k + 4)%nat) S41 0xF7537E82 in
  let d := II d a b c (x_ (k + 11)%nat) S42 0xBD3AF235 in
  let c := II c d a b (x_ (k + 2)%nat) S43 0x2AD7D2BB in
  let b := II b c d a (x_ (k + 9)%nat) S44 0xEB86D391 in
  let a := addUnsigned a AA in
  let b := addUnsigned b BB in
  let c := addUnsigned c CC in
  let d := addUnsigned d DD in
  (a, b, c, d).

(** The values of [k] in that loop. *)
Definition block_starts (length : nat) : list nat :=
  map (fun i => (16 * i)%nat) (seq 0 ((length + 15) / 16)).

Definition md5 (string : list Z) : String.string :=
  let string := utf8Encode string in
  let x := convertToWordArray string in
  let '(a, b, c, d) :=
    foldl (block x) (0x67452301, 0xEFCDAB89, 0x98BADCFE, 0x10325476)%Z
      (block_starts (length x)) in
  let temp := (wordToHex a ++ wordToHex b ++ wordToHex c ++ wordToHex d)%string in
  toLowerCase temp.

End MD5.

(** The code units of a text in ASCII. *)
Definition code_units (s : string) : list Z :=
  map (fun c => Z.of_nat (Ascii.nat_of_ascii c)) (list_ascii_of_string s).

(** The characters of a digest. *)
Definition is_hex_digit (c : Ascii.ascii) : bool :=
  existsb (Ascii.eqb c) (list_ascii_of_string "0123456789abcdef").

(** A code unit, and a byte. *)
Definition is_code_unit (c : Z) : Prop := (0 <= c < 2 ^ 16)%Z.
Definition is_byte (c : Z) : Prop := (0 <= c < 2 ^ 8)%Z.

(** The two characters that one round of [wordToHex] appends for a byte. *)
Definition hex_pair (lByte : Z) : list Ascii.ascii :=
  let temp := ("0" ++ toString16 lByte)%string in
  list_ascii_of_string (substr temp (String.length temp - 2) 2).

Definition hex_pair_ok (lByte : Z) : bool :=
  match hex_pair lByte with
  | [c1; c2] => is_hex_digit c1 && is_hex_digit c2
  | _ => false
  end.

(** The integers from [start] up, [n] of them. *)
Fixpoint count_up (n : nat) (start : Z) : list Z :=
  match n with
  | O => []
  | S n' => start :: count_up n' (start + 1)%Z
  end.

(** The word that holds bytes [4w .. 4w+3] of a text, lowest byte first;
    a byte past the end of the text counts as [0]. *)
Definition le_word (bytes : list Z) (w : nat) : Z :=
  (nth (4 * w) bytes 0 + nth (4 * w + 1) bytes 0 * 2 ^ 8
   + nth (4 * w + 2) bytes 0 * 2 ^ 16 + nth (4 * w + 3) bytes 0 * 2 ^ 24)%Z.

(** ** More concrete inputs *)

(** A second long entry like [long_signal], announced at time 125, and a
    candle after it that fills the entry without reaching its stop or its
    target. *)
Definition second_signal : TradeSignal.t :=
  TradeSignal.mk 125 (Fin 100) (Fin 95) (Fin 110) Bullish.

Definition late_candle : Candle.t := candle 130 100 101 99 100.

(** A candle from 105 to 120: it reaches the target of [long_signal] and
    stays above its stop. *)
Definition winning_candle : Candle.t := candle 120 110 120 105 110.

(** A grid in which no parameter is swept. *)
Definition idle_grid : OptimizerSettings.t :=
  OptimizerSettings.mk
    (OptimizerParameter.mk false Num.one Num.one Num.one)
    (OptimizerParameter.mk false Num.one Num.one Num.one)
    (OptimizerParameter.mk false Num.zero Num.zero Num.one)
    (OptimizerParameter.mk false Num.zero Num.zero Num.one)
    MetricNetProfitPercent.

(** A request that fails with an exception, then resolves to [null], and
    resolves to [7] from its third call on. *)
Definition flaky (i : nat) : Attempt nat :=
  match i with
  | 0%nat => Rejected
  | 1%nat => Resolved None
  | _ => Resolved (Some 7%nat)
  end.

Definition demo_keys : ApiKeys.t := ApiKeys.mk "id" "secret".

(** ** Order facts on numbers *)

Lemma Qle_bool_false x y : Qle_bool x y = false -> Qle_bool y x = true.
Proof.
  intros H. apply Qle_bool_iff. destruct (Qlt_le_dec y x) as [Hlt | Hle].
  - by apply Qlt_le_weak.
  - apply Qle_bool_iff in Hle. congruence.
Qed.

Lemma Num_ltb_false a b :
  Num.is_nan a = false -> Num.is_nan b = false ->
  Num.ltb a b = false -> Num.leb b a = true.
Proof.
  destruct a as [x| | |], b as [y| | |]; simpl; try done.
  intros _ _ H. by apply negb_false_iff in H.
Qed.

Lemma Num_leb_false a b :
  Num.is_nan a = false -> Num.is_nan b = false ->
  Num.leb a b = false -> Num.ltb b a = true.
Proof.
  destruct a as [x| | |], b as [y| | |]; simpl; try done.
  intros _ _ ->. done.
Qed.

Lemma Num_ltb_true a b : Num.ltb a b = true -> Num.leb a b = true.
Proof.
  destruct a as [x| | |], b as [y| | |]; simpl; try done.
  intros H. apply negb_true_iff in H. by apply Qle_bool_false.
Qed.

Lemma Num_leb_trans a b c :
  Num.leb a b = true -> Num.leb b c = true -> Num.leb a c = true.
Proof.
  destruct a as [x| | |], b as [y| | |], c as [z| | |]; simpl; try done.
  rewrite !Qle_bool_iff. apply Qle_trans.
Qed.

Lemma Num_positive_sub a b :
  Num.is_nan a = false -> Num.is_nan b = false ->
  positive (Num.sub a b) = Num.ltb b a.
Proof.
  destruct a as [x| | |], b as [y| | |]; simpl; try done.
  intros _ _. unfold positive, Num.gtb, Num.zero, Num.ltb. f_equal.
  rewrite (Qleb_comp _ _ (Qred_correct (x - y)) 0%Q 0%Q (Qeq_refl 0%Q)).
  destruct (Qle_bool x y) eqn:Hxy.
  - apply Qle_bool_iff. apply Qle_bool_iff in Hxy.
    apply (Qplus_le_l _ _ y). ring_simplify. done.
  - apply not_true_is_false. intros H. apply Qle_bool_iff in H.
    apply (Qplus_le_l _ _ y) in H. ring_simplify in H.
    apply Qle_bool_iff in H. congruence.
Qed.


(** ** The model on concrete inputs *)

Example plateau_swings :
  findSwingPoints plateau Num.one
  = Ok ([SwingPoint.mk 1 (Fin 5) SwingHigh], [SwingPoint.mk 1 (Fin 1) SwingLow]).
Proof. reflexivity. Qed.

Example market_analysis :
  analyzeSMC market (plain_settings (Fin 1))
  = Ok (SMCAnalysisResult.mk
          [TradeSignal.mk 34 (Fin (71 # 10)) (Fin 6) (Fin (93 # 10)) Bullish]
          [DrawBOS (BOS.mk 30 (Fin 10));
           DrawPOI (POI.mk 22 37 (Fin (15 # 2)) (Fin (11 # 2)) Bullish);
           DrawCHoCH (CHoCH.mk 35 (Fin (37 # 5)))]).
Proof. vm_compute. reflexivity. Qed.

(** An entry at 100 with its stop at 95 and a ratio of 2: the candle that
    reaches 111 closes the trade as a win of twice the amount at risk. *)
Example target_reached :
  map (fun t => (ExecutedTrade.outcome t, ExecutedTrade.exitPrice t, ExecutedTrade.pnl t))
    (BacktestResults.trades
       (runBacktest (plain_settings (Fin 1))
          [entry_candle; candle 60 100 111 99 110] [long_signal] None))
  = [(Win, Some (Fin 110), Fin 100)].
Proof. vm_compute. reflexivity. Qed.

Example stop_before_target :
  map (fun t => (ExecutedTrade.outcome t, ExecutedTrade.exitPrice t, ExecutedTrade.pnl t))
    (BacktestResults.trades
       (runBacktest (plain_settings (Fin 1))
          [entry_candle; both_candle] [long_signal] None))
  = [(Loss, Some (Fin 95), Fin (-50))].
Proof. vm_compute. reflexivity. Qed.
(** ** Lookups and loops *)

Lemma at_index_Ok {A} (data : list A) i c : at_index data i = Ok c <-> data !! i = Some c.
Proof. unfold at_index. destruct (data !! i); split; congruence. Qed.

Lemma bind_Ok {A B} (r : result A) (f : A -> result B) b :
  bind r f = Ok b -> exists a, r = Ok a /\ f a = Ok b.
Proof. destruct r; simpl; [eauto | discriminate]. Qed.

Lemma or_else_false a b : or_else a b = Ok false -> a = Ok false /\ b = Ok false.
Proof.
  unfold or_else. intros H. apply bind_Ok in H as (x & -> & H).
  destruct x; [discriminate | auto].
Qed.

Lemma for_each_ind {A B} (P : list A -> B -> Prop) (body : A -> B -> result B) xs s r :
  P [] s ->
  (forall pre x post s s', xs = pre ++ x :: post -> P pre s -> body x s = Ok s' -> P (pre ++ [x]) s') ->
  for_each xs body s = Ok r -> P xs r.
Proof.
  intros H0 Hstep.
  assert (G : forall post pre s, xs = pre ++ post -> P pre s -> for_each post body s = Ok r -> P xs r).
  { induction post as [|x post IH]; intros pre s0 Hxs Hp Hr.
    - simpl in Hr. rewrite app_nil_r in Hxs. congruence.
    - simpl in Hr. apply bind_Ok in Hr as (s' & Hb & Hr).
      apply (IH (pre ++ [x]) s'); [ by rewrite <- app_assoc | eapply Hstep; eauto | done ]. }
  intros. by apply (G xs [] s).
Qed.

Lemma for_each_total {A B} (body : A -> B -> result B) xs :
  (forall x, x ∈ xs -> forall acc, exists s', body x acc = Ok s') ->
  forall s, exists r, for_each xs body s = Ok r.
Proof.
  induction xs as [|x xs IH]; intros Hb s; simpl; [eauto|].
  destruct (Hb x (list_elem_of_here x xs) s) as [s' ->]. simpl.
  apply IH. intros y Hy. apply Hb. by right.
Qed.

(** ** Natural numbers as loop bounds and array offsets *)

Lemma Qred_inject z : Qred (inject_Z z) = inject_Z z.
Proof.
  unfold Qred, inject_Z.
  pose proof (Z.ggcd_gcd z 1) as Hg. pose proof (Z.ggcd_correct_divisors z 1) as Hd.
  destruct (Z.ggcd z 1) as [g [aa bb]]. simpl in *.
  rewrite Z.gcd_1_r in Hg. destruct Hd as [Ha Hb].
  assert (Haa : aa = z) by lia. assert (Hbb : bb = 1%Z) by lia.
  rewrite Haa, Hbb. reflexivity.
Qed.

Lemma of_nat_add a b : Num.add (Num.of_nat a) (Num.of_nat b) = Num.of_nat (a + b).
Proof.
  unfold Num.add, Num.of_nat, Num.of_Z. f_equal.
  rewrite <- (Qred_inject (Z.of_nat (a + b))). apply Qred_complete.
  rewrite Nat2Z.inj_add, inject_Z_plus. reflexivity.
Qed.

Lemma of_nat_sub a b : (b <= a)%nat -> Num.sub (Num.of_nat a) (Num.of_nat b) = Num.of_nat (a - b).
Proof.
  intros H. unfold Num.sub, Num.of_nat, Num.of_Z. f_equal.
  rewrite <- (Qred_inject (Z.of_nat (a - b))). apply Qred_complete.
  rewrite Nat2Z.inj_sub by done. unfold Z.sub. rewrite inject_Z_plus, inject_Z_opp. reflexivity.
Qed.

Lemma of_nat_mul a b : Num.mul (Num.of_nat a) (Num.of_nat b) = Num.of_nat (a * b).
Proof.
  unfold Num.mul, Num.of_nat, Num.of_Z. f_equal.
  rewrite <- (Qred_inject (Z.of_nat (a * b))). apply Qred_complete.
  rewrite Nat2Z.inj_mul, inject_Z_mult. reflexivity.
Qed.

Lemma of_nat_ltb a b : Num.ltb (Num.of_nat a) (Num.of_nat b) = (a <? b)%nat.
Proof.
  unfold Num.ltb, Num.of_nat, Num.of_Z.
  destruct (Nat.ltb_spec a b) as [Hlt | Hge].
  - apply negb_true_iff. apply not_true_is_false. intros H. apply Qle_bool_iff in H.
    rewrite <- Zle_Qle in H. lia.
  - apply negb_false_iff. apply Qle_bool_iff. rewrite <- Zle_Qle. lia.
Qed.

Lemma of_nat_leb a b : Num.leb (Num.of_nat a) (Num.of_nat b) = (a <=? b)%nat.
Proof.
  unfold Num.leb, Num.of_nat, Num.of_Z.
  destruct (Nat.leb_spec a b) as [Hle | Hgt].
  - apply Qle_bool_iff. rewrite <- Zle_Qle. lia.
  - apply not_true_is_false. intros H. apply Qle_bool_iff in H. rewrite <- Zle_Qle in H. lia.
Qed.

Lemma as_index_of_nat n : as_index (Num.of_nat n) = Some n.
Proof.
  unfold as_index, Num.of_nat, Num.of_Z. cbn zeta. rewrite Qred_inject. simpl.
  destruct (Z.leb_spec 0 (Z.of_nat n)); [|lia]. simpl. by rewrite Nat2Z.id.
Qed.

Lemma at_num_of_nat {A} (data : list A) n : at_num data (Num.of_nat n) = at_index data n.
Proof. unfold at_num. by rewrite as_index_of_nat. Qed.

Lemma for_each_map {A A' B} (f : A -> A') (body : A' -> B -> result B) xs s :
  for_each (map f xs) body s = for_each xs (fun x => body (f x)) s.
Proof.
  revert s. induction xs as [|x xs IH]; intros s; [done|]. simpl.
  destruct (body (f x) s); simpl; [apply IH|done].
Qed.

Lemma for_each_ext {A B} (body body' : A -> B -> result B) xs s :
  (forall x s, x ∈ xs -> body x s = body' x s) ->
  for_each xs body s = for_each xs body' s.
Proof.
  revert s. induction xs as [|x xs IH]; intros s H; [done|]. simpl.
  rewrite H by left. destruct (body' x s); simpl; [|done].
  apply IH. intros y t Hy. apply H. by right.
Qed.

Lemma too_short_of_nat data n :
  too_short data (Num.of_nat n) = (length data <? n * 2 + 1)%nat.
Proof.
  unfold too_short. change Num.two with (Num.of_nat 2). change Num.one with (Num.of_nat 1).
  by rewrite of_nat_mul, of_nat_add, of_nat_ltb.
Qed.

Lemma map_of_nat_seq a n :
  map (fun k => Num.add (Num.of_nat a) (Num.of_nat k)) (seq 0 n) = map Num.of_nat (seq a n).
Proof.
  revert a. induction n as [|n IH]; intros a; [done|].
  rewrite !seq_S, !map_app, IH. cbn [map]. by rewrite of_nat_add.
Qed.

Lemma rounds_inner n : rounds true Num.one (Num.of_nat n) = map Num.of_nat (seq 1 n).
Proof.
  unfold rounds. change Num.one with (Num.of_nat 1). rewrite of_nat_leb.
  destruct (Nat.leb_spec 1 n) as [Hle | Hlt].
  - rewrite of_nat_sub by done.
    change (Num.of_nat (n - 1)) with (Fin (inject_Z (Z.of_nat (n - 1)))). cbv iota beta zeta.
    rewrite Qfloor_Z. replace (Z.to_nat (Z.of_nat (n - 1) + 1)) with n by lia.
    apply map_of_nat_seq.
  - by replace n with 0%nat by lia.
Qed.

Lemma rounds_outer len n :
  (n * 2 + 1 <= len)%nat ->
  rounds false (Num.of_nat n) (Num.sub (Num.of_nat len) (Num.of_nat n))
  = map Num.of_nat (seq n (len - n - n)).
Proof.
  intros H. unfold rounds. rewrite of_nat_sub by lia. rewrite of_nat_ltb.
  destruct (Nat.ltb_spec n (len - n)) as [_ | Hge]; [|lia].
  rewrite of_nat_sub by lia.
  change (Num.of_nat (len - n - n)) with (Fin (inject_Z (Z.of_nat (len - n - n)))).
  cbv iota beta zeta. rewrite Qceiling_Z, Nat2Z.id. apply map_of_nat_seq.
Qed.

Lemma swing_round_of_nat data i j flags :
  (j <= i)%nat ->
  swing_round data (Num.of_nat i) (Num.of_nat j) flags = swing_round_nat data i j flags.
Proof.
  intros H. unfold swing_round, swing_round_nat.
  by rewrite of_nat_sub, of_nat_add, !at_num_of_nat.
Qed.

Lemma swing_at_of_nat data n i acc :
  (n <= i)%nat ->
  swing_at data (Num.of_nat n) (Num.of_nat i) acc = swing_at_nat data n i acc.
Proof.
  intros H. unfold swing_at, swing_at_nat. destruct acc as [highs lows].
  rewrite rounds_inner, for_each_map, at_num_of_nat.
  rewrite (for_each_ext _ (swing_round_nat data i)); [done|].
  intros j flags Hj. apply elem_of_seq in Hj. apply swing_round_of_nat. lia.
Qed.

Lemma findSwingPoints_of_nat data n :
  findSwingPoints data (Num.of_nat n) = findSwingPoints_nat data n.
Proof.
  unfold findSwingPoints, findSwingPoints_nat. rewrite too_short_of_nat.
  destruct (Nat.ltb_spec (length data) (n * 2 + 1)) as [_ | Hge]; [done|].
  rewrite rounds_outer, for_each_map by done.
  apply for_each_ext. intros i acc Hi. apply elem_of_seq in Hi. apply swing_at_of_nat. lia.
Qed.

(** With an infinite lookback the loops are never cut short: the guard
    returns for [Infinity], and for [-Infinity] the first round raises. *)
Lemma findSwingPoints_infinite data :
  findSwingPoints data PInf = Ok ([], []) /\ findSwingPoints data NInf = Throw TypeError.
Proof. split; reflexivity. Qed.

(** ** The swing detector *)

Lemma lookup_pair_Ok {A} (data : list A) i k (f : A -> A -> bool) v :
  (ci <- at_index data i; cl <- at_index data k; Ok (f ci cl)) = Ok v ->
  exists ci cl, data !! i = Some ci /\ data !! k = Some cl /\ v = f ci cl.
Proof.
  intros H. apply bind_Ok in H as (ci & Hi & H). apply bind_Ok in H as (cl & Hk & H).
  apply at_index_Ok in Hi, Hk. exists ci, cl. repeat split; congruence.
Qed.

Lemma swing_round_spec data i j isHigh isLow h' l' :
  swing_round_nat data i j (isHigh, isLow) = Ok (h', l') ->
  (h' = true -> isHigh = true /\ round_ok Candle.high not_lt not_le data i j) /\
  (l' = true -> isLow = true /\ round_ok Candle.low not_gt not_ge data i j).
Proof.
  unfold swing_round_nat. intros H.
  apply bind_Ok in H as (notHigh & HH & H). apply bind_Ok in H as (notLow & HL & H).
  injection H as <- <-. split.
  - destruct notHigh; [discriminate|]. intros ->. split; [done|].
    apply or_else_false in HH as [Ha Hb].
    apply lookup_pair_Ok in Ha as (ci & cl & Hi & Hl & Hv).
    apply lookup_pair_Ok in Hb as (ci' & cr & Hi' & Hr & Hv').
    assert (ci' = ci) by congruence. subst ci'.
    exists ci, cl, cr. unfold not_lt, not_le. rewrite <- Hv, <- Hv'. done.
  - destruct notLow; [discriminate|]. intros ->. split; [done|].
    apply or_else_false in HL as [Ha Hb].
    apply lookup_pair_Ok in Ha as (ci & cl & Hi & Hl & Hv).
    apply lookup_pair_Ok in Hb as (ci' & cr & Hi' & Hr & Hv').
    assert (ci' = ci) by congruence. subst ci'.
    exists ci, cl, cr. unfold not_gt, not_ge. rewrite <- Hv, <- Hv'. done.
Qed.

Lemma swing_rounds_spec data i js h l :
  for_each js (swing_round_nat data i) (true, true) = Ok (h, l) ->
  (h = true -> forall j, j ∈ js -> round_ok Candle.high not_lt not_le data i j) /\
  (l = true -> forall j, j ∈ js -> round_ok Candle.low not_gt not_ge data i j).
Proof.
  intros H.
  apply (for_each_ind
           (fun pre s =>
              (s.1 = true -> forall j, j ∈ pre -> round_ok Candle.high not_lt not_le data i j) /\
              (s.2 = true -> forall j, j ∈ pre -> round_ok Candle.low not_gt not_ge data i j)))
    in H; [exact H | |].
  - split; intros _ j Hj; by apply elem_of_nil in Hj.
  - intros pre x post [a b] [a' b'] _ [IHh IHl] Hb. simpl in *.
    apply swing_round_spec in Hb as [Hh Hl]. split.
    + intros ->. destruct Hh as [-> Hx]; [done|]. intros j Hj.
      apply elem_of_app in Hj as [Hj | Hj]; [by apply IHh|].
      apply list_elem_of_singleton in Hj as ->. done.
    + intros ->. destruct Hl as [-> Hx]; [done|]. intros j Hj.
      apply elem_of_app in Hj as [Hj | Hj]; [by apply IHl|].
      apply list_elem_of_singleton in Hj as ->. done.
Qed.

Lemma flagged_of_rounds field kind left right data lookback i c :
  (lookback <= i)%nat -> (i + lookback < length data)%nat ->
  data !! i = Some c ->
  (forall j, j ∈ seq 1 lookback -> round_ok field left right data i j) ->
  flagged field kind left right data lookback
    (SwingPoint.mk (Candle.time c) (field c) kind).
Proof.
  intros Hlo Hhi Hc Hr. exists i, c. do 4 (split; [done|]).
  intros j Hj. destruct (Hr j) as (ci & cl & cr & Hi & Hl & Hrr & H1 & H2).
  { apply elem_of_seq. lia. }
  assert (ci = c) by congruence. subst ci. exists cl, cr. done.
Qed.

Lemma swing_at_spec data lookback i highs lows highs' lows' :
  (lookback <= i)%nat -> (i + lookback < length data)%nat ->
  swing_at_nat data lookback i (highs, lows) = Ok (highs', lows') ->
  (forall sp, sp ∈ highs' -> sp ∈ highs \/
     flagged Candle.high SwingHigh not_lt not_le data lookback sp) /\
  (forall sp, sp ∈ lows' -> sp ∈ lows \/
     flagged Candle.low SwingLow not_gt not_ge data lookback sp).
Proof.
  intros Hlo Hhi H. unfold swing_at_nat in H.
  apply bind_Ok in H as ([h l] & Hf & H).
  apply swing_rounds_spec in Hf as [Hh Hl].
  apply bind_Ok in H as (hs & Hhs & H). apply bind_Ok in H as (ls & Hls & H).
  injection H as <- <-. split.
  - destruct h.
    + apply bind_Ok in Hhs as (c & Hc & Hhs). apply bind_Ok in Hhs as (c' & Hc' & Hhs).
      apply at_index_Ok in Hc, Hc'. assert (c' = c) by congruence. subst c'.
      injection Hhs as <-. intros sp Hsp.
      apply elem_of_app in Hsp as [Hsp | Hsp]; [by left|]. right.
      apply list_elem_of_singleton in Hsp as ->.
      apply (flagged_of_rounds _ _ _ _ _ _ i); auto.
    + injection Hhs as <-. auto.
  - destruct l.
    + apply bind_Ok in Hls as (c & Hc & Hls). apply bind_Ok in Hls as (c' & Hc' & Hls).
      apply at_index_Ok in Hc, Hc'. assert (c' = c) by congruence. subst c'.
      injection Hls as <-. intros sp Hsp.
      apply elem_of_app in Hsp as [Hsp | Hsp]; [by left|]. right.
      apply list_elem_of_singleton in Hsp as ->.
      apply (flagged_of_rounds _ _ _ _ _ _ i); auto.
    + injection Hls as <-. auto.
Qed.

Lemma swing_loop_flagged data lookback indices highs lows :
  (forall i, i ∈ indices -> (lookback <= i)%nat /\ (i + lookback < length data)%nat) ->
  for_each indices (swing_at_nat data lookback) ([], []) = Ok (highs, lows) ->
  (forall sp, sp ∈ highs ->
     flagged Candle.high SwingHigh not_lt not_le data lookback sp) /\
  (forall sp, sp ∈ lows ->
     flagged Candle.low SwingLow not_gt not_ge data lookback sp).
Proof.
  intros Hrange H.
  apply (for_each_ind
           (fun _ s =>
              (forall sp, sp ∈ s.1 ->
                 flagged Candle.high SwingHigh not_lt not_le data lookback sp) /\
              (forall sp, sp ∈ s.2 ->
                 flagged Candle.low SwingLow not_gt not_ge data lookback sp)))
    in H; [exact H | |].
  - split; intros sp Hsp; by apply elem_of_nil in Hsp.
  - intros pre i post [hs ls] [hs' ls'] Hseq [IHh IHl] Hb. simpl in *.
    destruct (Hrange i) as [Hlo Hhi].
    { rewrite Hseq. apply elem_of_app. right. left. }
    apply swing_at_spec in Hb as [Hh Hl]; [|done..].
    split; intros sp Hsp.
    + destruct (Hh sp Hsp); auto.
    + destruct (Hl sp Hsp); auto.
Qed.

Lemma swing_indices_in_range (data : list Candle.t) lookback i :
  i ∈ seq lookback (length data - lookback - lookback) ->
  (lookback <= i)%nat /\ (i + lookback < length data)%nat.
Proof. intros Hi. apply elem_of_seq in Hi. lia. Qed.

(** C1, as the detector decides it.  A point flagged as a swing high comes
    from a candle with [lookback] candles on both sides whose high is not
    below the high of any of the [lookback] candles before it and not below
    or equal to the high of any of the [lookback] candles after it; a point
    flagged as a swing low, from one whose low is not above any of the lows
    before it and not above or equal to any of the lows after it. *)
Theorem swings_flagged data lookback highs lows :
  findSwingPoints data (Num.of_nat lookback) = Ok (highs, lows) ->
  (forall sp, sp ∈ highs ->
     flagged Candle.high SwingHigh not_lt not_le data lookback sp) /\
  (forall sp, sp ∈ lows ->
     flagged Candle.low SwingLow not_gt not_ge data lookback sp).
Proof.
  rewrite findSwingPoints_of_nat.
  unfold findSwingPoints_nat. destruct (length data <? lookback * 2 + 1)%nat eqn:Hg.
  - intros H. injection H as <- <-. split; intros sp Hsp; by apply elem_of_nil in Hsp.
  - apply swing_loop_flagged. intros i. apply swing_indices_in_range.
Qed.

Lemma swings_flagged_witness :
  flagged Candle.high SwingHigh not_lt not_le plateau 1 (SwingPoint.mk 1 (Fin 5) SwingHigh).
Proof.
  destruct (swings_flagged plateau 1 _ _ eq_refl) as [Hh _]. apply Hh. left.
Defined.

(** C1 fails as stated.  The second candle of [plateau] is flagged as a swing
    high although its high equals that of the candle before it. *)
Lemma strict_swings_fails :
  ~ strict_swings plateau 1.
Proof.
  intros H. destruct (H _ _ eq_refl) as [Hh _].
  destruct (Hh (SwingPoint.mk 1 (Fin 5) SwingHigh)) as (i & c & Hlo & Hhi & Hc & Hsp & Hn).
  { left. }
  simpl in Hhi. assert (i = 1%nat) by lia. subst i.
  destruct (Hn 1%nat) as (cl & cr & Hl & _ & Hgt & _); [lia|].
  simpl in Hc, Hl. injection Hc as <-. injection Hl as <-. discriminate Hgt.
Qed.

Lemma flagged_impl field kind (left right left' right' : num -> num -> bool)
  data lookback sp :
  (forall c c', c ∈ data -> c' ∈ data -> left (field c) (field c') = true ->
     left' (field c) (field c') = true) ->
  (forall c c', c ∈ data -> c' ∈ data -> right (field c) (field c') = true ->
     right' (field c) (field c') = true) ->
  flagged field kind left right data lookback sp ->
  flagged field kind left' right' data lookback sp.
Proof.
  intros Hl Hr (i & c & Hlo & Hhi & Hc & Hsp & Hn).
  exists i, c. do 4 (split; [done|]). intros j Hj.
  destruct (Hn j Hj) as (cl & cr & Hcl & Hcr & H1 & H2).
  exists cl, cr. do 2 (split; [done|]).
  split; [apply Hl | apply Hr]; try done; by eapply list_elem_of_lookup_2.
Qed.

(** Where no high or low is [NaN], "not below" is "greater or equal" and
    "not below or equal" is "greater". *)
Lemma swings_flagged_finite data lookback highs lows :
  Forall (fun c => Num.is_nan (Candle.high c) = false /\
                   Num.is_nan (Candle.low c) = false) data ->
  findSwingPoints data (Num.of_nat lookback) = Ok (highs, lows) ->
  (forall sp, sp ∈ highs ->
     flagged Candle.high SwingHigh Num.geb Num.gtb data lookback sp) /\
  (forall sp, sp ∈ lows ->
     flagged Candle.low SwingLow Num.leb Num.ltb data lookback sp).
Proof.
  rewrite findSwingPoints_of_nat.
  intros Hfin H.
  assert (Hraw : (forall sp, sp ∈ highs ->
                    flagged Candle.high SwingHigh not_lt not_le data lookback sp) /\
                 (forall sp, sp ∈ lows ->
                    flagged Candle.low SwingLow not_gt not_ge data lookback sp)).
  { revert H. unfold findSwingPoints_nat.
    destruct (length data <? lookback * 2 + 1)%nat.
    - intros [= <- <-]. split; intros sp Hsp; by apply elem_of_nil in Hsp.
    - apply swing_loop_flagged. intros i. apply swing_indices_in_range. }
  destruct Hraw as [Hh Hl].
  rewrite Forall_forall in Hfin.
  split; intros sp Hsp; [apply Hh in Hsp | apply Hl in Hsp];
    revert Hsp; apply flagged_impl; intros c c' Hc Hc';
    destruct (Hfin c Hc) as [Hch Hcl]; destruct (Hfin c' Hc') as [Hch' Hcl'];
    unfold not_lt, not_le, not_gt, not_ge, Num.geb, Num.gtb; intros Hn;
    apply negb_true_iff in Hn.
  - by apply Num_ltb_false.
  - by apply Num_leb_false.
  - by apply Num_ltb_false.
  - by apply Num_leb_false.
Qed.

Lemma findSwingPoints_total data lookback :
  exists r, findSwingPoints_nat data lookback = Ok r.
Proof.
  unfold findSwingPoints_nat. destruct (length data <? lookback * 2 + 1)%nat; [eauto|].
  apply for_each_total. intros i Hi [hs ls]. apply elem_of_seq in Hi.
  unfold swing_at_nat.
  destruct (lookup_lt_is_Some_2 data i) as [c Hc]; [lia|].
  destruct (for_each_total (swing_round_nat data i) (seq 1 lookback)) with (s := (true, true))
    as [[h l] ->].
  { intros j Hj [a b]. apply elem_of_seq in Hj.
    destruct (lookup_lt_is_Some_2 data (i - j)) as [cl Hl]; [lia|].
    destruct (lookup_lt_is_Some_2 data (i + j)) as [cr Hr]; [lia|].
    unfold swing_round_nat, or_else, at_index. rewrite Hc, Hl, Hr. simpl.
    repeat (match goal with |- context [if ?b then _ else _] => destruct b end; simpl); eauto. }
  simpl. unfold at_index. rewrite Hc. destruct h, l; simpl; eauto.
Qed.
(** ** The invariant of the backtest loop *)

Lemma exit_of_cases t candle :
  (hitSL t candle = true /\
   exit_of t candle = (Some Loss, Some (ExecutedTrade.slPrice t))) \/
  (hitSL t candle = false /\ hitTP t candle = true /\
   exit_of t candle = (Some Win, Some (ExecutedTrade.tpPrice t))) \/
  (hitSL t candle = false /\ hitTP t candle = false /\
   exit_of t candle = (None, None)).
Proof.
  unfold exit_of. destruct (hitSL t candle), (hitTP t candle); auto.
Qed.

Lemma sum_pnl_snoc start l t :
  sum_pnl start (l ++ [t]) = Num.add (sum_pnl start l) (ExecutedTrade.pnl t).
Proof. unfold sum_pnl. by rewrite foldl_app. Qed.

Lemma try_open_Open settings equity candle signal t :
  try_open settings equity candle signal = Some t ->
  ExecutedTrade.outcome t = Open /\
  ExecutedTrade.entryTime t = Some (Candle.time candle) /\
  ExecutedTrade.exitTime t = None /\
  ExecutedTrade.exitPrice t = None.
Proof.
  unfold try_open. intros H.
  repeat match type of H with
         | (if ?b then _ else _) = _ => destruct b; [try discriminate H | try discriminate H]
         end.
  all: injection H as <-; done.
Qed.

Lemma scan_signals_Open settings equity candle signals i k t :
  scan_signals settings equity candle signals i = Some (k, t) ->
  ExecutedTrade.outcome t = Open /\
  ExecutedTrade.entryTime t = Some (Candle.time candle) /\
  ExecutedTrade.exitTime t = None /\
  ExecutedTrade.exitPrice t = None.
Proof.
  revert i. induction signals as [|s rest IH]; intros i H; simpl in H; [discriminate|].
  destruct (try_open settings equity candle s) eqn:Ht.
  - injection H as _ <-. by eapply try_open_Open.
  - by eapply IH.
Qed.

Lemma backtest_inv_init settings tradeSignals startingEquity :
  backtest_inv (initialCapitalForRun settings startingEquity)
    (init settings tradeSignals startingEquity).
Proof. exists []. simpl. auto. Qed.

Lemma check_close_inv settings c0 candle st :
  backtest_inv c0 st -> backtest_inv c0 (check_close settings candle st).
Proof.
  intros (closed & Hall & Heq & Hact). unfold check_close.
  destruct (Backtest.activeTrade st) as [k|] eqn:Hk; [|exists closed; by rewrite Hk].
  destruct Hact as (-> & t & Hex & Hopen).
  assert (Hl : Backtest.executedTrades st !! length closed = Some t).
  { rewrite Hex. by rewrite lookup_app_r, Nat.sub_diag by lia. }
  rewrite Hl.
  assert (Hsame : backtest_inv c0 st).
  { exists closed. rewrite Hk. eauto 10. }
  destruct (exit_of_cases t candle) as [(_ & ->) | [(_ & _ & ->) | (_ & _ & ->)]];
    [| |done].
  - destruct (Num.truthy _); [|done].
    exists (closed ++ [ExecutedTrade.mk (ExecutedTrade.signalTime t) (ExecutedTrade.entryTime t)
      (Some (Candle.time candle)) (ExecutedTrade.entryPrice t) (Some (ExecutedTrade.slPrice t))
      Loss (net_pnl settings t Loss)
      (Num.add (Backtest.equity st) (net_pnl settings t Loss)) (ExecutedTrade.type t)
      (ExecutedTrade.slPrice t) (ExecutedTrade.tpPrice t)
      (Num.mul (Num.div (net_pnl settings t Loss) (ExecutedTrade.equity t)) Num.hundred)
      (ExecutedTrade.leverage t)]).
    simpl. split; [|split].
    + apply Forall_app. split; [done|]. by constructor.
    + rewrite sum_pnl_snoc. simpl. by rewrite Heq.
    + rewrite Hex. rewrite insert_app_r_alt, Nat.sub_diag by lia. done.
  - destruct (Num.truthy _); [|done].
    exists (closed ++ [ExecutedTrade.mk (ExecutedTrade.signalTime t) (ExecutedTrade.entryTime t)
      (Some (Candle.time candle)) (ExecutedTrade.entryPrice t) (Some (ExecutedTrade.tpPrice t))
      Win (net_pnl settings t Win)
      (Num.add (Backtest.equity st) (net_pnl settings t Win)) (ExecutedTrade.type t)
      (ExecutedTrade.slPrice t) (ExecutedTrade.tpPrice t)
      (Num.mul (Num.div (net_pnl settings t Win) (ExecutedTrade.equity t)) Num.hundred)
      (ExecutedTrade.leverage t)]).
    simpl. split; [|split].
    + apply Forall_app. split; [done|]. by constructor.
    + rewrite sum_pnl_snoc. simpl. by rewrite Heq.
    + rewrite Hex. rewrite insert_app_r_alt, Nat.sub_diag by lia. done.
Qed.

Lemma check_open_inv settings c0 candle st :
  backtest_inv c0 st -> backtest_inv c0 (check_open settings candle st).
Proof.
  intros Hinv. unfold check_open.
  destruct (Backtest.activeTrade st) as [k|] eqn:Hk; [done|].
  destruct (scan_signals _ _ _ _ _) as [[i t]|] eqn:Hs; [|done].
  destruct Hinv as (closed & Hall & Heq & Hact). rewrite Hk in Hact.
  exists closed. simpl. split; [done|]. split; [done|]. split; [by rewrite Hact|].
  exists t. rewrite Hact. split; [done|]. by eapply scan_signals_Open.
Qed.

Lemma step_inv settings c0 candle st :
  backtest_inv c0 st -> backtest_inv c0 (step settings st candle).
Proof. intros. by apply check_open_inv, check_close_inv. Qed.

Lemma simulate_inv settings ltfData tradeSignals startingEquity :
  backtest_inv (initialCapitalForRun settings startingEquity)
    (simulate settings ltfData tradeSignals startingEquity).
Proof.
  unfold simulate.
  generalize (backtest_inv_init settings tradeSignals startingEquity).
  generalize (init settings tradeSignals startingEquity).
  induction ltfData as [|c l IH]; intros st Hst; simpl; [done|].
  apply IH. by apply step_inv.
Qed.

(** ** The backtest simulator *)

Lemma filter_closed_all (l : list ExecutedTrade.t) :
  Forall (fun t => is_closed t = true) l -> closedTrades l = l.
Proof.
  unfold closedTrades. induction 1 as [|t l Ht _ IH]; [done|].
  rewrite filter_cons_True by done. by rewrite IH.
Qed.

Lemma open_count_closed (l : list ExecutedTrade.t) :
  Forall (fun t => is_closed t = true) l -> open_count l = 0%nat.
Proof.
  unfold open_count. induction 1 as [|t l Ht _ IH]; [done|].
  rewrite filter_cons_False; [done|].
  unfold is_closed in Ht. unfold has_outcome. destruct (ExecutedTrade.outcome t); done.
Qed.

Lemma open_trade_facts (t : ExecutedTrade.t) :
  ExecutedTrade.outcome t = Open -> is_closed t = false /\ has_outcome Open t = true.
Proof. unfold is_closed, has_outcome. by intros ->. Qed.

Lemma backtest_inv_closed c0 st :
  backtest_inv c0 st ->
  Backtest.equity st = sum_pnl c0 (closedTrades (Backtest.executedTrades st)).
Proof.
  intros (closed & Hall & Heq & Hact). rewrite Heq. f_equal.
  destruct (Backtest.activeTrade st).
  - destruct Hact as (_ & t & -> & Hopen). apply open_trade_facts in Hopen as [Hc _].
    unfold closedTrades. rewrite filter_app, filter_cons_False, filter_nil by congruence.
    rewrite app_nil_r. symmetry. by apply filter_closed_all.
  - rewrite Hact. symmetry. by apply filter_closed_all.
Qed.

Lemma backtest_inv_open_count c0 st :
  backtest_inv c0 st ->
  open_count (Backtest.executedTrades st) =
    match Backtest.activeTrade st with Some _ => 1%nat | None => 0%nat end.
Proof.
  intros (closed & Hall & Heq & Hact). destruct (Backtest.activeTrade st).
  - destruct Hact as (_ & t & -> & Hopen). apply open_trade_facts in Hopen as [_ Ho].
    unfold open_count. rewrite filter_app, length_app.
    fold (open_count closed). rewrite open_count_closed by done.
    by rewrite filter_cons_True.
  - rewrite Hact. by apply open_count_closed.
Qed.

Lemma check_open_cases settings candle st :
  check_open settings candle st = st \/
  Backtest.activeTrade st = None /\
  exists i t,
    scan_signals settings (Backtest.equity st) candle (Backtest.pendingSignals st) 0
      = Some (i, t) /\
    Backtest.executedTrades (check_open settings candle st)
      = Backtest.executedTrades st ++ [t] /\
    Backtest.activeTrade (check_open settings candle st)
      = Some (length (Backtest.executedTrades st)).
Proof.
  unfold check_open. destruct (Backtest.activeTrade st); [by left|].
  destruct (scan_signals _ _ _ _ _) as [[i t]|]; [|by left].
  right. split; [done|]. by exists i, t.
Qed.

Lemma check_close_length settings candle st :
  length (Backtest.executedTrades (check_close settings candle st))
  = length (Backtest.executedTrades st).
Proof.
  unfold check_close. destruct (Backtest.activeTrade st); [|done].
  destruct (_ !! _); [|done]. destruct (exit_of _ _) as [[o|] [p|]]; try done.
  destruct (Num.truthy p); [|done]. simpl. by rewrite length_insert.
Qed.

(** C3. At every candle step of the simulator, before the step, between its
    exit check and its entry check, and after it, at most one executed
    trade is open; and the entry check adds a trade only when none is. *)
Theorem single_active_trade settings ltfData tradeSignals startingEquity n candle :
  let st := simulate settings (take n ltfData) tradeSignals startingEquity in
  let mid := check_close settings candle st in
  let st' := check_open settings candle mid in
  (open_count (Backtest.executedTrades st) <= 1)%nat /\
  (open_count (Backtest.executedTrades mid) <= 1)%nat /\
  (open_count (Backtest.executedTrades st') <= 1)%nat /\
  (Backtest.executedTrades st' = Backtest.executedTrades mid \/
   open_count (Backtest.executedTrades mid) = 0%nat /\
   exists t, Backtest.executedTrades st' = Backtest.executedTrades mid ++ [t]).
Proof.
  intros st mid st'.
  pose proof (simulate_inv settings (take n ltfData) tradeSignals startingEquity) as Hst.
  fold st in Hst.
  pose proof (check_close_inv settings _ candle _ Hst) as Hmid. fold mid in Hmid.
  pose proof (check_open_inv settings _ candle _ Hmid) as Hst'. fold st' in Hst'.
  apply backtest_inv_open_count in Hst, Hst'.
  pose proof (backtest_inv_open_count _ _ Hmid) as Hm.
  repeat split.
  - rewrite Hst. destruct (Backtest.activeTrade st); lia.
  - rewrite Hm. destruct (Backtest.activeTrade mid); lia.
  - rewrite Hst'. destruct (Backtest.activeTrade st'); lia.
  - destruct (check_open_cases settings candle mid) as [He | (Hnone & i & t & _ & He & _)].
    + left. unfold st'. by rewrite He.
    + right. rewrite Hm, Hnone. split; [done|]. by exists t.
Qed.

(** C4. The final equity of a run is the capital it started from with the
    profit recorded on each closed trade of the returned list added to it,
    one trade after the other in the order of the list: exactly the sum that
    [reduce] computes from the capital over the stored profits. *)
Theorem equity_conservation settings ltfData tradeSignals startingEquity :
  let r := runBacktest settings ltfData tradeSignals startingEquity in
  let initialCapital := initialCapitalForRun settings startingEquity in
  BacktestResults.finalEquity r
  = sum_pnl initialCapital (closedTrades (BacktestResults.trades r)).
Proof.
  pose proof (simulate_inv settings ltfData tradeSignals startingEquity) as Hinv.
  apply backtest_inv_closed in Hinv.
  unfold runBacktest, aggregate. destruct (_ =? 0)%nat; simpl; exact Hinv.
Qed.

(** C6. A run that closes no trade returns the zeroed result, with the
    capital it started from as final equity, whatever trades are open. *)
Theorem zero_closed_trades settings ltfData tradeSignals startingEquity :
  closedTrades
    (BacktestResults.trades (runBacktest settings ltfData tradeSignals startingEquity)) = [] ->
  runBacktest settings ltfData tradeSignals startingEquity
  = BacktestResults.mk
      (BacktestResults.trades (runBacktest settings ltfData tradeSignals startingEquity))
      Num.zero Num.zero Num.zero Num.zero Num.zero
      (initialCapitalForRun settings startingEquity) 0.
Proof.
  pose proof (simulate_inv settings ltfData tradeSignals startingEquity) as He.
  apply backtest_inv_closed in He. revert He.
  unfold runBacktest, aggregate.
  set (st := simulate settings ltfData tradeSignals startingEquity).
  fold (closedTrades (Backtest.executedTrades st)).
  destruct (length (closedTrades (Backtest.executedTrades st)) =? 0)%nat eqn:Hn; simpl.
  - intros He Hz. rewrite Hz in He. simpl in He. by rewrite He.
  - intros _ Hz. rewrite Hz in Hn. done.
Qed.

Lemma zero_closed_trades_witness :
  let r := runBacktest (plain_settings (Fin 1)) [entry_candle] [long_signal] None in
  length (BacktestResults.trades r) = 1%nat /\
  r = BacktestResults.mk (BacktestResults.trades r) Num.zero Num.zero Num.zero
        Num.zero Num.zero (Fin 1000) 0.
Proof.
  split; [reflexivity|].
  apply (zero_closed_trades (plain_settings (Fin 1)) [entry_candle] [long_signal] None).
  reflexivity.
Defined.

(** C10. A trade that a candle step adds to the executed trades is open when
    the step ends, carries the candle's time as entry time and no exit, and
    is the active trade that the next step's exit check tests. *)
Theorem no_exit_on_entry_candle settings st candle k t :
  Backtest.executedTrades (step settings st candle) !! k = Some t ->
  (length (Backtest.executedTrades st) <= k)%nat ->
  ExecutedTrade.outcome t = Open /\
  ExecutedTrade.entryTime t = Some (Candle.time candle) /\
  ExecutedTrade.exitTime t = None /\
  ExecutedTrade.exitPrice t = None /\
  Backtest.activeTrade (step settings st candle) = Some k.
Proof.
  unfold step. intros Hk Hlen.
  rewrite <- (check_close_length settings candle st) in Hlen.
  destruct (check_open_cases settings candle (check_close settings candle st))
    as [He | (_ & i & t' & Hs & He & Ha)].
  - rewrite He in Hk. apply lookup_lt_Some in Hk. lia.
  - rewrite He in Hk. rewrite Ha.
    assert (k = length (Backtest.executedTrades (check_close settings candle st))).
    { apply lookup_lt_Some in Hk. rewrite length_app in Hk. simpl in Hk. lia. }
    subst k. rewrite lookup_app_r, Nat.sub_diag in Hk by lia. injection Hk as ->.
    apply scan_signals_Open in Hs as (? & ? & ? & ?). done.
Qed.

Lemma no_exit_on_entry_candle_witness :
  exists t,
    Backtest.executedTrades
      (step (plain_settings (Fin 1))
         (init (plain_settings (Fin 1)) [long_signal] None) both_candle) !! 0%nat = Some t /\
    hitSL t both_candle = true /\ hitTP t both_candle = true /\
    ExecutedTrade.outcome t = Open.
Proof.
  eexists. split; [reflexivity|]. split; [reflexivity|]. split; [reflexivity|].
  eapply (no_exit_on_entry_candle (plain_settings (Fin 1))
            (init (plain_settings (Fin 1)) [long_signal] None) both_candle 0).
  - reflexivity.
  - simpl. lia.
Defined.

(** ** Exits and leverage *)

(** With a stop-loss price other than [0], a candle that reaches the stop
    closes the active trade as a loss at that price, whether or not it also
    reaches the target. *)
Lemma stop_loss_first settings st candle k t :
  Backtest.activeTrade st = Some k ->
  Backtest.executedTrades st !! k = Some t ->
  hitSL t candle = true ->
  Num.truthy (ExecutedTrade.slPrice t) = true ->
  exists t',
    Backtest.executedTrades (check_close settings candle st) !! k = Some t' /\
    ExecutedTrade.outcome t' = Loss /\
    ExecutedTrade.exitPrice t' = Some (ExecutedTrade.slPrice t) /\
    ExecutedTrade.exitTime t' = Some (Candle.time candle).
Proof.
  intros Hk Ht Hsl Htruthy. unfold check_close. rewrite Hk, Ht.
  unfold exit_of. rewrite Hsl, Htruthy. simpl.
  eexists. split; [apply list_lookup_insert_eq; by eapply lookup_lt_Some|]. done.
Qed.

(** A trade only closes as a win on a candle that does not reach its stop. *)
Lemma win_without_stop settings st candle k t t' :
  Backtest.activeTrade st = Some k ->
  Backtest.executedTrades st !! k = Some t ->
  ExecutedTrade.outcome t = Open ->
  Backtest.executedTrades (check_close settings candle st) !! k = Some t' ->
  ExecutedTrade.outcome t' = Win ->
  hitSL t candle = false /\ hitTP t candle = true.
Proof.
  intros Hk Ht Hopen. unfold check_close. rewrite Hk, Ht.
  pose proof (lookup_lt_Some _ _ _ Ht) as Hlt.
  destruct (exit_of_cases t candle) as [(_ & ->) | [(Hs & Hp & ->) | (_ & _ & ->)]].
  - destruct (Num.truthy _); simpl.
    + rewrite list_lookup_insert_eq by done. intros [= <-]. done.
    + rewrite Ht. intros [= <-]. congruence.
  - done.
  - rewrite Ht. intros [= <-]. congruence.
Qed.

(** C2, at a stop-loss price of [0].  The candle reaches both the stop and
    the target of the active trade, and the exit check leaves the trade
    open; on a later candle that only reaches the target it closes as a
    win. *)
Theorem stop_at_zero_stays_open :
  exists t,
    Backtest.executedTrades
      (simulate (plain_settings (Fin 1)) [entry_candle] [zero_stop_signal] None) = [t] /\
    hitSL t wide_candle = true /\ hitTP t wide_candle = true /\
    map ExecutedTrade.outcome
      (BacktestResults.trades
         (runBacktest (plain_settings (Fin 1)) [entry_candle; wide_candle]
            [zero_stop_signal] None)) = [Open] /\
    map ExecutedTrade.outcome
      (BacktestResults.trades
         (runBacktest (plain_settings (Fin 1)) [entry_candle; wide_candle; target_candle]
            [zero_stop_signal] None)) = [Win].
Proof. eexists. repeat split; vm_compute; reflexivity. Qed.

(** The leverage of an opened trade is the ceiling of the position value
    over the equity at entry. *)
Lemma leverage_is_ceiling settings equity candle signal t :
  try_open settings equity candle signal = Some t ->
  ExecutedTrade.equity t = equity /\
  ExecutedTrade.leverage t
  = Num.ceil
      (Num.div
         (Num.mul
            (Num.div (Num.mul equity (Num.div (Settings.orderSizePercent settings) Num.hundred))
               (Num.abs (Num.sub (TradeSignal.entryPrice signal) (TradeSignal.stopLoss signal))))
            (TradeSignal.entryPrice signal))
         equity).
Proof.
  unfold try_open. intros H.
  repeat match type of H with
         | (if ?b then _ else _) = _ => destruct b; [try discriminate H | try discriminate H]
         end.
  all: injection H as <-; done.
Qed.

(** The ceiling of a positive ratio is at least [1]. *)
Lemma ceil_positive q : (0 < q)%Q -> Num.geb (Num.ceil (Fin q)) Num.one = true.
Proof.
  intros Hq. unfold Num.geb, Num.ceil, Num.of_Z, Num.one, Num.leb.
  apply Qle_bool_iff.
  assert (0 < Qceiling q)%Z.
  { apply Z.lt_nge. intros Hle.
    pose proof (Qle_ceiling q) as Hc.
    assert (inject_Z (Qceiling q) <= 0)%Q.
    { change 0%Q with (inject_Z 0). by rewrite <- Zle_Qle. }
    apply (Qlt_irrefl 0). eapply Qlt_le_trans; [exact Hq|]. eapply Qle_trans; eauto. }
  change 1%Q with (inject_Z 1). rewrite <- Zle_Qle. lia.
Qed.

(** C5, at an order size of [0] percent.  The trade is opened with the
    ceiling of a ratio of [0] as its leverage, which is below [1]. *)
Theorem leverage_zero_order_size :
  map ExecutedTrade.leverage
    (BacktestResults.trades
       (runBacktest (plain_settings (Fin 0)) [entry_candle] [long_signal] None))
  = [Fin 0] /\
  Num.geb (Fin 0) Num.one = false.
Proof. split; vm_compute; reflexivity. Qed.

(** ** The analysis *)

Lemma fvg_skips_total mtf bullish obCandle :
  exists b, fvg_skips mtf bullish obCandle = Ok b.
Proof.
  unfold fvg_skips. destruct (findIndex _ mtf) as [k|]; [|eauto].
  destruct (length mtf <=? k + 2)%nat eqn:Hk; [eauto|].
  apply Nat.leb_gt in Hk.
  destruct (lookup_lt_is_Some_2 mtf (k + 2)) as [c Hc]; [lia|].
  unfold at_index. rewrite Hc. simpl. eauto.
Qed.

Lemma poi_candidate_total settings mtf bullish level endTime obCandle pois :
  exists r, poi_candidate settings mtf bullish level endTime obCandle pois = Ok r.
Proof.
  unfold poi_candidate. destruct (if bullish then _ else _); [|eauto].
  destruct (Settings.useFvgFilter settings).
  - destruct (fvg_skips_total mtf bullish obCandle) as [b ->]. simpl. destruct b; eauto.
  - simpl. eauto.
Qed.

Lemma bullish_leg_total settings mtf lows pair acc :
  exists r, bullish_leg settings mtf lows pair acc = Ok r.
Proof.
  unfold bullish_leg. destruct pair as [prevHigh currentHigh], acc as [ds ps].
  destruct (Num.gtb _ _); [|eauto].
  destruct (head _) as [imp|]; [|eauto].
  destruct (_ && _); [eauto|].
  match goal with
  | |- context [for_each ?xs ?body ?s0] =>
      destruct (for_each_total body xs) with (s := s0) as [r ->]
  end.
  { intros. apply poi_candidate_total. }
  simpl. eauto.
Qed.

Lemma bearish_leg_total settings mtf highs pair acc :
  exists r, bearish_leg settings mtf highs pair acc = Ok r.
Proof.
  unfold bearish_leg. destruct pair as [prevLow currentLow], acc as [ds ps].
  destruct (Num.ltb _ _); [|eauto].
  destruct (head _) as [imp|]; [|eauto].
  destruct (_ && _); [eauto|].
  match goal with
  | |- context [for_each ?xs ?body ?s0] =>
      destruct (for_each_total body xs) with (s := s0) as [r ->]
  end.
  { intros. apply poi_candidate_total. }
  simpl. eauto.
Qed.

Lemma track_total settings candle st l :
  Settings.ltfChochLookback settings = Num.of_nat l ->
  exists r, track settings candle st = Ok r.
Proof.
  intros Hl. unfold track. rewrite Hl. destruct (Tracker.monitoredPoi st) as [poi|].
  - destruct (isInvalidated _ _); [eauto|].
    destruct (too_short _ _); [eauto|].
    rewrite findSwingPoints_of_nat.
    destruct (findSwingPoints_total (Tracker.ltfDataForChoch st ++ [candle]) l)
      as [[hs ls] ->].
    simpl. destruct (POI.direction poi).
    + destruct (pop hs); [|eauto]. destruct (Num.gtb _ _); eauto.
    + destruct (pop ls); [|eauto]. destruct (Num.ltb _ _); eauto.
  - destruct (findIndex _ _); eauto.
Qed.

(** The analysis never raises when both lookbacks are natural numbers. *)
Lemma analyzeSMC_total chartData settings h l :
  Settings.htfSwingLookback settings = Num.of_nat h ->
  Settings.ltfChochLookback settings = Num.of_nat l ->
  exists r, analyzeSMC chartData settings = Ok r.
Proof.
  intros Hh Hl. unfold analyzeSMC.
  destruct (_ || _) eqn:Hguard; [eauto|].
  apply orb_false_iff in Hguard as [_ Hltf]. apply Nat.ltb_ge in Hltf.
  rewrite Hh, findSwingPoints_of_nat.
  destruct (findSwingPoints_total (ChartData.htf chartData) h) as [[hs ls] ->]. simpl.
  match goal with
  | |- context [for_each ?xs (bullish_leg ?a ?b ?c) ?s0] =>
      destruct (for_each_total (bullish_leg a b c) xs) with (s := s0) as [r1 ->]
  end.
  { intros. apply bullish_leg_total. }
  simpl.
  match goal with
  | |- context [for_each ?xs (bearish_leg ?a ?b ?c) ?s0] =>
      destruct (for_each_total (bearish_leg a b c) xs) with (s := s0) as [[ds ps] ->]
  end.
  { intros. apply bearish_leg_total. }
  simpl.
  match goal with
  | |- context [for_each ?xs ?body ds] =>
      destruct (for_each_total body xs) with (s := ds) as [ds' ->]
  end.
  { intros p _ acc.
    destruct (lookup_lt_is_Some_2 (ChartData.ltf chartData)
                (length (ChartData.ltf chartData) - 1)) as [c Hc]; [lia|].
    unfold at_index. rewrite Hc. simpl. eauto. }
  simpl.
  match goal with
  | |- context [for_each ?xs (track ?a) ?s0] =>
      destruct (for_each_total (track a) xs) with (s := s0) as [final ->]
  end.
  { intros. by apply (track_total _ _ _ l). }
  simpl. eauto.
Qed.

(** C7. On a series shorter than [2 * lookback + 1] the swing detector
    returns two empty lists, and when the high-timeframe series is shorter
    than that or one of the other two has fewer than ten candles the
    analysis returns no signals and no drawings; neither raises. *)
Theorem insufficient_data_empty data lookback chartData settings :
  Num.ltb (Num.of_nat (length data))
    (Num.add (Num.mul lookback Num.two) Num.one) = true ->
  (Num.ltb (Num.of_nat (length (ChartData.htf chartData)))
     (Num.add (Num.mul (Settings.htfSwingLookback settings) Num.two) Num.one) = true \/
   (length (ChartData.mtf chartData) < 10)%nat \/
   (length (ChartData.ltf chartData) < 10)%nat) ->
  findSwingPoints data lookback = Ok ([], []) /\
  analyzeSMC chartData settings = Ok (SMCAnalysisResult.mk [] []).
Proof.
  intros Hd Hc. split.
  - unfold findSwingPoints, too_short. by rewrite Hd.
  - unfold analyzeSMC, too_short.
    destruct (_ || _) eqn:Hg; [done|].
    apply orb_false_iff in Hg as [Hg Hltf]. apply orb_false_iff in Hg as [Hhtf Hmtf].
    apply Nat.ltb_ge in Hmtf, Hltf. destruct Hc as [Hc | Hc]; [congruence | lia].
Qed.

Lemma insufficient_data_empty_witness :
  findSwingPoints [entry_candle; both_candle] Num.one = Ok ([], []) /\
  findSwingPoints [entry_candle; both_candle] (Fin (3 # 2)) = Ok ([], []) /\
  analyzeSMC (ChartData.mk plateau plateau plateau) (plain_settings (Fin 1))
  = Ok (SMCAnalysisResult.mk [] []).
Proof.
  split.
  - apply (insufficient_data_empty [entry_candle; both_candle] Num.one
             (ChartData.mk plateau plateau plateau) (plain_settings (Fin 1))).
    + reflexivity.
    + right. left. simpl. lia.
  - apply (insufficient_data_empty [entry_candle; both_candle] (Fin (3 # 2))
             (ChartData.mk plateau plateau plateau) (plain_settings (Fin 1))).
    + reflexivity.
    + right. left. simpl. lia.
Defined.

(** ** The sort *)

Lemma sort_insert_perm {A} (after : A -> A -> bool) x l :
  Permutation (sort_insert after x l) (x :: l).
Proof.
  induction l as [|y l IH]; simpl; [done|].
  destruct (after x y); [|done].
  rewrite IH. apply perm_swap.
Qed.

Lemma js_sort_perm {A} (after : A -> A -> bool) l : Permutation (js_sort after l) l.
Proof.
  induction l as [|x l IH]; simpl; [done|].
  fold (js_sort after l). rewrite sort_insert_perm. by constructor.
Qed.

Section SortSorted.

Context {A : Type} (after : A -> A -> bool) (R : A -> A -> Prop) (D : A -> Prop).
Hypothesis not_after : forall a b, D a -> D b -> after a b = false -> R a b.
Hypothesis is_after : forall a b, D a -> D b -> after a b = true -> R b a.
Hypothesis R_trans : forall a b c, D a -> D b -> D c -> R a b -> R b c -> R a c.

Lemma sort_insert_sorted x l :
  D x -> Forall D l -> StronglySorted R l -> StronglySorted R (sort_insert after x l).
Proof.
  intros Dx. induction l as [|y l IH]; intros Dl Hs; simpl.
  - constructor; [constructor | constructor].
  - apply Forall_cons in Dl as [Dy Dl]. apply StronglySorted_inv in Hs as [Hs Hy].
    destruct (after x y) eqn:Hxy.
    + constructor; [by apply IH|].
      rewrite (sort_insert_perm after x l). constructor; [|done].
      by apply is_after.
    + constructor; [by constructor|].
      assert (Rxy : R x y) by by apply not_after.
      constructor; [done|].
      rewrite Forall_forall in Hy, Dl |- *. intros z Hz.
      apply (R_trans x y z); [done | done | by apply Dl | done | by apply Hy].
Qed.

Lemma js_sort_sorted l : Forall D l -> StronglySorted R (js_sort after l).
Proof.
  induction l as [|x l IH]; intros Dl; simpl; [constructor|].
  apply Forall_cons in Dl as [Dx Dl]. fold (js_sort after l).
  apply sort_insert_sorted; [done | | by apply IH].
  by rewrite js_sort_perm.
Qed.

End SortSorted.

(** ** The optimizer *)

Lemma override_spread baseSettings params :
  spread_of baseSettings params (override baseSettings params).
Proof. unfold spread_of, override. simpl. repeat split. Qed.

Lemma run_one_Ok chartData baseSettings i params row :
  run_one chartData baseSettings i params = Ok row ->
  row_of chartData baseSettings i params row.
Proof.
  unfold run_one, row_of. intros H. apply bind_Ok in H as (analysis & Ha & H).
  injection H as <-. simpl. split; [done|]. split; [done|].
  exists (override baseSettings params), analysis.
  split; [apply override_spread|]. split; done.
Qed.

Lemma run_one_Throw chartData baseSettings i params e :
  run_one chartData baseSettings i params = Throw e ->
  run_raises chartData baseSettings params e.
Proof.
  unfold run_one, run_raises. intros H. exists (override baseSettings params).
  split; [apply override_spread|].
  destruct (analyzeSMC chartData (override baseSettings params)); [done|].
  simpl in H. congruence.
Qed.

(** The loop over the combinations: it starts the runs in order and stops
    at the first that raises. *)
Lemma run_all_cases chartData baseSettings combinations :
  forall i runs started outcome,
    run_all chartData baseSettings i combinations runs = (started, outcome) ->
    Forall2 (spread_of baseSettings) (take (length started) combinations) started /\
    match outcome with
    | Ok all =>
        length started = length combinations /\
        exists rows,
          all = runs ++ rows /\
          map OptimizationResultRow.id rows = seq i (length combinations) /\
          forall row, row ∈ rows ->
            (i <= OptimizationResultRow.id row)%nat /\
            exists params,
              combinations !! (OptimizationResultRow.id row - i)%nat = Some params /\
              row_of chartData baseSettings (OptimizationResultRow.id row) params row
    | Throw e =>
        exists k params,
          length started = S k /\ combinations !! k = Some params /\
          run_raises chartData baseSettings params e /\
          forall j p, (j < k)%nat -> combinations !! j = Some p ->
            exists row, row_of chartData baseSettings (i + j) p row
    end.
Proof.
  induction combinations as [|params rest IH]; intros i runs started outcome; simpl.
  - intros [= <- <-]. simpl. split; [constructor|]. split; [done|].
    exists []. rewrite app_nil_r. split; [done|]. split; [done|].
    intros row Hrow. by apply elem_of_nil in Hrow.
  - destruct (run_one chartData baseSettings i params) as [row|e] eqn:Hone.
    + destruct (run_all chartData baseSettings (S i) rest (runs ++ [row]))
        as [started' outcome'] eqn:Hrest.
      intros [= <- <-]. apply IH in Hrest as [Hstarted Hout]. simpl.
      split; [constructor; [apply override_spread|done]|].
      apply run_one_Ok in Hone. destruct outcome' as [all|e].
      * destruct Hout as (Hlen & rows & -> & Hids & Hrows).
        split; [by rewrite Hlen|]. exists (row :: rows). rewrite <- app_assoc.
        split; [done|]. destruct Hone as (Hid & Hp & Hrun).
        split; [simpl; by rewrite Hid, Hids|].
        intros r Hr. apply elem_of_cons in Hr as [-> | Hr].
        -- split; [lia|]. exists params. rewrite Hid, Nat.sub_diag. simpl.
           split; [done|]. split; [done|]. split; [done|]. done.
        -- destruct (Hrows r Hr) as (Hle & p & Hl & Hrow). split; [lia|]. exists p.
           replace (OptimizationResultRow.id r - i)%nat
             with (S (OptimizationResultRow.id r - S i)) by lia.
           simpl. split; done.
      * destruct Hout as (k & p & Hlen & Hk & Hraise & Hbefore).
        exists (S k), p. split; [by rewrite Hlen|]. split; [done|]. split; [done|].
        intros [|j] q Hj Hq; simpl in Hq.
        -- injection Hq as <-. exists row. by rewrite Nat.add_0_r.
        -- replace (i + S j)%nat with (S i + j)%nat by lia. apply (Hbefore j q); [lia|done].
    + intros [= <- <-]. simpl. split; [constructor; [apply override_spread|constructor]|].
      exists 0%nat, params. split; [done|]. split; [done|].
      split; [by apply (run_one_Throw _ _ i)|]. intros j p Hj. lia.
Qed.

(** C8, as the loop runs.  When the grid that was expanded has more than
    500 combinations the optimizer raises the error that carries their
    number and starts no run.  Otherwise it starts one run per combination,
    in order, each on the base settings with the swept keys replaced, and
    stops at the first run whose analysis raises, passing the error on; when
    none raises it returns one row per combination, holding that
    combination and the backtest of the signals of its analysis. *)
Theorem combination_guard fuel chartData baseSettings optimizerSettings combinations :
  generateCombinations fuel optimizerSettings = Some combinations ->
  ((500 < length combinations)%nat ->
   runOptimizer fuel chartData baseSettings optimizerSettings
   = Some ([], Throw (too_many (length combinations)))) /\
  ((length combinations <= 500)%nat ->
   exists started outcome,
     runOptimizer fuel chartData baseSettings optimizerSettings = Some (started, outcome) /\
     Forall2 (spread_of baseSettings) (take (length started) combinations) started /\
     match outcome with
     | Ok res =>
         length started = length combinations /\
         Permutation (map OptimizationResultRow.id (OptimizationResults.runs res))
           (seq 0 (length combinations)) /\
         forall row, row ∈ OptimizationResults.runs res ->
           exists params,
             combinations !! OptimizationResultRow.id row = Some params /\
             row_of chartData baseSettings (OptimizationResultRow.id row) params row
     | Throw e =>
         exists k params,
           length started = S k /\ combinations !! k = Some params /\
           run_raises chartData baseSettings params e /\
           forall j p, (j < k)%nat -> combinations !! j = Some p ->
             exists row, row_of chartData baseSettings j p row
     end).
Proof.
  intros Hgen. unfold runOptimizer. rewrite Hgen. simpl. unfold optimize. split.
  - intros Hlen. apply Nat.ltb_lt in Hlen. by rewrite Hlen.
  - intros Hlen. apply Nat.ltb_ge in Hlen. rewrite Hlen.
    destruct (run_all chartData baseSettings 0 combinations []) as [started outcome] eqn:Hall.
    apply run_all_cases in Hall as [Hstarted Hout].
    eexists _, _. split; [reflexivity|]. split; [done|].
    destruct outcome as [all|e]; simpl; [|done].
    destruct Hout as (Hlen' & rows & -> & Hids & Hrows). simpl.
    assert (Hrow : forall row, row ∈ rows ->
              exists params,
                combinations !! OptimizationResultRow.id row = Some params /\
                row_of chartData baseSettings (OptimizationResultRow.id row) params row).
    { intros row Hin. destruct (Hrows row Hin) as (_ & p & Hl & Hr).
      rewrite Nat.sub_0_r in Hl. by exists p. }
    destruct rows as [|row rows'] eqn:Hr.
    + simpl. split; [done|]. split; [by rewrite <- Hids | done].
    + rewrite <- Hr in *. simpl. split; [done|]. split.
      * rewrite <- Hids. apply Permutation_map, js_sort_perm.
      * intros r Hin. apply Hrow. by rewrite js_sort_perm in Hin.
Qed.

Lemma combination_guard_witness :
  runOptimizer 600 no_data (plain_settings (Fin 1)) (lookback_grid 501)
  = Some ([], Throw (Error
      "Too many combinations to test: 501. Please narrow the optimization range.")) /\
  exists started res,
    runOptimizer 10 market (plain_settings (Fin 1)) (lookback_grid 2)
    = Some (started, Ok res) /\
    map Settings.htfSwingLookback started = [Fin 1; Fin 2] /\
    map (fun row => (OptimizationResultRow.id row,
                     BacktestResults.totalTrades (OptimizationResultRow.results row)))
      (OptimizationResults.runs res) = [(0, 1); (1, 0)]%nat /\
    forall row, row ∈ OptimizationResults.runs res ->
      exists params,
        [Params.mk (Some (Fin 1)) None None None; Params.mk (Some (Fin 2)) None None None]
          !! OptimizationResultRow.id row = Some params /\
        row_of market (plain_settings (Fin 1)) (OptimizationResultRow.id row) params row.
Proof.
  split.
  - destruct (combination_guard 600 no_data (plain_settings (Fin 1)) (lookback_grid 501)
                (map (fun v => Params.mk (Some (Num.of_nat v)) None None None) (seq 1 501)))
      as [Hmany _].
    { vm_compute. reflexivity. }
    apply Hmany. rewrite length_map, length_seq. lia.
  - destruct (combination_guard 10 market (plain_settings (Fin 1)) (lookback_grid 2)
                [Params.mk (Some (Fin 1)) None None None;
                 Params.mk (Some (Fin 2)) None None None])
      as [_ Hfew].
    { vm_compute. reflexivity. }
    destruct Hfew as (started & outcome & Hrun & _ & Hout); [simpl; lia|].
    assert (Hval : runOptimizer 10 market (plain_settings (Fin 1)) (lookback_grid 2)
                   = Some (started, outcome)) by exact Hrun.
    vm_compute in Hval. injection Hval as <- <-.
    eexists _, _. split; [vm_compute; reflexivity|].
    split; [reflexivity|]. split; [reflexivity|].
    destruct Hout as (_ & _ & Hrows). exact Hrows.
Defined.

(** C8 fails as stated.  A sweep of the HTF lookback from 1 to 2 in steps
    of one half has three combinations; the analysis of the second, with
    lookback 1.5, reads [htf[1.5]] and raises, and the third is never run. *)
Lemma runs_stop_at_error :
  ~ runs_every_combination 10 market (plain_settings (Fin 1)) half_step_grid.
Proof.
  intros H.
  destruct (H [Params.mk (Some (Fin 1)) None None None;
               Params.mk (Some (Fin (3 # 2))) None None None;
               Params.mk (Some (Fin 2)) None None None]
              [override (plain_settings (Fin 1)) (Params.mk (Some (Fin 1)) None None None);
               override (plain_settings (Fin 1)) (Params.mk (Some (Fin (3 # 2))) None None None)]
              (Throw TypeError)) as [Hlen _].
  - vm_compute. reflexivity.
  - simpl. lia.
  - vm_compute. reflexivity.
  - simpl in Hlen. lia.
Qed.

Lemma ranks_before_sorted metric runs :
  comparable metric runs ->
  StronglySorted (ranks_before metric)
    (js_sort (fun a b => positive (compare_runs metric a b)) runs).
Proof.
  apply js_sort_sorted; unfold ranks_before, compare_runs, run_metric, Num.geb;
    destruct (lower_is_better metric).
  - intros a b Da Db. rewrite Num_positive_sub by done. by apply Num_ltb_false.
  - intros a b Da Db. rewrite Num_positive_sub by done. by apply Num_ltb_false.
  - intros a b Da Db. rewrite Num_positive_sub by done. apply Num_ltb_true.
  - intros a b Da Db. rewrite Num_positive_sub by done. apply Num_ltb_true.
  - intros a b c _ _ _. apply Num_leb_trans.
  - intros a b c _ _ _ Hab Hbc. by apply (Num_leb_trans _ _ _ Hbc).
Qed.

(** C9, for metrics that are numbers.  The best run of a completed
    optimization is the first of the runs it returns, if there is one; and
    when the target metric of no run is [NaN], the runs are ranked by it,
    non-decreasing for the two drawdown metrics and non-increasing for the
    others. *)
Theorem ranking_sorted fuel chartData baseSettings optimizerSettings started res :
  runOptimizer fuel chartData baseSettings optimizerSettings = Some (started, Ok res) ->
  OptimizationResults.bestRun res = head (OptimizationResults.runs res) /\
  (comparable (OptimizerSettings.targetMetric optimizerSettings)
     (OptimizationResults.runs res) ->
   StronglySorted (ranks_before (OptimizerSettings.targetMetric optimizerSettings))
     (OptimizationResults.runs res)).
Proof.
  unfold runOptimizer, optimize.
  destruct (generateCombinations fuel optimizerSettings) as [combinations|]; [|done].
  simpl. destruct (500 <? length combinations)%nat; [done|].
  destruct (run_all _ _ _ _ _) as [st [runs|e]]; simpl; [|done].
  destruct runs as [|row runs'] eqn:Hr.
  - intros [= _ <-]. simpl. split; [done | constructor].
  - rewrite <- Hr. intros [= _ <-]. simpl. split; [done|]. intros Hc.
    apply ranks_before_sorted. unfold comparable in *. by rewrite js_sort_perm in Hc.
Qed.

Lemma ranking_sorted_witness :
  exists started res,
    runOptimizer 10 market (plain_settings (Fin 1)) (ratio_grid MetricNetProfitPercent)
    = Some (started, Ok res) /\
    map OptimizationResultRow.id (OptimizationResults.runs res) = [1; 0]%nat /\
    OptimizationResults.bestRun res = head (OptimizationResults.runs res) /\
    StronglySorted (ranks_before MetricNetProfitPercent) (OptimizationResults.runs res).
Proof.
  eexists _, _. split; [vm_compute; reflexivity|]. split; [reflexivity|].
  destruct (ranking_sorted 10 market (plain_settings (Fin 1))
              (ratio_grid MetricNetProfitPercent) _ _ ltac:(vm_compute; reflexivity))
    as [Hbest Hsorted].
  split; [exact Hbest|]. apply Hsorted.
  repeat (apply Forall_cons; split; [reflexivity|]). apply Forall_nil_2.
Defined.

(** C9 fails as stated.  With an initial capital of 0 the net profit in
    percent of a run that closed a trade is [0 / 0]: both runs of the sweep
    have the metric [NaN], the comparator of the sort is [NaN] as well, and
    the runs returned are not ranked, since [NaN >= NaN] is false. *)
Lemma unranked_without_capital :
  exists started res,
    runOptimizer 10 market (penniless_settings (Fin 1)) (ratio_grid MetricNetProfitPercent)
    = Some (started, Ok res) /\
    map (run_metric MetricNetProfitPercent) (OptimizationResults.runs res) = [NaN; NaN] /\
    ~ StronglySorted (ranks_before MetricNetProfitPercent) (OptimizationResults.runs res).
Proof.
  eexists _, _. split; [vm_compute; reflexivity|]. split; [reflexivity|].
  intros Hs. apply StronglySorted_inv in Hs as [_ Hfirst].
  apply Forall_cons in Hfirst as [Hfirst _]. vm_compute in Hfirst. discriminate.
Qed.

(** ** Expanding the grid ends *)

Lemma range_values_more_fuel {A} (le : A -> A -> bool) (plus : A -> A -> A) end_ step :
  forall fuel fuel' v vs,
    (fuel <= fuel')%nat ->
    range_values le plus fuel v end_ step = Some vs ->
    range_values le plus fuel' v end_ step = Some vs.
Proof.
  induction fuel as [|fuel IH]; intros fuel' v vs Hle H; simpl in H; [discriminate|].
  destruct fuel' as [|fuel']; [lia|]. simpl.
  destruct (le v end_); [|done].
  destruct (range_values le plus fuel _ _ _) as [vs'|] eqn:Hr; [|discriminate].
  rewrite (IH fuel' _ vs'); [done | lia | done].
Qed.

Lemma range_values_S {A} (le : A -> A -> bool) (plus : A -> A -> A) fuel v end_ step :
  range_values le plus (S fuel) v end_ step
  = if le v end_
    then option_map (cons v) (range_values le plus fuel (plus v step) end_ step)
    else Some [].
Proof. reflexivity. Qed.

Lemma range_values_num_ends (e d : Q) :
  (0 < d)%Q ->
  forall n v, (e - v < inject_Z (Z.of_nat n) * d)%Q ->
    exists vs, range_values Num.leb Num.add (S n) (Fin v) (Fin e) (Fin d) = Some vs.
Proof.
  intros Hd. induction n as [|n IH]; intros v Hv.
  - simpl. destruct (Qle_bool v e) eqn:Hle; [|eauto].
    apply Qle_bool_iff in Hle. exfalso.
    change (inject_Z (Z.of_nat 0)) with 0%Q in Hv. rewrite Qmult_0_l in Hv.
    apply (Qlt_irrefl 0). eapply Qle_lt_trans; [|exact Hv].
    apply (Qplus_le_l _ _ v). ring_simplify. done.
  - rewrite range_values_S. cbn [Num.leb Num.add].
    destruct (Qle_bool v e) eqn:Hle; [|eauto].
    destruct (IH (Qred (v + d))) as [vs Hvs].
    { rewrite Qred_correct. rewrite Nat2Z.inj_succ, <- Z.add_1_r, inject_Z_plus in Hv.
      apply (Qplus_lt_l _ _ d). ring_simplify. ring_simplify in Hv.
      eapply Qlt_le_trans; [exact Hv|]. apply Qle_lteq. right. ring. }
    rewrite Hvs. simpl. eauto.
Qed.

Lemma range_values_num_fuel (s e d : Q) :
  (0 < d)%Q ->
  exists fuel vs, range_values Num.leb Num.add fuel (Fin s) (Fin e) (Fin d) = Some vs.
Proof.
  intros Hd.
  set (n := Z.to_nat (Qceiling ((e - s) / d) + 1)).
  destruct (range_values_num_ends e d Hd n s) as [vs Hvs]; [|eauto].
  assert (Hq : ((e - s) / d < inject_Z (Z.of_nat n))%Q).
  { eapply Qle_lt_trans; [apply Qle_ceiling|].
    rewrite <- Zlt_Qlt. unfold n. lia. }
  apply (Qmult_lt_r _ _ d Hd) in Hq.
  eapply Qle_lt_trans; [|exact Hq].
  apply Qle_lteq. right. field. intros H0. rewrite H0 in Hd. by apply Qlt_irrefl in Hd.
Qed.

Lemma sweep_of_more_fuel {A} (le : A -> A -> bool) (plus : A -> A -> A) key p
  fuel fuel' sw :
  (fuel <= fuel')%nat ->
  sweep_of le plus fuel key p = Some sw -> sweep_of le plus fuel' key p = Some sw.
Proof.
  unfold sweep_of. intros Hle. destruct (OptimizerParameter.enabled p); [|done].
  destruct (range_values le plus fuel _ _ _) as [vs|] eqn:Hr; [|discriminate].
  by rewrite (range_values_more_fuel le plus _ _ fuel fuel' _ vs Hle Hr).
Qed.

Lemma sweep_of_num_fuel key p :
  steps_up_num p -> exists fuel sw, sweep_of Num.leb Num.add fuel key p = Some sw.
Proof.
  unfold steps_up_num, sweep_of. destruct (OptimizerParameter.enabled p).
  - intros Hs. destruct (Hs eq_refl) as (s & e & d & -> & -> & -> & Hd).
    destruct (range_values_num_fuel s e d Hd) as (fuel & vs & Hvs).
    exists fuel. eexists. by rewrite Hvs.
  - intros _. by exists 0%nat, [].
Qed.

(** With parameters that step upwards, some amount of fuel expands the
    grid. *)
Lemma generateCombinations_ends optimizerSettings :
  steps_up_num (OptimizerSettings.htfSwingLookback optimizerSettings) ->
  steps_up_num (OptimizerSettings.ltfChochLookback optimizerSettings) ->
  steps_up_num (OptimizerSettings.discountZone optimizerSettings) ->
  steps_up_num (OptimizerSettings.rrRatio optimizerSettings) ->
  exists fuel combinations,
    generateCombinations fuel optimizerSettings = Some combinations.
Proof.
  intros Ha Hb Hc Hd.
  destruct (sweep_of_num_fuel SweepHtfSwingLookback _ Ha) as (fa & sa & Hsa).
  destruct (sweep_of_num_fuel SweepLtfChochLookback _ Hb) as (fb & sb & Hsb).
  destruct (sweep_of_num_fuel SweepDiscountZone _ Hc) as (fc & sc & Hsc).
  destruct (sweep_of_num_fuel SweepRrRatio _ Hd) as (fd & sd & Hsd).
  exists (fa + fb + fc + fd)%nat. unfold generateCombinations.
  rewrite (sweep_of_more_fuel _ _ _ _ fa _ sa) by (lia || done).
  rewrite (sweep_of_more_fuel _ _ _ _ fb _ sb) by (lia || done).
  rewrite (sweep_of_more_fuel _ _ _ _ fc _ sc) by (lia || done).
  rewrite (sweep_of_more_fuel _ _ _ _ fd _ sd) by (lia || done).
  destruct (sa ++ sb ++ sc ++ sd); eauto.
Qed.

(** * More on the swing detector *)

Lemma for_each_app {A B} (body : A -> B -> result B) xs ys s :
  for_each (xs ++ ys) body s = bind (for_each xs body s) (for_each ys body).
Proof.
  revert s. induction xs as [|x xs IH]; intros s; simpl; [done|].
  destruct (body x s); simpl; [apply IH | done].
Qed.

Lemma swing_round_pass data i j isHigh isLow h' l' :
  swing_round_nat data i j (isHigh, isLow) = Ok (h', l') ->
  (round_ok Candle.high not_lt not_le data i j -> h' = isHigh) /\
  (round_ok Candle.low not_gt not_ge data i j -> l' = isLow).
Proof.
  unfold swing_round_nat, or_else, at_index. intros H. split.
  - intros (ci & cl & cr & Hi & Hl & Hr & H1 & H2). unfold not_lt, not_le in *.
    rewrite Hi, Hl, Hr in H. simpl in H.
    apply negb_true_iff in H1, H2. rewrite H1, H2 in H. simpl in H.
    destruct (Num.gtb _ _); simpl in H; [|destruct (Num.geb _ _); simpl in H];
      by injection H as <- _.
  - intros (ci & cl & cr & Hi & Hl & Hr & H1 & H2). unfold not_gt, not_ge in *.
    rewrite Hi, Hl, Hr in H. simpl in H.
    apply negb_true_iff in H1, H2. rewrite H1, H2 in H.
    destruct (Num.ltb _ _); simpl in H; [|destruct (Num.leb _ _); simpl in H];
      by injection H as _ <-.
Qed.

Lemma swing_rounds_pass data i js :
  forall h l h' l',
  for_each js (swing_round_nat data i) (h, l) = Ok (h', l') ->
  ((forall j, j ∈ js -> round_ok Candle.high not_lt not_le data i j) -> h' = h) /\
  ((forall j, j ∈ js -> round_ok Candle.low not_gt not_ge data i j) -> l' = l).
Proof.
  induction js as [|j js IH]; intros h l h' l' H; simpl in H.
  - by injection H as <- <-.
  - apply bind_Ok in H as ([h1 l1] & Hr & H).
    apply swing_round_pass in Hr as [Hh Hl]. apply IH in H as [IHh IHl].
    split; intros Hall.
    + rewrite IHh, Hh; [done | apply Hall; left | intros; apply Hall; by right].
    + rewrite IHl, Hl; [done | apply Hall; left | intros; apply Hall; by right].
Qed.

Lemma swing_at_grows data lookback i highs lows highs' lows' :
  swing_at_nat data lookback i (highs, lows) = Ok (highs', lows') ->
  (forall sp, sp ∈ highs -> sp ∈ highs') /\ (forall sp, sp ∈ lows -> sp ∈ lows').
Proof.
  unfold swing_at_nat. intros H.
  apply bind_Ok in H as ([h l] & _ & H).
  apply bind_Ok in H as (hs & Hhs & H). apply bind_Ok in H as (ls & Hls & H).
  injection H as <- <-. split; intros sp Hsp.
  - destruct h; [|by injection Hhs as <-].
    apply bind_Ok in Hhs as (c & _ & Hhs). apply bind_Ok in Hhs as (c' & _ & Hhs).
    injection Hhs as <-. apply elem_of_app. by left.
  - destruct l; [|by injection Hls as <-].
    apply bind_Ok in Hls as (c & _ & Hls). apply bind_Ok in Hls as (c' & _ & Hls).
    injection Hls as <-. apply elem_of_app. by left.
Qed.

Lemma swing_loop_grows data lookback indices :
  forall highs lows highs' lows',
  for_each indices (swing_at_nat data lookback) (highs, lows) = Ok (highs', lows') ->
  (forall sp, sp ∈ highs -> sp ∈ highs') /\ (forall sp, sp ∈ lows -> sp ∈ lows').
Proof.
  induction indices as [|i indices IH]; intros highs lows highs' lows' H; simpl in H.
  - by injection H as <- <-.
  - apply bind_Ok in H as ([hs ls] & Ha & H).
    apply swing_at_grows in Ha as [Hh Hl]. apply IH in H as [IHh IHl]. split; auto.
Qed.

Lemma flagged_rounds field kind left right data lookback sp :
  flagged field kind left right data lookback sp ->
  exists i c,
    data !! i = Some c /\ sp = SwingPoint.mk (Candle.time c) (field c) kind /\
    (lookback <= i)%nat /\ (i + lookback < length data)%nat /\
    forall j, j ∈ seq 1 lookback -> round_ok field left right data i j.
Proof.
  intros (i & c & Hlo & Hhi & Hc & Hsp & Hn). exists i, c. do 4 (split; [done|]).
  intros j Hj. apply elem_of_seq in Hj.
  destruct (Hn j) as (cl & cr & Hl & Hr & H1 & H2); [lia|].
  by exists c, cl, cr.
Qed.

Lemma swing_at_flags data lookback i c highs lows highs' lows' :
  data !! i = Some c ->
  swing_at_nat data lookback i (highs, lows) = Ok (highs', lows') ->
  ((forall j, j ∈ seq 1 lookback -> round_ok Candle.high not_lt not_le data i j) ->
   SwingPoint.mk (Candle.time c) (Candle.high c) SwingHigh ∈ highs') /\
  ((forall j, j ∈ seq 1 lookback -> round_ok Candle.low not_gt not_ge data i j) ->
   SwingPoint.mk (Candle.time c) (Candle.low c) SwingLow ∈ lows').
Proof.
  intros Hc. unfold swing_at_nat. intros H.
  apply bind_Ok in H as ([h l] & Hf & H).
  apply swing_rounds_pass in Hf as [Hh Hl].
  apply bind_Ok in H as (hs & Hhs & H). apply bind_Ok in H as (ls & Hls & H).
  injection H as <- <-. unfold at_index in *. rewrite Hc in *. simpl in *. split; intros Hall.
  - rewrite (Hh Hall) in Hhs. injection Hhs as <-. apply elem_of_app. right. left.
  - rewrite (Hl Hall) in Hls. injection Hls as <-. apply elem_of_app. right. left.
Qed.

(** X1. [findSwingPoints] misses no swing: every candle with [lookback] candles
    on both sides whose high is not below any high of the [lookback]
    candles before it and not at or below any high of the [lookback]
    candles after it is among the swing highs returned, and likewise, with
    the lows and the comparisons turned round, among the swing lows. *)
Theorem swings_complete data lookback highs lows :
  findSwingPoints data (Num.of_nat lookback) = Ok (highs, lows) ->
  (forall sp, flagged Candle.high SwingHigh not_lt not_le data lookback sp -> sp ∈ highs) /\
  (forall sp, flagged Candle.low SwingLow not_gt not_ge data lookback sp -> sp ∈ lows).
Proof.
  rewrite findSwingPoints_of_nat.
  unfold findSwingPoints_nat. destruct (length data <? lookback * 2 + 1)%nat eqn:Hg.
  - apply Nat.ltb_lt in Hg. intros _.
    split; intros sp (i & c & Hlo & Hhi & _); lia.
  - intros H.
    assert (Hcut : forall i, (lookback <= i)%nat -> (i + lookback < length data)%nat ->
              exists pre post,
                seq lookback (length data - lookback - lookback) = pre ++ i :: post).
    { intros i Hlo Hhi. apply list_elem_of_split, elem_of_seq. lia. }
    split; intros sp Hsp; apply flagged_rounds in Hsp as (i & c & Hc & -> & Hlo & Hhi & Hr);
      destruct (Hcut i Hlo Hhi) as (pre & post & Hseq); rewrite Hseq in H;
      rewrite for_each_app in H; apply bind_Ok in H as ([hs ls] & _ & H); simpl in H;
      apply bind_Ok in H as ([hs' ls'] & Hat & H);
      apply (swing_at_flags _ _ _ c) in Hat as [Hh Hl]; try done;
      apply swing_loop_grows in H as [Gh Gl]; auto.
Qed.

Lemma swings_complete_witness :
  exists highs lows,
    findSwingPoints (ChartData.htf market) Num.one = Ok (highs, lows) /\
    SwingPoint.mk 30 (Fin 12) SwingHigh ∈ highs.
Proof.
  eexists _, _. split; [reflexivity|].
  destruct (swings_complete (ChartData.htf market) 1 _ _ eq_refl) as [Hh _]. apply Hh.
  exists 3%nat, (candle 30 10 12 7 10).
  split; [lia|]. split; [simpl; lia|]. split; [reflexivity|]. split; [reflexivity|].
  intros j Hj. assert (j = 1%nat) as -> by lia.
  eexists _, _. split; [reflexivity|]. split; [reflexivity|]. split; reflexivity.
Defined.

Lemma swing_points_flagged data lookback highs lows :
  findSwingPoints_nat data lookback = Ok (highs, lows) ->
  (forall sp, sp ∈ highs ->
     flagged Candle.high SwingHigh not_lt not_le data lookback sp) /\
  (forall sp, sp ∈ lows ->
     flagged Candle.low SwingLow not_gt not_ge data lookback sp).
Proof.
  unfold findSwingPoints_nat. destruct (length data <? lookback * 2 + 1)%nat.
  - intros [= <- <-]. split; intros sp Hsp; by apply elem_of_nil in Hsp.
  - apply swing_loop_flagged. intros i. apply swing_indices_in_range.
Qed.

Lemma time_lookup_inj (data : list Candle.t) i i' c c' :
  NoDup (map Candle.time data) ->
  data !! i = Some c -> data !! i' = Some c' -> Candle.time c = Candle.time c' -> i = i'.
Proof.
  intros Hnd Hi Hi' Ht.
  apply (NoDup_lookup _ i i' (Candle.time c) Hnd).
  - change (map Candle.time data) with (Candle.time <$> data).
    by rewrite list_lookup_fmap, Hi.
  - change (map Candle.time data) with (Candle.time <$> data).
    rewrite list_lookup_fmap, Hi'. simpl. by rewrite Ht.
Qed.

Lemma flagged_at field kind left right data lookback i c :
  NoDup (map Candle.time data) ->
  data !! i = Some c ->
  flagged field kind left right data lookback
    (SwingPoint.mk (Candle.time c) (field c) kind) ->
  forall j, (1 <= j <= lookback)%nat ->
    exists cl cr,
      data !! (i - j)%nat = Some cl /\ data !! (i + j)%nat = Some cr /\
      left (field c) (field cl) = true /\ right (field c) (field cr) = true.
Proof.
  intros Hnd Hc (i0 & c0 & _ & _ & Hc0 & Hsp & Hn).
  injection Hsp as Ht _.
  assert (i0 = i) by (eapply time_lookup_inj; eauto). subst i0.
  assert (c0 = c) by congruence. subst c0. exact Hn.
Qed.

(** X2. Two swing highs are more than [lookback] candles apart, and so are
    two swing lows, when the candles have distinct times and no price is
    [NaN]: of two candles within [lookback] of each other the later one
    would have to be strictly beyond the earlier one and the earlier one
    not beyond the later one. *)
Theorem swings_apart data lookback highs lows i i' c c' :
  findSwingPoints data (Num.of_nat lookback) = Ok (highs, lows) ->
  NoDup (map Candle.time data) ->
  Forall (fun c => Num.is_nan (Candle.high c) = false /\
                   Num.is_nan (Candle.low c) = false) data ->
  data !! i = Some c -> data !! i' = Some c' -> (i < i')%nat ->
  (SwingPoint.mk (Candle.time c) (Candle.high c) SwingHigh ∈ highs ->
   SwingPoint.mk (Candle.time c') (Candle.high c') SwingHigh ∈ highs ->
   (lookback < i' - i)%nat) /\
  (SwingPoint.mk (Candle.time c) (Candle.low c) SwingLow ∈ lows ->
   SwingPoint.mk (Candle.time c') (Candle.low c') SwingLow ∈ lows ->
   (lookback < i' - i)%nat).
Proof.
  rewrite findSwingPoints_of_nat.
  intros H Hnd Hfin Hc Hc' Hlt.
  apply swing_points_flagged in H as [Hh Hl].
  rewrite Forall_forall in Hfin.
  destruct (Hfin c) as [Nh Nl]; [by eapply list_elem_of_lookup_2|].
  destruct (Hfin c') as [Nh' Nl']; [by eapply list_elem_of_lookup_2|].
  split; intros Hin Hin'; apply Nat.lt_nge; intros Hle.
  - apply Hh in Hin, Hin'.
    destruct (flagged_at _ _ _ _ _ _ _ _ Hnd Hc Hin (i' - i)%nat) as (_ & cr & _ & Hr & _ & Hright);
      [lia|].
    destruct (flagged_at _ _ _ _ _ _ _ _ Hnd Hc' Hin' (i' - i)%nat) as (cl & _ & Hl' & _ & Hleft & _);
      [lia|].
    replace (i + (i' - i))%nat with i' in Hr by lia.
    replace (i' - (i' - i))%nat with i in Hl' by lia.
    assert (cr = c') by congruence. assert (cl = c) by congruence. subst cr cl.
    unfold not_lt, not_le in *. apply negb_true_iff in Hright, Hleft.
    apply Num_ltb_false in Hleft; [congruence | done..].
  - apply Hl in Hin, Hin'.
    destruct (flagged_at _ _ _ _ _ _ _ _ Hnd Hc Hin (i' - i)%nat) as (_ & cr & _ & Hr & _ & Hright);
      [lia|].
    destruct (flagged_at _ _ _ _ _ _ _ _ Hnd Hc' Hin' (i' - i)%nat) as (cl & _ & Hl' & _ & Hleft & _);
      [lia|].
    replace (i + (i' - i))%nat with i' in Hr by lia.
    replace (i' - (i' - i))%nat with i in Hl' by lia.
    assert (cr = c') by congruence. assert (cl = c) by congruence. subst cr cl.
    unfold not_gt, not_ge, Num.gtb, Num.geb in *. apply negb_true_iff in Hright, Hleft.
    apply Num_ltb_false in Hleft; [congruence | done..].
Qed.

Lemma swings_apart_witness : (1 < 3 - 1)%nat.
Proof.
  destruct (swings_apart (ChartData.htf market) 1 _ _ 1 3
              (candle 10 9 10 8 9) (candle 30 10 12 7 10) eq_refl) as [Hh _].
  - apply NoDup_ListNoDup. cbn.
    repeat (apply List.NoDup_cons; [simpl; lia|]). apply List.NoDup_nil.
  - repeat (apply Forall_cons; split; [split; reflexivity|]). apply Forall_nil_2.
  - reflexivity.
  - reflexivity.
  - lia.
  - apply Hh; [left|right; left].
Defined.

Lemma swing_at_shape data lookback i highs lows highs' lows' :
  swing_at_nat data lookback i (highs, lows) = Ok (highs', lows') ->
  exists c, data !! i = Some c /\
    (highs' = highs \/
     highs' = highs ++ [SwingPoint.mk (Candle.time c) (Candle.high c) SwingHigh]) /\
    (lows' = lows \/
     lows' = lows ++ [SwingPoint.mk (Candle.time c) (Candle.low c) SwingLow]).
Proof.
  unfold swing_at_nat. intros H.
  apply bind_Ok in H as ([h l] & Hf & H).
  apply bind_Ok in H as (hs & Hhs & H). apply bind_Ok in H as (ls & Hls & H).
  injection H as <- <-.
  destruct (data !! i) as [c|] eqn:Hc.
  - exists c. split; [done|]. unfold at_index in *. rewrite Hc in *. simpl in *.
    split; [destruct h | destruct l]; [injection Hhs as <- | injection Hhs as <-
                                      | injection Hls as <- | injection Hls as <-]; auto.
  - exfalso. unfold at_index in *. rewrite Hc in *. simpl in *.
    destruct h; [discriminate|]. destruct l; [discriminate|].
    destruct lookback as [|n]; simpl in Hf; [discriminate|].
    unfold swing_round_nat, or_else, at_index in Hf. rewrite Hc in Hf. discriminate.
Qed.

Lemma seq_split_index start n pre (x : nat) post :
  seq start n = pre ++ x :: post -> x = (start + length pre)%nat.
Proof.
  intros H.
  assert (Hx : seq start n !! length pre = Some x).
  { rewrite H. by rewrite lookup_app_r, Nat.sub_diag by lia. }
  apply lookup_seq in Hx as [-> _]. done.
Qed.

Lemma sublist_StronglySorted {A} (R : A -> A -> Prop) l1 l2 :
  l1 `sublist_of` l2 -> StronglySorted R l2 -> StronglySorted R l1.
Proof.
  induction 1 as [|x l1 l2 Hs IH|x l1 l2 Hs IH]; intros Hsort.
  - constructor.
  - apply StronglySorted_inv in Hsort as [Hs2 Hx]. constructor; [by apply IH|].
    rewrite Forall_forall in Hx |- *. intros y Hy. apply Hx.
    by eapply elem_of_sublist.
  - apply StronglySorted_inv in Hsort as [Hs2 _]. by apply IH.
Qed.

(** X3. [findSwingPoints] returns the swing highs and the swing lows in the
    order of their candles, at most one of each per candle; when the
    candle times increase strictly, so do the times of the swing highs and
    those of the swing lows. *)
Theorem swings_in_candle_order data lookback highs lows :
  findSwingPoints data (Num.of_nat lookback) = Ok (highs, lows) ->
  map SwingPoint.time highs `sublist_of` map Candle.time data /\
  map SwingPoint.time lows `sublist_of` map Candle.time data /\
  (StronglySorted Z.lt (map Candle.time data) ->
   StronglySorted Z.lt (map SwingPoint.time highs) /\
   StronglySorted Z.lt (map SwingPoint.time lows)).
Proof.
  rewrite findSwingPoints_of_nat.
  intros H.
  assert (Hsub : map SwingPoint.time highs `sublist_of` map Candle.time data /\
                 map SwingPoint.time lows `sublist_of` map Candle.time data).
  { revert H. unfold findSwingPoints_nat. destruct (length data <? lookback * 2 + 1)%nat.
    { intros [= <- <-]. split; apply sublist_nil_l. }
    intros H.
    apply (for_each_ind
             (fun pre s =>
                map SwingPoint.time s.1
                  `sublist_of` map Candle.time (take (lookback + length pre) data) /\
                map SwingPoint.time s.2
                  `sublist_of` map Candle.time (take (lookback + length pre) data)))
      in H.
    - destruct H as [Hh Hl]. split; (etrans; [eassumption|]);
        apply (fmap_sublist Candle.time), sublist_take.
    - split; apply sublist_nil_l.
    - intros pre i post [hs ls] [hs' ls'] Hseq [IHh IHl] Hb. simpl in *.
      apply seq_split_index in Hseq. subst i.
      apply swing_at_shape in Hb as (c & Hc & Hh & Hl).
      rewrite length_app. simpl.
      replace (lookback + (length pre + 1))%nat with (S (lookback + length pre)) by lia.
      rewrite (take_S_r _ _ _ Hc), map_app. simpl.
      split.
      + destruct Hh as [-> | ->]; [by apply sublist_inserts_r|].
        rewrite map_app. by apply sublist_app.
      + destruct Hl as [-> | ->]; [by apply sublist_inserts_r|].
        rewrite map_app. by apply sublist_app. }
  destruct Hsub as [Hh Hl]. split; [done|]. split; [done|].
  intros Hs. split; eapply sublist_StronglySorted; eauto.
Qed.

Lemma swings_in_candle_order_witness :
  exists highs lows,
    findSwingPoints (ChartData.htf market) Num.one = Ok (highs, lows) /\
    map SwingPoint.time highs `sublist_of` map Candle.time (ChartData.htf market) /\
    StronglySorted Z.lt (map SwingPoint.time highs).
Proof.
  eexists _, _. split; [reflexivity|].
  destruct (swings_in_candle_order (ChartData.htf market) 1 _ _ eq_refl) as (Hh & _ & Hs).
  split; [exact Hh|]. apply Hs. cbn.
  repeat (apply SSorted_cons; [|repeat (apply Forall_cons; split; [reflexivity|]); apply Forall_nil_2]).
  apply SSorted_nil.
Defined.

(** * More on the analysis *)

Lemma find_buffer (p : Candle.t -> bool) (c : Candle.t) buffer (P : Candle.t -> Prop)
  `{!forall x, Decision (P x)} :
  find p (reverse (filter P buffer)) = Some c -> c ∈ buffer /\ p c = true.
Proof.
  intros Hf. apply find_some in Hf as [Hin Hp]. split; [|done].
  apply list_elem_of_In in Hin. rewrite elem_of_reverse in Hin.
  by apply list_elem_of_filter in Hin as [_ Hin].
Qed.

Lemma bullish_choch_cases settings st buffer lows cur lastLtfHigh :
  let st' := bullish_choch settings st buffer lows cur lastLtfHigh in
  Tracker.monitoredPoi st' = None /\
  Tracker.ltfDataForChoch st' = [] /\
  Tracker.activePois st' = Tracker.activePois st /\
  (exists ch, Tracker.allDrawings st' = Tracker.allDrawings st ++ [DrawCHoCH ch]) /\
  (Tracker.allTrades st' = Tracker.allTrades st \/
   exists signal,
     Tracker.allTrades st' = push_signal (Tracker.allTrades st) signal /\
     signal_from settings buffer signal).
Proof.
  unfold bullish_choch. simpl.
  destruct (pop _) as [lowPoint|]; simpl; [|by eauto 10].
  do 3 (split; [done|]). split; [eauto|].
  destruct (find _ _) as [entryOB|] eqn:Hfind; [|by left].
  destruct (positive _) eqn:Hrisk; [|by left].
  right. eexists. split; [reflexivity|].
  apply find_buffer in Hfind as [Hin Hob].
  exists entryOB. simpl. do 4 (split; [done|]). done.
Qed.

Lemma bearish_choch_cases settings st buffer highs cur lastLtfLow :
  let st' := bearish_choch settings st buffer highs cur lastLtfLow in
  Tracker.monitoredPoi st' = None /\
  Tracker.ltfDataForChoch st' = [] /\
  Tracker.activePois st' = Tracker.activePois st /\
  (exists ch, Tracker.allDrawings st' = Tracker.allDrawings st ++ [DrawCHoCH ch]) /\
  (Tracker.allTrades st' = Tracker.allTrades st \/
   exists signal,
     Tracker.allTrades st' = push_signal (Tracker.allTrades st) signal /\
     signal_from settings buffer signal).
Proof.
  unfold bearish_choch. simpl.
  destruct (pop _) as [highPoint|]; simpl; [|by eauto 10].
  do 3 (split; [done|]). split; [eauto|].
  destruct (find _ _) as [entryOB|] eqn:Hfind; [|by left].
  destruct (positive _) eqn:Hrisk; [|by left].
  right. eexists. split; [reflexivity|].
  apply find_buffer in Hfind as [Hin Hob].
  exists entryOB. simpl. do 4 (split; [done|]). done.
Qed.

Lemma findIndex_Some {A} (p : A -> bool) l k :
  findIndex p l = Some k -> exists x, l !! k = Some x /\ p x = true.
Proof.
  revert k. induction l as [|y l IH]; intros k H; simpl in H; [discriminate|].
  destruct (p y) eqn:Hy.
  - injection H as <-. by exists y.
  - destruct (findIndex p l) as [k'|]; [|discriminate]. injection H as <-.
    destruct (IH k' eq_refl) as (x & Hx & Hp). by exists x.
Qed.

(** What one step of the entry tracker can do. *)
Lemma track_cases settings cur st st' :
  track settings cur st = Ok st' ->
  (* the step waits *)
  (Tracker.monitoredPoi st' = Tracker.monitoredPoi st /\
   Tracker.activePois st' = Tracker.activePois st /\
   Tracker.allTrades st' = Tracker.allTrades st /\
   Tracker.allDrawings st' = Tracker.allDrawings st /\
   (Tracker.ltfDataForChoch st' = Tracker.ltfDataForChoch st \/
    Tracker.ltfDataForChoch st' = Tracker.ltfDataForChoch st ++ [cur]))
  \/
  (* the monitored zone is released *)
  (is_Some (Tracker.monitoredPoi st) /\
   Tracker.monitoredPoi st' = None /\
   Tracker.ltfDataForChoch st' = [] /\
   Tracker.activePois st' = Tracker.activePois st /\
   ((Tracker.allDrawings st' = Tracker.allDrawings st /\
     Tracker.allTrades st' = Tracker.allTrades st) \/
    ((exists ch, Tracker.allDrawings st' = Tracker.allDrawings st ++ [DrawCHoCH ch]) /\
     (Tracker.allTrades st' = Tracker.allTrades st \/
      exists signal,
        Tracker.allTrades st' = push_signal (Tracker.allTrades st) signal /\
        signal_from settings (Tracker.ltfDataForChoch st ++ [cur]) signal))))
  \/
  (* a zone is entered *)
  (Tracker.monitoredPoi st = None /\
   exists k poi,
     Tracker.activePois st !! k = Some poi /\
     Tracker.monitoredPoi st' = Some poi /\
     Tracker.ltfDataForChoch st' = [cur] /\
     Tracker.activePois st' = delete k (Tracker.activePois st) /\
     Tracker.allTrades st' = Tracker.allTrades st /\
     Tracker.allDrawings st' = Tracker.allDrawings st).
Proof.
  unfold track. destruct (Tracker.monitoredPoi st) as [poi|] eqn:Hm.
  - destruct (isInvalidated poi cur).
    { intros [= <-]. right. left. simpl. split; [eauto|]. do 3 (split; [done|]). by left. }
    destruct (too_short _ _).
    { intros [= <-]. left. simpl. do 4 (split; [done|]). by right. }
    intros H. apply bind_Ok in H as ([highs lows] & _ & H).
    set (st1 := Tracker.mk (Some poi)
                  (Tracker.ltfDataForChoch st ++ [cur]) (Tracker.activePois st)
                  (Tracker.allTrades st) (Tracker.allDrawings st)) in *.
    assert (Hwait : st' = st1 ->
              Tracker.monitoredPoi st' = Some poi /\
              Tracker.activePois st' = Tracker.activePois st /\
              Tracker.allTrades st' = Tracker.allTrades st /\
              Tracker.allDrawings st' = Tracker.allDrawings st /\
              (Tracker.ltfDataForChoch st' = Tracker.ltfDataForChoch st \/
               Tracker.ltfDataForChoch st' = Tracker.ltfDataForChoch st ++ [cur])).
    { intros ->. simpl. split; [done|]. do 3 (split; [done|]). by right. }
    destruct (POI.direction poi).
    + destruct (pop highs) as [lastLtfHigh|]; [|injection H as <-; left; by apply Hwait].
      destruct (Num.gtb _ _); [|injection H as <-; left; by apply Hwait].
      injection H as <-. right. left.
      destruct (bullish_choch_cases settings st1 (Tracker.ltfDataForChoch st ++ [cur])
                  lows cur lastLtfHigh) as (H1 & H2 & H3 & H4 & H5).
      split; [eauto|]. do 3 (split; [done|]). right. done.
    + destruct (pop lows) as [lastLtfLow|]; [|injection H as <-; left; by apply Hwait].
      destruct (Num.ltb _ _); [|injection H as <-; left; by apply Hwait].
      injection H as <-. right. left.
      destruct (bearish_choch_cases settings st1 (Tracker.ltfDataForChoch st ++ [cur])
                  highs cur lastLtfLow) as (H1 & H2 & H3 & H4 & H5).
      split; [eauto|]. do 3 (split; [done|]). right. done.
  - destruct (findIndex _ _) as [k|] eqn:Hk.
    + intros [= <-]. right. right. split; [done|].
      apply findIndex_Some in Hk as (poi & Hpoi & _).
      exists k, poi. simpl. rewrite Hpoi. done.
    + intros [= <-]. left. rewrite Hm. do 4 (split; [done|]). by left.
Qed.

Lemma count_drawings_app p l1 l2 :
  count_drawings p (l1 ++ l2) = (count_drawings p l1 + count_drawings p l2)%nat.
Proof. unfold count_drawings. by rewrite filter_app, length_app. Qed.

Lemma count_drawings_one p d :
  count_drawings p [d] = if p d then 1%nat else 0%nat.
Proof.
  unfold count_drawings. destruct (p d) eqn:Hp.
  - by rewrite filter_cons_True.
  - rewrite filter_cons_False; [done | congruence].
Qed.

Lemma bullish_leg_drawings settings mtf lows pair ds ps ds' ps' :
  bullish_leg settings mtf lows pair (ds, ps) = Ok (ds', ps') ->
  ds' = ds \/ exists b, ds' = ds ++ [DrawBOS b].
Proof.
  unfold bullish_leg. destruct pair as [prevHigh currentHigh].
  destruct (Num.gtb _ _); [|intros [= <- _]; by left].
  destruct (head _); [|intros [= <- _]; right; eauto].
  destruct (_ && _); [intros [= <- _]; right; eauto|].
  intros H. apply bind_Ok in H as (ps1 & _ & H). injection H as <- _. right. eauto.
Qed.

Lemma bearish_leg_drawings settings mtf highs pair ds ps ds' ps' :
  bearish_leg settings mtf highs pair (ds, ps) = Ok (ds', ps') ->
  ds' = ds \/ exists b, ds' = ds ++ [DrawBOS b].
Proof.
  unfold bearish_leg. destruct pair as [prevLow currentLow].
  destruct (Num.ltb _ _); [|intros [= <- _]; by left].
  destruct (head _); [|intros [= <- _]; right; eauto].
  destruct (_ && _); [intros [= <- _]; right; eauto|].
  intros H. apply bind_Ok in H as (ps1 & _ & H). injection H as <- _. right. eauto.
Qed.

Lemma legs_only_bos (leg : SwingPoint.t * SwingPoint.t -> list Drawing * list POI.t ->
                           result (list Drawing * list POI.t)) pairs :
  (forall pair ds ps ds' ps', leg pair (ds, ps) = Ok (ds', ps') ->
     ds' = ds \/ exists b, ds' = ds ++ [DrawBOS b]) ->
  forall acc acc', for_each pairs leg acc = Ok acc' ->
    count_drawings is_poi_drawing acc'.1 = count_drawings is_poi_drawing acc.1 /\
    count_drawings is_choch_drawing acc'.1 = count_drawings is_choch_drawing acc.1.
Proof.
  intros Hleg. induction pairs as [|pair pairs IH]; intros acc acc' H; simpl in H.
  - by injection H as <-.
  - apply bind_Ok in H as ([ds1 ps1] & Hl & H). destruct acc as [ds ps].
    apply IH in H as [-> ->]. simpl.
    apply Hleg in Hl as [-> | [b ->]]; [done|].
    rewrite !count_drawings_app, !count_drawings_one. simpl. split; lia.
Qed.

Lemma poi_drawings_count ltf activePois :
  forall ds ds',
  for_each activePois
    (fun p allDrawings =>
       lastLtf <- at_index ltf (length ltf - 1);
       Ok (allDrawings ++
             [DrawPOI (POI.mk (POI.startTime p) (Candle.time lastLtf) (POI.top p)
                         (POI.bottom p) (POI.direction p))])) ds = Ok ds' ->
  count_drawings is_poi_drawing ds'
  = (count_drawings is_poi_drawing ds + length activePois)%nat /\
  count_drawings is_choch_drawing ds' = count_drawings is_choch_drawing ds.
Proof.
  induction activePois as [|p ps IH]; intros ds ds' H; simpl in H.
  - injection H as <-. simpl. split; [lia | done].
  - apply bind_Ok in H as (ds1 & H1 & H). apply bind_Ok in H1 as (c & _ & H1).
    injection H1 as <-. apply IH in H as [-> ->].
    rewrite !count_drawings_app, !count_drawings_one. simpl. split; lia.
Qed.

(** The analysis, past its guard, is the entry tracker run over the LTF
    candles from a state that holds the zones and one drawing per zone. *)
Lemma analyzeSMC_tracker chartData settings r :
  analyzeSMC chartData settings = Ok r ->
  r = SMCAnalysisResult.mk [] [] \/
  exists activePois allDrawings final,
    for_each (ChartData.ltf chartData) (track settings)
      (Tracker.mk None [] activePois [] allDrawings) = Ok final /\
    count_drawings is_poi_drawing allDrawings = length activePois /\
    count_drawings is_choch_drawing allDrawings = 0%nat /\
    r = SMCAnalysisResult.mk (js_sort signal_time_after (Tracker.allTrades final))
          (Tracker.allDrawings final).
Proof.
  unfold analyzeSMC. destruct (_ || _); [intros [= <-]; by left|].
  intros H. right.
  apply bind_Ok in H as ([hs ls] & _ & H). simpl in H.
  apply bind_Ok in H as (bull & Hbull & H).
  apply bind_Ok in H as ([ds ps] & Hbear & H).
  apply bind_Ok in H as (ds' & Hpoi & H).
  apply bind_Ok in H as (final & Htrack & H). injection H as <-.
  apply legs_only_bos in Hbull as [Hb1 Hb2]; [|intros; by eapply bullish_leg_drawings].
  apply legs_only_bos in Hbear as [Hr1 Hr2]; [|intros; by eapply bearish_leg_drawings].
  apply poi_drawings_count in Hpoi as [Hp1 Hp2]. simpl in *.
  eexists _, ds', final. split; [exact Htrack|].
  split; [rewrite Hp1, Hr1, Hb1; done|]. split; [rewrite Hp2, Hr2, Hb2; done|]. done.
Qed.

Lemma signal_from_mono settings buffer ltf signal :
  (forall c, c ∈ buffer -> c ∈ ltf) ->
  signal_from settings buffer signal -> signal_from settings ltf signal.
Proof. intros Hsub (ob & Hin & H). exists ob. split; [by apply Hsub | done]. Qed.

Lemma push_signal_cases allTrades signal :
  push_signal allTrades signal = allTrades \/
  push_signal allTrades signal = allTrades ++ [signal] /\
  TradeSignal.entryTime signal ∉ map TradeSignal.entryTime allTrades.
Proof.
  unfold push_signal. destruct (existsb _ _) eqn:He; [by left|]. right. split; [done|].
  intros Hin. apply list_elem_of_In, in_map_iff in Hin as (t & Ht & Hin).
  assert (existsb (fun t => (TradeSignal.entryTime t =? TradeSignal.entryTime signal)%Z)
            allTrades = true); [|congruence].
  apply existsb_exists. exists t. split; [done|]. by apply Z.eqb_eq.
Qed.

Lemma tracker_inv_step settings ltf zones cur st st' :
  cur ∈ ltf ->
  tracker_inv settings ltf zones st ->
  track settings cur st = Ok st' ->
  tracker_inv settings ltf zones st'.
Proof.
  intros Hcur (Hsig & Hnd & Hbuf & Hcount & Hpoi & Hlen) H.
  assert (Hbuf' : forall c, c ∈ Tracker.ltfDataForChoch st ++ [cur] -> c ∈ ltf).
  { intros c Hc. apply elem_of_app in Hc as [Hc | Hc]; [by apply Hbuf|].
    by apply list_elem_of_singleton in Hc as ->. }
  apply track_cases in H
    as [(Hm & Ha & Ht & Hd & Hb) | [(Hsome & Hm & Hb & Ha & Hrel) | (Hm & k & poi & Hk & Hm' & Hb & Ha & Ht & Hd)]].
  - unfold tracker_inv. rewrite Hm, Ha, Ht, Hd. do 2 (split; [done|]).
    split; [|done]. destruct Hb as [-> | ->]; done.
  - unfold tracker_inv. rewrite Hm, Hb, Ha. destruct Hsome as [poi Hpoi0].
    rewrite Hpoi0 in Hcount.
    destruct Hrel as [[Hd Ht] | [[ch Hd] Ht]].
    + rewrite Hd, Ht. do 2 (split; [done|]).
      split; [intros c Hc; by apply elem_of_nil in Hc|]. split; [lia|done].
    + rewrite Hd, !count_drawings_app, !count_drawings_one. simpl.
      destruct Ht as [Ht | (signal & Ht & Hfrom)].
      * rewrite Ht. do 2 (split; [done|]).
        split; [intros c Hc; by apply elem_of_nil in Hc|]. split; [lia|]. split; lia.
      * rewrite Ht.
        destruct (push_signal_cases (Tracker.allTrades st) signal) as [-> | [-> Hfresh]].
        -- do 2 (split; [done|]).
           split; [intros c Hc; by apply elem_of_nil in Hc|]. split; [lia|]. split; lia.
        -- split; [apply Forall_app; split; [done|]; constructor; [|done];
                   by eapply signal_from_mono|].
           split.
           { rewrite map_app. simpl. apply NoDup_app. split; [done|]. split.
             - intros t Ht' Hs. apply list_elem_of_singleton in Hs as ->. done.
             - apply NoDup_singleton. }
           split; [intros c Hc; by apply elem_of_nil in Hc|].
           rewrite length_app. simpl. split; [lia|]. split; lia.
  - unfold tracker_inv. rewrite Hm', Hb, Ha, Ht, Hd. rewrite Hm in Hcount.
    do 2 (split; [done|]).
    split; [intros c Hc; by apply list_elem_of_singleton in Hc as ->|].
    rewrite length_delete by eauto.
    pose proof (lookup_lt_Some _ _ _ Hk). split; [lia|done].
Qed.

Lemma tracker_inv_run settings ltf zones candles :
  (forall c, c ∈ candles -> c ∈ ltf) ->
  forall st st',
    tracker_inv settings ltf zones st ->
    for_each candles (track settings) st = Ok st' ->
    tracker_inv settings ltf zones st'.
Proof.
  induction candles as [|c candles IH]; intros Hsub st st' Hinv H; simpl in H.
  - by injection H as <-.
  - apply bind_Ok in H as (st1 & Hstep & H).
    apply (IH (fun x Hx => Hsub x (list_elem_of_further _ _ _ Hx)) st1 st'); [|done].
    eapply tracker_inv_step; [|exact Hinv|exact Hstep]. apply Hsub. left.
Qed.

(** The invariant holds for the state that the analysis returns from. *)
Lemma analyzeSMC_inv chartData settings r :
  analyzeSMC chartData settings = Ok r ->
  r = SMCAnalysisResult.mk [] [] \/
  exists final zones,
    tracker_inv settings (ChartData.ltf chartData) zones final /\
    r = SMCAnalysisResult.mk (js_sort signal_time_after (Tracker.allTrades final))
          (Tracker.allDrawings final).
Proof.
  intros H. apply analyzeSMC_tracker in H
    as [-> | (activePois & ds & final & Hrun & Hpoi & Hch & ->)]; [by left|].
  right. exists final, (length activePois). split; [|done].
  eapply tracker_inv_run; [| |exact Hrun]; [done|].
  unfold tracker_inv. simpl. split; [constructor|]. split; [constructor|].
  split; [intros c Hc; by apply elem_of_nil in Hc|]. rewrite Hch. split; [lia|]. split; [done|lia].
Qed.

Lemma sorted_distinct_increasing {A} (f : A -> Z) l :
  StronglySorted (fun a b => (f a <= f b)%Z) l ->
  NoDup (map f l) ->
  StronglySorted Z.lt (map f l).
Proof.
  induction 1 as [|a l Hs IH Ha]; intros Hnd; simpl; [constructor|].
  simpl in Hnd. apply NoDup_cons in Hnd as [Hnotin Hnd].
  constructor; [by apply IH|].
  rewrite Forall_forall in Ha. apply Forall_forall. intros t Ht.
  apply list_elem_of_In, in_map_iff in Ht as (b & <- & Hb). apply list_elem_of_In in Hb.
  assert (f a <> f b).
  { intros Heq. apply Hnotin. rewrite Heq. apply list_elem_of_In, in_map, list_elem_of_In, Hb. }
  pose proof (Ha b Hb). lia.
Qed.

Lemma signals_sorted_by_time (allTrades : list TradeSignal.t) :
  StronglySorted
    (fun a b => (TradeSignal.entryTime a <= TradeSignal.entryTime b)%Z)
    (js_sort signal_time_after allTrades).
Proof.
  apply (js_sort_sorted signal_time_after _ (fun _ => True)); unfold signal_time_after.
  - intros a b _ _ H. rewrite Z.gtb_ltb in H. apply Z.ltb_ge in H. lia.
  - intros a b _ _ H. rewrite Z.gtb_ltb in H. apply Z.ltb_lt in H. lia.
  - intros a b c _ _ _. lia.
  - by apply Forall_forall.
Qed.

(** X4. Every signal that [analyzeSMC] returns is taken from a candle of the
    LTF data: a long signal enters at the high of a falling candle and a
    short one at the low of a rising candle, at that candle's time; its
    stop is strictly on the losing side of the entry; and its target lies
    [rrRatio] times the risk beyond the entry. *)
Theorem signals_well_formed chartData settings r :
  analyzeSMC chartData settings = Ok r ->
  Forall (signal_from settings (ChartData.ltf chartData)) (SMCAnalysisResult.trades r).
Proof.
  intros H. apply analyzeSMC_inv in H as [-> | (final & zones & Hinv & ->)]; [constructor|].
  simpl. rewrite js_sort_perm. apply Hinv.
Qed.

Lemma signals_well_formed_witness :
  exists r,
    analyzeSMC market (plain_settings (Fin 1)) = Ok r /\
    length (SMCAnalysisResult.trades r) = 1%nat /\
    Forall (signal_from (plain_settings (Fin 1)) (ChartData.ltf market))
      (SMCAnalysisResult.trades r).
Proof.
  eexists. split; [vm_compute; reflexivity|]. split; [reflexivity|].
  apply (signals_well_formed market (plain_settings (Fin 1))).
  vm_compute. reflexivity.
Defined.

(** X5. The signals that [analyzeSMC] returns are sorted by entry time and no
    two of them share an entry time. *)
Theorem signal_times_increase chartData settings r :
  analyzeSMC chartData settings = Ok r ->
  StronglySorted Z.lt (map TradeSignal.entryTime (SMCAnalysisResult.trades r)).
Proof.
  intros H. apply analyzeSMC_inv in H as [-> | (final & zones & Hinv & ->)]; [constructor|].
  simpl. apply sorted_distinct_increasing; [apply signals_sorted_by_time|].
  destruct Hinv as (_ & Hnd & _).
  change (map TradeSignal.entryTime) with (fmap (M:=list) TradeSignal.entryTime) in *.
  by rewrite js_sort_perm.
Qed.

Lemma signal_times_increase_witness :
  exists r,
    analyzeSMC market (plain_settings (Fin 1)) = Ok r /\
    StronglySorted Z.lt (map TradeSignal.entryTime (SMCAnalysisResult.trades r)).
Proof.
  eexists. split; [vm_compute; reflexivity|].
  apply (signal_times_increase market (plain_settings (Fin 1))).
  vm_compute. reflexivity.
Defined.

(** X6. [analyzeSMC] emits at most one signal for each change of character it
    draws, and draws at most one change of character for each zone (POI)
    it draws. *)
Theorem signals_bounded_by_zones chartData settings r :
  analyzeSMC chartData settings = Ok r ->
  (length (SMCAnalysisResult.trades r)
   <= count_drawings is_choch_drawing (SMCAnalysisResult.drawings r))%nat /\
  (count_drawings is_choch_drawing (SMCAnalysisResult.drawings r)
   <= count_drawings is_poi_drawing (SMCAnalysisResult.drawings r))%nat.
Proof.
  intros H. apply analyzeSMC_inv in H as [-> | (final & zones & Hinv & ->)].
  - simpl. split; reflexivity.
  - simpl. rewrite (Permutation_length (js_sort_perm signal_time_after _)).
    destruct Hinv as (_ & _ & _ & Hcount & Hpoi & Hlen). split; [done|]. lia.
Qed.

Lemma signals_bounded_by_zones_witness :
  exists r,
    analyzeSMC market (plain_settings (Fin 1)) = Ok r /\
    (length (SMCAnalysisResult.trades r)
     <= count_drawings is_choch_drawing (SMCAnalysisResult.drawings r))%nat /\
    (count_drawings is_choch_drawing (SMCAnalysisResult.drawings r)
     <= count_drawings is_poi_drawing (SMCAnalysisResult.drawings r))%nat.
Proof.
  eexists. split; [vm_compute; reflexivity|].
  apply (signals_bounded_by_zones market (plain_settings (Fin 1))).
  vm_compute. reflexivity.
Defined.

(** * More on the backtest *)

Lemma check_close_cases settings candle st :
  check_close settings candle st = st \/
  exists k t outcome exitPrice,
    Backtest.activeTrade st = Some k /\
    Backtest.executedTrades st !! k = Some t /\
    (outcome = Loss /\ exitPrice = ExecutedTrade.slPrice t \/
     outcome = Win /\ exitPrice = ExecutedTrade.tpPrice t) /\
    Num.truthy exitPrice = true /\
    check_close settings candle st = close_trade settings k t candle outcome exitPrice st.
Proof.
  unfold check_close. destruct (Backtest.activeTrade st) as [k|]; [|by left].
  destruct (_ !! k) as [t|] eqn:Ht; [|by left].
  destruct (exit_of_cases t candle) as [(_ & ->) | [(_ & _ & ->) | (_ & _ & ->)]];
    [| |by left].
  - destruct (Num.truthy _) eqn:Htr; [|by left]. right. exists k, t, Loss, (ExecutedTrade.slPrice t).
    do 2 (split; [done|]). split; [by left|]. done.
  - destruct (Num.truthy _) eqn:Htr; [|by left]. right. exists k, t, Win, (ExecutedTrade.tpPrice t).
    do 2 (split; [done|]). split; [by right|]. done.
Qed.

Lemma try_open_filled settings equity candle signal t :
  try_open settings equity candle signal = Some t ->
  signal_of t = signal /\ filled_on candle t /\ exit_recorded t.
Proof.
  unfold try_open. intros H.
  destruct (Candle.time candle <? TradeSignal.entryTime signal)%Z eqn:Htime; [discriminate|].
  apply Z.ltb_ge in Htime.
  destruct (_ || _) eqn:Hentry; [|discriminate].
  destruct (Num.leb (Num.abs _) Num.zero) eqn:Hrisk; [discriminate|].
  match type of H with (if ?b then _ else _) = _ => destruct b end; [discriminate|].
  injection H as <-.
  split; [by destruct signal|]. unfold filled_on, exit_recorded. simpl.
  split; [|done]. do 2 (split; [done|]).
  unfold Num.geb in Hentry. split; [|split; [|done]].
  - apply orb_true_iff in Hentry as [H | H]; repeat (apply andb_true_iff in H as [H ?]); done.
  - apply orb_true_iff in Hentry as [H | H]; repeat (apply andb_true_iff in H as [H ?]); done.
Qed.

Lemma scan_signals_spec settings equity candle signals :
  forall i0 i t,
  scan_signals settings equity candle signals i0 = Some (i, t) ->
  exists signal,
    (i0 <= i)%nat /\ signals !! (i - i0)%nat = Some signal /\
    try_open settings equity candle signal = Some t.
Proof.
  induction signals as [|s rest IH]; intros i0 i t H; simpl in H; [discriminate|].
  destruct (try_open settings equity candle s) as [t'|] eqn:Ht.
  - injection H as <- <-. exists s. rewrite Nat.sub_diag. done.
  - apply IH in H as (signal & Hle & Hl & Hopen). exists signal.
    split; [lia|]. split; [|done].
    replace (i - i0)%nat with (S (i - S i0)) by lia. done.
Qed.


Lemma Num_leb_ltb_trans a b c :
  Num.leb a b = true -> Num.ltb b c = true -> Num.ltb a c = true.
Proof.
  destruct a as [x| | |], b as [y| | |], c as [z| | |]; simpl; try done.
  rewrite Qle_bool_iff. intros Hxy Hyz. apply negb_true_iff in Hyz.
  apply negb_true_iff, not_true_is_false. intros Hzx. apply Qle_bool_iff in Hzx.
  assert (Qle_bool z y = true); [|congruence].
  apply Qle_bool_iff. by eapply Qle_trans.
Qed.

Lemma Qle_bool_lt x y : Qle_bool x y = false <-> (y < x)%Q.
Proof.
  split.
  - intros H. apply Qnot_le_lt. intros Hle. apply Qle_bool_iff in Hle. congruence.
  - intros H. apply not_true_is_false. intros Hle. apply Qle_bool_iff in Hle.
    by apply Qlt_not_le in H.
Qed.

Lemma positive_Fin x : positive (Fin x) = true <-> (0 < x)%Q.
Proof.
  unfold positive, Num.gtb, Num.zero, Num.ltb. rewrite negb_true_iff. apply Qle_bool_lt.
Qed.

Lemma positive_scaled x p :
  positive p = true ->
  positive (Num.mul (Num.div x p) Num.hundred) = true ->
  positive x = true.
Proof.
  destruct p as [p| | |]; try done; destruct x as [x| | |]; try done.
  - intros Hp H. apply positive_Fin in Hp. apply positive_Fin.
    cbn [Num.div] in H.
    destruct (Qeq_bool p 0) eqn:Hp0.
    { apply Qeq_bool_iff in Hp0. rewrite Hp0 in Hp. by apply Qlt_irrefl in Hp. }
    cbn [Num.mul Num.hundred] in H. apply positive_Fin in H.
    rewrite !Qred_correct in H.
    apply Qnot_le_lt. intros Hx.
    assert (0 < / p)%Q by by apply Qinv_lt_0_compat.
    unfold Qdiv in H. nra.
  - intros Hp H. apply positive_Fin in Hp. cbn [Num.div] in H.
    destruct (Qle_bool 0 p) eqn:Hle; [done|].
    apply Qle_bool_lt in Hle. lra.
Qed.

Lemma close_trade_drawdown settings k t candle outcome exitPrice st :
  Num.leb Num.zero (Backtest.maxDrawdown st) = true ->
  Num.leb Num.zero (Backtest.maxDrawdownAmount st) = true ->
  Num.leb Num.zero
    (Backtest.maxDrawdown (close_trade settings k t candle outcome exitPrice st)) = true /\
  Num.leb Num.zero
    (Backtest.maxDrawdownAmount (close_trade settings k t candle outcome exitPrice st)) = true.
Proof.
  intros Hd Ha. unfold close_trade. cbn [Backtest.maxDrawdown Backtest.maxDrawdownAmount].
  set (equity := Num.add (Backtest.equity st) (net_pnl settings t outcome)).
  set (peak := if Num.gtb equity (Backtest.peakEquity st) then equity
               else Backtest.peakEquity st).
  set (dd := if positive peak
             then Num.mul (Num.div (Num.sub peak equity) peak) Num.hundred
             else Num.zero).
  destruct (Num.gtb dd (Backtest.maxDrawdown st)) eqn:Hex; [|done].
  unfold Num.gtb in Hex.
  pose proof (Num_leb_ltb_trans _ _ _ Hd Hex) as Hpos. split.
  - by apply Num_ltb_true.
  - apply Num_ltb_true. unfold dd in Hpos.
    destruct (positive peak) eqn:Hp; [|done].
    by apply (positive_scaled _ peak).
Qed.

Lemma ledger_inv_init settings ltf tradeSignals startingEquity :
  ledger_inv ltf tradeSignals (init settings tradeSignals startingEquity).
Proof.
  unfold ledger_inv, init. simpl. split; [constructor|].
  split; [apply js_sort_perm|]. done.
Qed.

Lemma closed_trade_kept settings t candle outcome exitPrice st (ltf : list Candle.t) :
  (outcome = Loss /\ exitPrice = ExecutedTrade.slPrice t \/
   outcome = Win /\ exitPrice = ExecutedTrade.tpPrice t) ->
  ((exists c, c ∈ ltf /\ filled_on c t) /\ exit_recorded t) ->
  forall t',
    t' = ExecutedTrade.mk (ExecutedTrade.signalTime t) (ExecutedTrade.entryTime t)
           (Some (Candle.time candle)) (ExecutedTrade.entryPrice t) (Some exitPrice)
           outcome (net_pnl settings t outcome)
           (Num.add (Backtest.equity st) (net_pnl settings t outcome))
           (ExecutedTrade.type t) (ExecutedTrade.slPrice t) (ExecutedTrade.tpPrice t)
           (Num.mul (Num.div (net_pnl settings t outcome) (ExecutedTrade.equity t))
              Num.hundred)
           (ExecutedTrade.leverage t) ->
    signal_of t' = signal_of t /\
    (exists c, c ∈ ltf /\ filled_on c t') /\ exit_recorded t'.
Proof.
  intros Hout [(c & Hc & Hfill) _] t' ->. split; [done|]. split.
  - exists c. split; [done|]. exact Hfill.
  - unfold exit_recorded. simpl. destruct Hout as [[-> ->] | [-> ->]]; eauto.
Qed.

Lemma check_close_ledger settings candle ltf tradeSignals st :
  ledger_inv ltf tradeSignals st ->
  ledger_inv ltf tradeSignals (check_close settings candle st).
Proof.
  intros Hinv.
  destruct (check_close_cases settings candle st)
    as [-> | (k & t & outcome & exitPrice & Hk & Ht & Hout & _ & ->)]; [done|].
  destruct Hinv as (Hall & Hperm & Hd & Ha).
  destruct (close_trade_drawdown settings k t candle outcome exitPrice st Hd Ha) as [Hd' Ha'].
  split; [|split; [|done]].
  - unfold close_trade. cbn [Backtest.executedTrades].
    pose proof (Forall_lookup_1 _ _ _ _ Hall Ht) as Hold.
    destruct (closed_trade_kept settings t candle outcome exitPrice st ltf Hout Hold _ eq_refl)
      as (_ & Hnew).
    by apply Forall_insert.
  - unfold close_trade. cbn [Backtest.executedTrades Backtest.pendingSignals].
    rewrite <- Hperm. f_equiv.
    change (map signal_of) with (fmap (M:=list) signal_of).
    rewrite list_fmap_insert. cbn [signal_of ExecutedTrade.signalTime ExecutedTrade.entryPrice
      ExecutedTrade.slPrice ExecutedTrade.tpPrice ExecutedTrade.type].
    fold (signal_of t).
    rewrite list_insert_id; [done|]. by rewrite list_lookup_fmap, Ht.
Qed.

Lemma check_open_opened settings candle st :
  check_open settings candle st = st \/
  exists i t,
    Backtest.activeTrade st = None /\
    scan_signals settings (Backtest.equity st) candle (Backtest.pendingSignals st) 0
      = Some (i, t) /\
    check_open settings candle st
    = Backtest.mk (Backtest.equity st) (Backtest.peakEquity st)
        (Backtest.maxDrawdown st) (Backtest.maxDrawdownAmount st)
        (Backtest.executedTrades st ++ [t])
        (Some (length (Backtest.executedTrades st)))
        (delete i (Backtest.pendingSignals st)).
Proof.
  unfold check_open. destruct (Backtest.activeTrade st); [by left|].
  destruct (scan_signals _ _ _ _ _) as [[i t]|]; [|by left].
  right. by exists i, t.
Qed.

Lemma check_open_ledger settings candle ltf tradeSignals st :
  candle ∈ ltf ->
  ledger_inv ltf tradeSignals st ->
  ledger_inv ltf tradeSignals (check_open settings candle st).
Proof.
  intros Hc Hinv.
  destruct (check_open_opened settings candle st)
    as [-> | (i & t & _ & Hscan & ->)]; [done|].
  destruct Hinv as (Hall & Hperm & Hd & Ha).
  apply scan_signals_spec in Hscan as (signal & _ & Hsig & Hopen).
  rewrite Nat.sub_0_r in Hsig.
  apply try_open_filled in Hopen as (Hof & Hfill & Hexit).
  split; [|split; [|done]]; cbn [Backtest.executedTrades Backtest.pendingSignals].
  - apply Forall_app. split; [done|]. constructor; [|done]. split; [|done]. by exists candle.
  - rewrite <- Hperm, map_app, <- app_assoc. f_equiv. simpl. rewrite Hof.
    symmetry. by apply delete_Permutation.
Qed.

Lemma step_ledger settings candle ltf tradeSignals st :
  candle ∈ ltf ->
  ledger_inv ltf tradeSignals st ->
  ledger_inv ltf tradeSignals (step settings st candle).
Proof. intros. by apply check_open_ledger, check_close_ledger. Qed.

Lemma foldl_step_ledger settings ltf tradeSignals candles :
  (forall c, c ∈ candles -> c ∈ ltf) ->
  forall st, ledger_inv ltf tradeSignals st ->
    ledger_inv ltf tradeSignals (foldl (step settings) st candles).
Proof.
  induction candles as [|c candles IH]; intros Hsub st Hinv; simpl; [done|].
  apply IH; [intros x Hx; apply Hsub; by right|].
  apply step_ledger; [apply Hsub; left | done].
Qed.

Lemma simulate_ledger settings ltfData tradeSignals startingEquity :
  ledger_inv ltfData tradeSignals (simulate settings ltfData tradeSignals startingEquity).
Proof. apply foldl_step_ledger; [done | apply ledger_inv_init]. Qed.

Lemma runBacktest_trades settings ltfData tradeSignals startingEquity :
  BacktestResults.trades (runBacktest settings ltfData tradeSignals startingEquity)
  = Backtest.executedTrades (simulate settings ltfData tradeSignals startingEquity).
Proof. unfold runBacktest, aggregate. by destruct (_ =? 0)%nat. Qed.

Lemma step_trades_grow settings st candle :
  (length (Backtest.executedTrades (step settings st candle))
   <= S (length (Backtest.executedTrades st)))%nat.
Proof.
  unfold step.
  destruct (check_open_opened settings candle (check_close settings candle st))
    as [-> | (i & t & _ & _ & ->)]; simpl.
  - rewrite check_close_length. lia.
  - rewrite length_app, check_close_length. simpl. lia.
Qed.

Lemma foldl_step_trades settings candles :
  forall st,
    (length (Backtest.executedTrades (foldl (step settings) st candles))
     <= length (Backtest.executedTrades st) + length candles)%nat.
Proof.
  induction candles as [|c candles IH]; intros st; simpl; [lia|].
  etrans; [apply IH|]. pose proof (step_trades_grow settings st c). lia.
Qed.

(** X7. [runBacktest] opens each signal at most once and invents none: the
    trades it returns, read back as signals, are distinct entries of
    [tradeSignals]; and it opens at most one trade per LTF candle. *)
Theorem trades_from_signals settings ltfData tradeSignals startingEquity :
  map signal_of
    (BacktestResults.trades (runBacktest settings ltfData tradeSignals startingEquity))
    ⊆+ tradeSignals /\
  (length (BacktestResults.trades (runBacktest settings ltfData tradeSignals startingEquity))
   <= length ltfData)%nat.
Proof.
  rewrite runBacktest_trades. split.
  - destruct (simulate_ledger settings ltfData tradeSignals startingEquity)
      as (_ & Hperm & _).
    etrans; [|apply Permutation_submseteq, Hperm]. by apply submseteq_inserts_r.
  - unfold simulate. etrans; [apply foldl_step_trades|]. simpl. lia.
Qed.

(** X8. In the result of [runBacktest] only the last trade can still be open:
    every trade with another one after it has been closed. *)
Theorem only_last_trade_open settings ltfData tradeSignals startingEquity k t :
  BacktestResults.trades (runBacktest settings ltfData tradeSignals startingEquity) !! k
  = Some t ->
  (S k < length
           (BacktestResults.trades
              (runBacktest settings ltfData tradeSignals startingEquity)))%nat ->
  ExecutedTrade.outcome t <> Open.
Proof.
  rewrite runBacktest_trades.
  destruct (simulate_inv settings ltfData tradeSignals startingEquity)
    as (closed & Hall & _ & Hact).
  intros Hk Hlen.
  assert (Hin : t ∈ closed).
  { destruct (Backtest.activeTrade _).
    - destruct Hact as (_ & t0 & He & _). rewrite He in Hk, Hlen.
      rewrite length_app in Hlen. simpl in Hlen.
      rewrite lookup_app_l in Hk by lia. by eapply list_elem_of_lookup_2.
    - rewrite Hact in Hk. by eapply list_elem_of_lookup_2. }
  rewrite Forall_forall in Hall. specialize (Hall t Hin).
  unfold is_closed in Hall. intros Ho. by rewrite Ho in Hall.
Qed.

Lemma only_last_trade_open_witness :
  exists t,
    BacktestResults.trades
      (runBacktest (plain_settings (Fin 1)) [entry_candle; winning_candle; late_candle]
         [long_signal; second_signal] None) !! 0%nat = Some t /\
    ExecutedTrade.outcome t <> Open.
Proof.
  eexists. split; [vm_compute; reflexivity|].
  eapply (only_last_trade_open (plain_settings (Fin 1))
            [entry_candle; winning_candle; late_candle] [long_signal; second_signal] None 0).
  - vm_compute. reflexivity.
  - vm_compute. lia.
Defined.

(** X9. Every trade that [runBacktest] returns was filled on a candle of the
    LTF data, at that candle's time and not before the time of its signal,
    at an entry price within the candle's range and different from its
    stop; a closed trade has an exit time and exits at its stop (a loss) or
    at its target (a win), and an open trade has neither exit time nor exit
    price. *)
Theorem trades_well_formed settings ltfData tradeSignals startingEquity :
  Forall (fun t => (exists candle, candle ∈ ltfData /\ filled_on candle t) /\
                   exit_recorded t)
    (BacktestResults.trades (runBacktest settings ltfData tradeSignals startingEquity)).
Proof.
  rewrite runBacktest_trades.
  apply (simulate_ledger settings ltfData tradeSignals startingEquity).
Qed.

(** X10. The maximal drawdown that [runBacktest] reports is never negative,
    neither as a percentage nor as an amount. *)
Theorem drawdown_never_negative settings ltfData tradeSignals startingEquity :
  Num.leb Num.zero
    (BacktestResults.maxDrawdown
       (runBacktest settings ltfData tradeSignals startingEquity)) = true /\
  Num.leb Num.zero
    (BacktestResults.maxDrawdownAmount
       (runBacktest settings ltfData tradeSignals startingEquity)) = true.
Proof.
  destruct (simulate_ledger settings ltfData tradeSignals startingEquity)
    as (_ & _ & Hd & Ha).
  unfold runBacktest, aggregate. by destruct (_ =? 0)%nat.
Qed.

(** X11. Without LTF candles or without signals [runBacktest] returns the empty
    result: no trades, every statistic zero, and the final equity equal to
    the capital of the run (the starting equity if one is given, otherwise
    the configured initial capital). *)
Theorem nothing_to_trade settings ltfData tradeSignals startingEquity :
  ltfData = [] \/ tradeSignals = [] ->
  runBacktest settings ltfData tradeSignals startingEquity
  = BacktestResults.mk [] Num.zero Num.zero Num.zero Num.zero Num.zero
      (initialCapitalForRun settings startingEquity) 0.
Proof.
  intros Hempty.
  assert (He : Backtest.executedTrades
                 (simulate settings ltfData tradeSignals startingEquity) = []).
  { destruct Hempty as [-> | ->]; [done|].
    destruct (simulate_ledger settings ltfData [] startingEquity) as (_ & Hperm & _).
    apply Permutation_nil_r in Hperm. apply app_eq_nil in Hperm as [Hm _].
    by apply map_eq_nil in Hm. }
  pose proof (simulate_inv settings ltfData tradeSignals startingEquity) as Hinv.
  apply backtest_inv_closed in Hinv. rewrite He in Hinv. simpl in Hinv.
  unfold runBacktest, aggregate. rewrite He. simpl. by rewrite Hinv.
Qed.

Lemma nothing_to_trade_witness :
  runBacktest (plain_settings (Fin 1)) [] [long_signal] (Some (Fin 500))
  = BacktestResults.mk [] Num.zero Num.zero Num.zero Num.zero Num.zero (Fin 500) 0.
Proof.
  apply (nothing_to_trade (plain_settings (Fin 1)) [] [long_signal] (Some (Fin 500))).
  left. reflexivity.
Defined.

Lemma percentage_bounds (w t : nat) :
  (w <= t)%nat -> (0 < t)%nat ->
  Num.leb Num.zero (Num.mul (Num.div (Num.of_nat w) (Num.of_nat t)) Num.hundred) = true /\
  Num.leb (Num.mul (Num.div (Num.of_nat w) (Num.of_nat t)) Num.hundred) Num.hundred = true.
Proof.
  intros Hw Ht. unfold Num.of_nat, Num.of_Z. cbn [Num.div].
  assert (Htq : (0 < inject_Z (Z.of_nat t))%Q).
  { change 0%Q with (inject_Z 0). rewrite <- Zlt_Qlt. lia. }
  assert (Hwq : (0 <= inject_Z (Z.of_nat w))%Q).
  { change 0%Q with (inject_Z 0). rewrite <- Zle_Qle. lia. }
  assert (Hwt : (inject_Z (Z.of_nat w) <= inject_Z (Z.of_nat t))%Q).
  { rewrite <- Zle_Qle. lia. }
  destruct (Qeq_bool (inject_Z (Z.of_nat t)) 0) eqn:H0.
  { apply Qeq_bool_iff in H0. rewrite H0 in Htq. by apply Qlt_irrefl in Htq. }
  cbn [Num.mul Num.hundred Num.leb Num.zero]. rewrite !Qle_bool_iff, !Qred_correct.
  set (a := inject_Z (Z.of_nat w)) in *. set (b := inject_Z (Z.of_nat t)) in *.
  assert (Hq0 : (0 <= a / b)%Q).
  { apply Qle_shift_div_l; [done|]. by rewrite Qmult_0_l. }
  assert (Hq1 : (a / b <= 1)%Q).
  { apply Qle_shift_div_r; [done|]. by rewrite Qmult_1_l. }
  split; lra.
Qed.

(** X12. The win rate that [runBacktest] reports lies between 0 and 100. *)
Theorem win_rate_is_percentage settings ltfData tradeSignals startingEquity :
  Num.leb Num.zero
    (BacktestResults.winRate (runBacktest settings ltfData tradeSignals startingEquity))
  = true /\
  Num.leb
    (BacktestResults.winRate (runBacktest settings ltfData tradeSignals startingEquity))
    Num.hundred = true.
Proof.
  unfold runBacktest, aggregate.
  set (closed := filter _ (Backtest.executedTrades _)).
  destruct (length closed =? 0)%nat eqn:Hn; [done|].
  apply Nat.eqb_neq in Hn. cbn [BacktestResults.winRate].
  assert (Hpos : (0 <? length closed)%nat = true) by (apply Nat.ltb_lt; lia).
  rewrite Hpos. apply percentage_bounds; [|lia].
  apply length_filter.
Qed.

Lemma filter_none {A} (P : A -> Prop) `{!forall x, Decision (P x)} (l : list A) :
  Forall (fun x => ~ P x) l -> filter P l = [].
Proof.
  induction 1 as [|x l Hx _ IH]; [done|]. by rewrite filter_cons_False.
Qed.

(** X13. When at least one trade was closed and no trade was lost,
    [runBacktest] reports an infinite profit factor. *)
Theorem profit_factor_without_losses settings ltfData tradeSignals startingEquity :
  closedTrades
    (BacktestResults.trades (runBacktest settings ltfData tradeSignals startingEquity))
    <> [] ->
  Forall (fun t => ExecutedTrade.outcome t <> Loss)
    (BacktestResults.trades (runBacktest settings ltfData tradeSignals startingEquity)) ->
  BacktestResults.profitFactor (runBacktest settings ltfData tradeSignals startingEquity)
  = PInf.
Proof.
  rewrite runBacktest_trades. unfold runBacktest, aggregate, closedTrades.
  set (ex := Backtest.executedTrades _).
  intros Hne Hnl.
  destruct (length (filter _ ex) =? 0)%nat eqn:Hn.
  { apply Nat.eqb_eq, length_zero_iff_nil in Hn. done. }
  cbn [BacktestResults.profitFactor].
  rewrite (filter_none (fun t => has_outcome Loss t = true)); [done|].
  apply Forall_forall. intros t Ht. apply list_elem_of_filter in Ht as [_ Ht].
  rewrite Forall_forall in Hnl. specialize (Hnl t Ht).
  unfold has_outcome. by destruct (ExecutedTrade.outcome t).
Qed.

Lemma profit_factor_without_losses_witness :
  BacktestResults.profitFactor
    (runBacktest (plain_settings (Fin 1)) [entry_candle; winning_candle; late_candle]
       [long_signal; second_signal] None) = PInf.
Proof.
  apply (profit_factor_without_losses (plain_settings (Fin 1))
           [entry_candle; winning_candle; late_candle] [long_signal; second_signal] None).
  - vm_compute. discriminate.
  - vm_compute. repeat (apply Forall_cons; split; [discriminate|]). apply Forall_nil_2.
Defined.

(** * More on the optimizer *)

Lemma assignments_length p combo : length (assignments p combo) = sweep_size p.
Proof. destruct p; simpl; apply length_map. Qed.

Lemma flat_map_length_const {A B} (f : A -> list B) n l :
  (forall x, length (f x) = n) -> length (flat_map f l) = (length l * n)%nat.
Proof.
  intros Hf. induction l as [|x l IH]; simpl; [done|].
  rewrite length_app, Hf, IH. lia.
Qed.

Lemma helper_length paramsToOptimize :
  paramsToOptimize <> [] ->
  forall combo,
    length (helper paramsToOptimize combo)
    = foldr Nat.mul 1%nat (map sweep_size paramsToOptimize).
Proof.
  induction paramsToOptimize as [|p rest IH]; intros Hne combo; [done|].
  cbn [helper]. destruct rest as [|q rest].
  - rewrite (flat_map_length_const _ 1); [|done].
    rewrite assignments_length. simpl. lia.
  - rewrite (flat_map_length_const _ (foldr Nat.mul 1%nat (map sweep_size (q :: rest)))).
    + rewrite assignments_length. simpl. lia.
    + intros next. by apply IH.
Qed.

Lemma sweep_of_size {A} (le : A -> A -> bool) (plus : A -> A -> A) fuel key p sw :
  (forall values, sweep_size (key values) = length values) ->
  sweep_of le plus fuel key p = Some sw ->
  exists n, range_size le plus fuel p = Some n /\
            foldr Nat.mul 1%nat (map sweep_size sw) = n /\
            (OptimizerParameter.enabled p = false -> sw = []).
Proof.
  intros Hkey. unfold sweep_of, range_size.
  destruct (OptimizerParameter.enabled p).
  - destruct (range_values _ _ _ _ _ _) as [vs|]; [|done]. simpl.
    intros [= <-]. exists (length vs). simpl. rewrite Hkey. split; [done|]. split; [lia|done].
  - intros [= <-]. exists 1%nat. done.
Qed.

Lemma product_app l1 l2 :
  foldr Nat.mul 1%nat (l1 ++ l2)
  = (foldr Nat.mul 1%nat l1 * foldr Nat.mul 1%nat l2)%nat.
Proof. induction l1 as [|x l1 IH]; simpl; [lia|]. rewrite IH. lia. Qed.

(** The sweeps that [generateCombinations] collects, and its result. *)
Lemma generateCombinations_sweeps fuel optimizerSettings combinations :
  generateCombinations fuel optimizerSettings = Some combinations ->
  exists a b c d,
    sweep_of Num.leb Num.add fuel SweepHtfSwingLookback
      (OptimizerSettings.htfSwingLookback optimizerSettings) = Some a /\
    sweep_of Num.leb Num.add fuel SweepLtfChochLookback
      (OptimizerSettings.ltfChochLookback optimizerSettings) = Some b /\
    sweep_of Num.leb Num.add fuel SweepDiscountZone
      (OptimizerSettings.discountZone optimizerSettings) = Some c /\
    sweep_of Num.leb Num.add fuel SweepRrRatio
      (OptimizerSettings.rrRatio optimizerSettings) = Some d /\
    combinations = match a ++ b ++ c ++ d with
                   | [] => [Params.empty]
                   | ps => helper ps Params.empty
                   end.
Proof.
  unfold generateCombinations.
  destruct (sweep_of Num.leb _ _ SweepHtfSwingLookback _) as [a|]; [|done].
  destruct (sweep_of Num.leb _ _ SweepLtfChochLookback _) as [b|]; [|done].
  destruct (sweep_of Num.leb _ _ SweepDiscountZone _) as [c|]; [|done].
  destruct (sweep_of Num.leb _ _ SweepRrRatio _) as [d|]; [|done].
  intros H. exists a, b, c, d. do 4 (split; [done|]).
  destruct (a ++ b ++ c ++ d); by injection H as <-.
Qed.

(** X14. [generateCombinations] returns the full grid: the number of
    combinations is the product, over the four parameters, of the number
    of values in the range of an enabled parameter and 1 for a disabled
    one. *)
Theorem grid_size fuel optimizerSettings combinations :
  generateCombinations fuel optimizerSettings = Some combinations ->
  exists c1 c2 c3 c4,
    range_size Num.leb Num.add fuel
      (OptimizerSettings.htfSwingLookback optimizerSettings) = Some c1 /\
    range_size Num.leb Num.add fuel
      (OptimizerSettings.ltfChochLookback optimizerSettings) = Some c2 /\
    range_size Num.leb Num.add fuel
      (OptimizerSettings.discountZone optimizerSettings) = Some c3 /\
    range_size Num.leb Num.add fuel
      (OptimizerSettings.rrRatio optimizerSettings) = Some c4 /\
    length combinations = (c1 * c2 * c3 * c4)%nat.
Proof.
  intros H. apply generateCombinations_sweeps in H as (a & b & c & d & Ha & Hb & Hc & Hd & ->).
  apply sweep_of_size in Ha as (c1 & H1 & P1 & _); [|done].
  apply sweep_of_size in Hb as (c2 & H2 & P2 & _); [|done].
  apply sweep_of_size in Hc as (c3 & H3 & P3 & _); [|done].
  apply sweep_of_size in Hd as (c4 & H4 & P4 & _); [|done].
  exists c1, c2, c3, c4. do 4 (split; [done|]).
  assert (Hprod : foldr Nat.mul 1%nat (map sweep_size (a ++ b ++ c ++ d))
                  = (c1 * c2 * c3 * c4)%nat).
  { rewrite !map_app, !product_app, P1, P2, P3, P4. lia. }
  destruct (a ++ b ++ c ++ d) as [|p ps] eqn:Hps.
  - simpl in *. lia.
  - rewrite helper_length; done.
Qed.

Lemma grid_size_witness :
  exists c1 c2 c3 c4,
    range_size Num.leb Num.add 10
      (OptimizerSettings.htfSwingLookback (lookback_grid 3)) = Some c1 /\
    range_size Num.leb Num.add 10
      (OptimizerSettings.ltfChochLookback (lookback_grid 3)) = Some c2 /\
    range_size Num.leb Num.add 10
      (OptimizerSettings.discountZone (lookback_grid 3)) = Some c3 /\
    range_size Num.leb Num.add 10
      (OptimizerSettings.rrRatio (lookback_grid 3)) = Some c4 /\
    3%nat = (c1 * c2 * c3 * c4)%nat.
Proof.
  exact (grid_size 10 (lookback_grid 3)
           [Params.mk (Some (Fin 1)) None None None; Params.mk (Some (Fin 2)) None None None;
            Params.mk (Some (Fin 3)) None None None] eq_refl).
Defined.




Lemma override_empty baseSettings : override baseSettings Params.empty = baseSettings.
Proof. by destruct baseSettings. Qed.

(** X16. With no parameter enabled [runOptimizer] performs exactly one run, on
    the base settings unchanged.  When the analysis of that run completes,
    the run is returned as the only run, with id 0, and as the best run;
    when it raises, [runOptimizer] raises the same error. *)
Theorem nothing_enabled_one_run fuel chartData baseSettings optimizerSettings :
  OptimizerParameter.enabled (OptimizerSettings.htfSwingLookback optimizerSettings) = false ->
  OptimizerParameter.enabled (OptimizerSettings.ltfChochLookback optimizerSettings) = false ->
  OptimizerParameter.enabled (OptimizerSettings.discountZone optimizerSettings) = false ->
  OptimizerParameter.enabled (OptimizerSettings.rrRatio optimizerSettings) = false ->
  runOptimizer fuel chartData baseSettings optimizerSettings
  = Some ([baseSettings],
          match analyzeSMC chartData baseSettings with
          | Ok analysis =>
              let row :=
                OptimizationResultRow.mk Params.empty
                  (runBacktest baseSettings (ChartData.ltf chartData)
                     (SMCAnalysisResult.trades analysis) None) 0 in
              Ok (OptimizationResults.mk [row] (Some row))
          | Throw e => Throw e
          end).
Proof.
  intros H1 H2 H3 H4.
  unfold runOptimizer, generateCombinations, sweep_of. rewrite H1, H2, H3, H4. simpl.
  unfold optimize. simpl. unfold run_one. rewrite override_empty.
  destruct (analyzeSMC chartData baseSettings) as [analysis|e]; reflexivity.
Qed.

Lemma nothing_enabled_one_run_witness :
  (exists analysis,
     analyzeSMC market (plain_settings (Fin 1)) = Ok analysis /\
     let row :=
       OptimizationResultRow.mk Params.empty
         (runBacktest (plain_settings (Fin 1)) (ChartData.ltf market)
            (SMCAnalysisResult.trades analysis) None) 0 in
     runOptimizer 10 market (plain_settings (Fin 1)) idle_grid
     = Some ([plain_settings (Fin 1)], Ok (OptimizationResults.mk [row] (Some row)))) /\
  runOptimizer 10 market (fractional_settings (Fin 1)) idle_grid
  = Some ([fractional_settings (Fin 1)], Throw TypeError).
Proof.
  split.
  - eexists. split; [vm_compute; reflexivity|].
    rewrite (nothing_enabled_one_run 10 market (plain_settings (Fin 1)) idle_grid);
      [vm_compute|..]; reflexivity.
  - rewrite (nothing_enabled_one_run 10 market (fractional_settings (Fin 1)) idle_grid);
      [vm_compute|..]; reflexivity.
Defined.

Lemma assignments_keys p combo next key :
  next ∈ assignments p combo ->
  has_key key next = same_key key (sweep_key p) || has_key key combo.
Proof.
  intros Hin. apply list_elem_of_In in Hin.
  destruct p; simpl in Hin; apply in_map_iff in Hin as (v & <- & _);
    destruct key; simpl; try done; by rewrite bool_decide_eq_true_2.
Qed.

Lemma helper_keys paramsToOptimize key :
  forall combo params,
    params ∈ helper paramsToOptimize combo ->
    has_key key params
    = existsb (fun p => same_key key (sweep_key p)) paramsToOptimize || has_key key combo.
Proof.
  induction paramsToOptimize as [|p rest IH]; intros combo params Hin.
  - by apply elem_of_nil in Hin.
  - cbn [helper] in Hin. apply list_elem_of_In, in_flat_map in Hin as (next & Hnext & Hin).
    apply list_elem_of_In in Hnext. apply (assignments_keys _ _ _ key) in Hnext.
    destruct rest as [|q rest].
    + destruct Hin as [<- | []]. simpl. rewrite Hnext. by rewrite orb_false_r.
    + apply list_elem_of_In, IH in Hin. rewrite Hin, Hnext.
      cbn [existsb]. destruct (same_key key (sweep_key p)), (same_key key (sweep_key q)),
        (existsb _ rest), (has_key key combo); done.
Qed.

Lemma sweep_of_keys {A} (le : A -> A -> bool) (plus : A -> A -> A) fuel key p sw k :
  (forall values, sweep_key (key values) = k) ->
  sweep_of le plus fuel key p = Some sw ->
  forall k', existsb (fun s => same_key k' (sweep_key s)) sw
             = OptimizerParameter.enabled p && same_key k' k.
Proof.
  intros Hkey. unfold sweep_of. destruct (OptimizerParameter.enabled p).
  - destruct (range_values _ _ _ _ _ _); [|done]. intros [= <-] k'. simpl.
    rewrite Hkey. by rewrite orb_false_r.
  - by intros [= <-] k'.
Qed.

(** X17. Every combination of [generateCombinations] assigns a value to
    exactly the enabled parameters: a key is present in it if and only if
    that parameter is enabled. *)
Theorem combinations_set_enabled_keys fuel optimizerSettings combinations params key :
  generateCombinations fuel optimizerSettings = Some combinations ->
  params ∈ combinations ->
  has_key key params = key_enabled optimizerSettings key.
Proof.
  intros H Hin.
  apply generateCombinations_sweeps in H as (a & b & c & d & Ha & Hb & Hc & Hd & ->).
  pose proof (sweep_of_keys _ _ _ SweepHtfSwingLookback _ _ KeyHtfSwingLookback (fun _ => eq_refl) Ha key) as Ka.
  pose proof (sweep_of_keys _ _ _ SweepLtfChochLookback _ _ KeyLtfChochLookback (fun _ => eq_refl) Hb key) as Kb.
  pose proof (sweep_of_keys _ _ _ SweepDiscountZone _ _ KeyDiscountZone (fun _ => eq_refl) Hc key) as Kc.
  pose proof (sweep_of_keys _ _ _ SweepRrRatio _ _ KeyRrRatio (fun _ => eq_refl) Hd key) as Kd.
  assert (Hall : existsb (fun s => same_key key (sweep_key s)) (a ++ b ++ c ++ d)
                 = key_enabled optimizerSettings key).
  { rewrite !existsb_app, Ka, Kb, Kc, Kd.
    destruct key; simpl; rewrite ?andb_false_r, ?andb_true_r, ?orb_false_r; done. }
  destruct (a ++ b ++ c ++ d) as [|p ps] eqn:Hps.
  - apply list_elem_of_singleton in Hin as ->. rewrite <- Hall. by destruct key.
  - apply (helper_keys _ key) in Hin. rewrite Hin, Hall.
    destruct key; simpl; by rewrite orb_false_r.
Qed.

Lemma combinations_set_enabled_keys_witness :
  has_key KeyHtfSwingLookback (Params.mk (Some (Fin 2)) None None None) = true /\
  has_key KeyRrRatio (Params.mk (Some (Fin 2)) None None None) = false.
Proof.
  split.
  - apply (combinations_set_enabled_keys 10 (lookback_grid 3) _
             (Params.mk (Some (Fin 2)) None None None) KeyHtfSwingLookback eq_refl).
    right. left.
  - apply (combinations_set_enabled_keys 10 (lookback_grid 3) _
             (Params.mk (Some (Fin 2)) None None None) KeyRrRatio eq_refl).
    right. left.
Defined.

Lemma runOptimizer_runs fuel chartData baseSettings optimizerSettings started res :
  runOptimizer fuel chartData baseSettings optimizerSettings = Some (started, Ok res) ->
  exists rows,
    OptimizationResults.runs res
    = js_sort (fun a b => positive
                            (compare_runs (OptimizerSettings.targetMetric optimizerSettings) a b))
        rows /\
    OptimizationResults.bestRun res = head (OptimizationResults.runs res).
Proof.
  unfold runOptimizer, optimize.
  destruct (generateCombinations fuel optimizerSettings) as [combinations|]; [|done].
  simpl. destruct (500 <? length combinations)%nat; [done|].
  destruct (run_all _ _ _ _ _) as [st [runs|e]]; simpl; [|done].
  destruct runs as [|row runs'] eqn:Hr.
  - intros [= _ <-]. by exists [].
  - rewrite <- Hr. intros [= _ <-]. by exists runs.
Qed.

Lemma ranks_before_refl metric row :
  Num.is_nan (run_metric metric row) = false -> ranks_before metric row row.
Proof.
  unfold ranks_before, Num.geb. intros Hn.
  assert (Num.leb (run_metric metric row) (run_metric metric row) = true).
  { destruct (run_metric metric row) as [x| | |]; simpl; try done.
    apply Qle_bool_iff, Qle_refl. }
  by destruct (lower_is_better metric).
Qed.

(** X18. When no run has [NaN] as its target metric, the best run that
    [runOptimizer] returns is at least as good as every run: its metric is
    the smallest for the two drawdown metrics, [maxDrawdown] and
    [maxDrawdownAmount], and the greatest for every other metric. *)
Theorem best_run_is_best fuel chartData baseSettings optimizerSettings started res best run :
  runOptimizer fuel chartData baseSettings optimizerSettings = Some (started, Ok res) ->
  comparable (OptimizerSettings.targetMetric optimizerSettings)
    (OptimizationResults.runs res) ->
  OptimizationResults.bestRun res = Some best ->
  run ∈ OptimizationResults.runs res ->
  ranks_before (OptimizerSettings.targetMetric optimizerSettings) best run.
Proof.
  intros H Hc Hbest Hrun.
  apply runOptimizer_runs in H as (rows & Hruns & Hhead).
  rewrite Hhead in Hbest.
  assert (Hs : StronglySorted (ranks_before (OptimizerSettings.targetMetric optimizerSettings))
                 (OptimizationResults.runs res)).
  { rewrite Hruns. apply ranks_before_sorted.
    unfold comparable in *. rewrite Hruns in Hc. by rewrite js_sort_perm in Hc. }
  destruct (OptimizationResults.runs res) as [|first rest]; [done|].
  injection Hbest as ->. apply StronglySorted_inv in Hs as [_ Hfirst].
  apply elem_of_cons in Hrun as [-> | Hrun].
  - apply ranks_before_refl. unfold comparable in Hc. by apply Forall_cons in Hc as [Hc _].
  - rewrite Forall_forall in Hfirst. by apply Hfirst.
Qed.

Lemma best_run_is_best_witness :
  exists started res best run,
    runOptimizer 10 market (plain_settings (Fin 1)) (ratio_grid MetricNetProfitPercent)
    = Some (started, Ok res) /\
    OptimizationResults.bestRun res = Some best /\
    OptimizationResults.runs res !! 1%nat = Some run /\
    ranks_before MetricNetProfitPercent best run.
Proof.
  eexists _, _, _, _. split; [vm_compute; reflexivity|].
  split; [reflexivity|]. split; [reflexivity|].
  eapply (best_run_is_best 10 market (plain_settings (Fin 1))
            (ratio_grid MetricNetProfitPercent)).
  - vm_compute. reflexivity.
  - repeat (apply Forall_cons; split; [reflexivity|]). apply Forall_nil_2.
  - reflexivity.
  - right. left.
Defined.

Lemma range_values_nat fuel start end_ step values :
  range_values Nat.leb Nat.add fuel start end_ step = Some values ->
  values = map (fun k => (start + k * step)%nat) (seq 0 (length values)) /\
  Forall (fun v => (start <= v <= end_)%nat) values /\
  (end_ < start + length values * step)%nat.
Proof.
  revert start values. induction fuel as [|fuel IH]; intros start values H; [done|].
  rewrite range_values_S in H. destruct (start <=? end_)%nat eqn:Hle.
  - apply Nat.leb_le in Hle.
    destruct (range_values _ _ fuel _ _ _) as [rest|] eqn:Hrest; [|done].
    injection H as <-. apply IH in Hrest as (Hvals & Hall & Hend).
    cbn [length]. split; [|split].
    + cbn [seq map]. f_equal; [lia|]. rewrite <- seq_shift, map_map.
      rewrite Hvals at 1. apply map_ext. intros k. lia.
    + constructor; [lia|]. eapply Forall_impl; [exact Hall|]. simpl. intros v Hv. lia.
    + lia.
  - apply Nat.leb_gt in Hle. injection H as <-. simpl. split; [done|]. split; [constructor|lia].
Qed.

Lemma range_values_of_nat fuel start end_ step :
  range_values Num.leb Num.add fuel (Num.of_nat start) (Num.of_nat end_) (Num.of_nat step)
  = option_map (map Num.of_nat) (range_values Nat.leb Nat.add fuel start end_ step).
Proof.
  revert start. induction fuel as [|fuel IH]; intros start; [done|].
  rewrite !range_values_S, of_nat_leb. destruct (start <=? end_)%nat; [|done].
  rewrite of_nat_add, IH. destruct (range_values Nat.leb Nat.add fuel _ _ _); reflexivity.
Qed.

(** X19. The values that the range loop of [generateCombinations] collects for
    a parameter whose start, end and step are natural numbers are [start],
    [start + step], [start + 2 * step], ..., all natural numbers between
    [start] and [end], and the next value of the sequence would be above
    [end]. *)
Theorem integer_range_values fuel start end_ step values :
  range_values Num.leb Num.add fuel (Num.of_nat start) (Num.of_nat end_) (Num.of_nat step)
  = Some values ->
  values = map (fun k => Num.of_nat (start + k * step)) (seq 0 (length values)) /\
  Forall (fun v => exists n, v = Num.of_nat n /\ (start <= n <= end_)%nat) values /\
  (end_ < start + length values * step)%nat.
Proof.
  rewrite range_values_of_nat. intros H.
  destruct (range_values Nat.leb Nat.add fuel start end_ step) as [ns|] eqn:Hns; [|done].
  injection H as <-. apply range_values_nat in Hns as (Hvals & Hall & Hend).
  rewrite length_map. split; [|split; [|done]].
  - rewrite Hvals at 1. rewrite map_map. reflexivity.
  - apply Forall_map. eapply Forall_impl; [exact Hall|]. simpl. intros n Hn. eauto.
Qed.

Lemma integer_range_values_witness :
  [Fin 1; Fin 3; Fin 5] = map (fun k => Num.of_nat (1 + k * 2)) (seq 0 3) /\
  Forall (fun v => exists n, v = Num.of_nat n /\ (1 <= n <= 6)%nat) [Fin 1; Fin 3; Fin 5] /\
  (6 < 1 + 3 * 2)%nat.
Proof.
  exact (integer_range_values 10 1 6 2 [Fin 1; Fin 3; Fin 5] eq_refl).
Defined.

(** * The retry loop *)

Lemma retry_loop_fails {T} (fn : nat -> Attempt T) attempts delay remaining :
  (remaining <= attempts)%nat ->
  (forall j, (attempts - remaining <= j < attempts)%nat -> failed (fn j) = true) ->
  retry_loop fn attempts delay remaining =
    (None,
     flat_map (fun j => Call j :: if (j <? attempts - 1)%nat then [Wait delay] else [])
       (seq (attempts - remaining) remaining)).
Proof.
  induction remaining as [|r IH]; intros Hle Hfail; [done|].
  cbn [retry_loop seq flat_map].
  pose proof (Hfail (attempts - S r)%nat ltac:(lia)) as Hf.
  rewrite IH; [|lia|intros j Hj; apply Hfail; lia].
  replace (S (attempts - S r)) with (attempts - r)%nat by lia.
  destruct (fn (attempts - S r)%nat) as [[v|]|]; [done| |]; reflexivity.
Qed.

Lemma retry_loop_succeeds {T} (fn : nat -> Attempt T) attempts delay remaining i v :
  (remaining <= attempts)%nat -> (attempts - remaining <= i < attempts)%nat ->
  fn i = Resolved (Some v) ->
  (forall j, (attempts - remaining <= j < i)%nat -> failed (fn j) = true) ->
  retry_loop fn attempts delay remaining =
    (Some v,
     flat_map (fun j => [Call j; Wait delay]) (seq (attempts - remaining) (i - (attempts - remaining)))
     ++ [Call i]).
Proof.
  induction remaining as [|r IH]; intros Hle Hi Hv Hfail; [lia|].
  cbn [retry_loop].
  destruct (decide (i = attempts - S r)%nat) as [->|Hne].
  - rewrite Hv, Nat.sub_diag. reflexivity.
  - pose proof (Hfail (attempts - S r)%nat ltac:(lia)) as Hf.
    rewrite IH; [|lia|lia|done|intros j Hj; apply Hfail; lia].
    replace (i - (attempts - S r))%nat with (S (i - (attempts - r)))%nat by lia.
    cbn [seq flat_map].
    replace (S (attempts - S r)) with (attempts - r)%nat by lia.
    replace (attempts - S r <? attempts - 1)%nat with true
      by (symmetry; apply Nat.ltb_lt; lia).
    destruct (fn (attempts - S r)%nat) as [[w|]|]; [done| |]; reflexivity.
Qed.

(** Every run of the loop is one of the two above. *)
Lemma first_success {T} (fn : nat -> Attempt T) n :
  (forall j, (j < n)%nat -> failed (fn j) = true)
  \/ exists i v, (i < n)%nat /\ fn i = Resolved (Some v)
       /\ forall j, (j < i)%nat -> failed (fn j) = true.
Proof.
  induction n as [|n [IH|(i & v & Hi & Hv & Hf)]].
  - left. lia.
  - destruct (fn n) as [[v|]|] eqn:Hn.
    + right. exists n, v. split; [lia|]. split; [done|]. intros j Hj. apply IH, Hj.
    + left. intros j Hj. destruct (decide (j = n)) as [->|]; [by rewrite Hn|apply IH; lia].
    + left. intros j Hj. destruct (decide (j = n)) as [->|]; [by rewrite Hn|apply IH; lia].
  - right. exists i, v. split; [lia|done].
Qed.







Lemma retry_succeeds_at {T} (fn : nat -> Attempt T) attempts delay i v :
  (i < attempts)%nat ->
  fn i = Resolved (Some v) ->
  (forall j, (j < i)%nat -> failed (fn j) = true) ->
  retry fn attempts delay
  = (Some v, flat_map (fun j => [Call j; Wait delay]) (seq 0 i) ++ [Call i]).
Proof.
  intros Hi Hv Hf. unfold retry.
  rewrite (retry_loop_succeeds fn attempts delay attempts i v); try done; try lia.
  - by rewrite Nat.sub_diag, Nat.sub_0_r.
  - intros j Hj. apply Hf. lia.
Qed.

Lemma retry_fails_all {T} (fn : nat -> Attempt T) attempts delay :
  (forall j, (j < attempts)%nat -> failed (fn j) = true) ->
  retry fn attempts delay
  = (None,
     flat_map (fun j => Call j :: if (j <? attempts - 1)%nat then [Wait delay] else [])
       (seq 0 attempts)).
Proof.
  intros Hf. unfold retry. rewrite retry_loop_fails; [|lia|intros j Hj; apply Hf; lia].
  by rewrite Nat.sub_diag.
Qed.

(** X20. [retry] returns the first result that is not [null]: if call [i] is
    the first to resolve to a value, [retry] returns that value after
    exactly the calls [0..i], with one pause of [delay] after each of the
    calls before it; a call that fails with an exception counts like one
    that resolves to [null]. *)
Theorem retry_returns_first_result {T} (fn : nat -> Attempt T) attempts delay i v :
  (i < attempts)%nat ->
  fn i = Resolved (Some v) ->
  (forall j, (j < i)%nat -> failed (fn j) = true) ->
  retry fn attempts delay
  = (Some v, flat_map (fun j => [Call j; Wait delay]) (seq 0 i) ++ [Call i]).
Proof.
  intros Hi Hv Hf.
  pose proof (retry_succeeds_at fn attempts delay i v Hi Hv Hf) as Hrun.
  rewrite Hrun. reflexivity.
Qed.

Lemma retry_returns_first_result_witness :
  retry flaky 5 (Fin 1000)
  = (Some 7%nat, [Call 0; Wait (Fin 1000); Call 1; Wait (Fin 1000); Call 2]).
Proof.
  apply (retry_returns_first_result flaky 5 (Fin 1000) 2 7).
  - lia.
  - reflexivity.
  - intros [|[|j]] Hj; [reflexivity|reflexivity|lia].
Defined.

(** X21. [retry] gives up with [null] exactly when each of its [attempts] calls
    fails (by resolving to [null] or with an exception); with no attempts
    allowed it returns [null] at once. *)
Theorem retry_gives_up {T} (fn : nat -> Attempt T) attempts delay :
  (retry fn attempts delay).1 = None
  <-> forall j, (j < attempts)%nat -> failed (fn j) = true.
Proof.
  split.
  - intros Hnone. destruct (first_success fn attempts) as [Hf|(i & v & Hi & Hv & Hf)]; [done|].
    rewrite (retry_succeeds_at fn attempts delay i v) in Hnone; done.
  - intros Hf. by rewrite retry_fails_all.
Qed.


(** * Order sizing *)

Lemma Math_max_floor a b : Num.is_nan (Math_max a b) = false -> Num.leb a (Math_max a b) = true.
Proof.
  destruct a as [x| | |], b as [y| | |]; cbn; try done.
  - destruct (Qle_bool y x) eqn:Hyx; cbn; intros _.
    + apply Qle_bool_iff. apply Qle_refl.
    + by apply Qle_bool_false.
  - intros _. apply Qle_bool_iff. apply Qle_refl.
Qed.

(** X23. An order sent to an exchange never asks for a leverage below 1: the
    leverage that [sendOrderToCoinEx] and [sendOrderToBinance] compute is
    at least 1 whenever it is a number. *)
Theorem order_leverage_at_least_one signal settings currentEquity size leverage :
  order_sizing signal settings currentEquity = Some (size, leverage) ->
  Num.is_nan leverage = false ->
  Num.leb Num.one leverage = true.
Proof.
  unfold order_sizing. intros Hs Hnan.
  destruct (Num.leb _ Num.zero); [done|].
  assert (leverage = Math_max Num.one (Num.ceil (Num.div (Num.mul (Num.div (Num.mul currentEquity
    (Num.div (Settings.orderSizePercent settings) Num.hundred)) (Num.abs (Num.sub
    (TradeSignal.entryPrice signal) (TradeSignal.stopLoss signal))))
    (TradeSignal.entryPrice signal)) currentEquity))) as -> by congruence.
  by apply Math_max_floor.
Qed.

Lemma order_leverage_at_least_one_witness :
  order_sizing long_signal (plain_settings Num.zero) (Fin 1000) = Some (Fin 0, Fin 1) /\
  Num.leb Num.one (Fin 1) = true.
Proof.
  split; [reflexivity|].
  apply (order_leverage_at_least_one long_signal (plain_settings Num.zero) (Fin 1000) (Fin 0));
    reflexivity.
Defined.

(** X24. The order functions size a signal as the backtest does: whenever the
    backtest opens a trade for a signal at some equity,
    [sendOrderToBinance] with both keys set accepts the same signal at that
    equity, and the leverage of the order is the leverage of the backtest
    trade, raised to 1 if it is below. *)
Theorem order_matches_backtest settings equity candle signal trade keys :
  try_open settings equity candle signal = Some trade ->
  is_empty (ApiKeys.accessId keys) = false ->
  is_empty (ApiKeys.secretKey keys) = false ->
  OrderReply.success (sendOrderToBinance signal settings keys equity) = true
  /\ exists size,
       order_sizing signal settings equity
       = Some (size, Math_max Num.one (ExecutedTrade.leverage trade)).
Proof.
  intros Hopen Hid Hkey. unfold sendOrderToBinance, order_sizing. rewrite Hid, Hkey. cbn [orb].
  unfold try_open in Hopen.
  destruct (Candle.time candle <? TradeSignal.entryTime signal)%Z; [done|].
  destruct (_ || _); [|done].
  destruct (Num.leb (Num.abs _) Num.zero); [done|].
  destruct (Settings.filterByCommission settings && _); [done|].
  injection Hopen as <-. cbn. split; [done|]. eexists. reflexivity.
Qed.

Lemma order_matches_backtest_witness :
  exists trade,
    try_open (plain_settings Num.zero) (Fin 1000) entry_candle long_signal = Some trade /\
    ExecutedTrade.leverage trade = Fin 0 /\
    OrderReply.success
      (sendOrderToBinance long_signal (plain_settings Num.zero) demo_keys (Fin 1000)) = true /\
    exists size,
      order_sizing long_signal (plain_settings Num.zero) (Fin 1000)
      = Some (size, Math_max Num.one (ExecutedTrade.leverage trade)).
Proof.
  eexists. split; [reflexivity|]. split; [reflexivity|].
  apply (order_matches_backtest (plain_settings Num.zero) (Fin 1000) entry_candle long_signal
           _ demo_keys); reflexivity.
Defined.

(** * The signature *)

Section Bits.
Local Open Scope Z_scope.

Lemma ToInt32_range x : - 2 ^ 31 <= ToInt32 x < 2 ^ 31.
Proof. unfold ToInt32. Z.div_mod_to_equations. lia. Qed.

Lemma ToInt32_small x : - 2 ^ 31 <= x < 2 ^ 31 -> ToInt32 x = x.
Proof. unfold ToInt32. intros Hx. Z.div_mod_to_equations. lia. Qed.

Lemma ToInt32_eq x r k : - 2 ^ 31 <= r < 2 ^ 31 -> r = x + k * 2 ^ 32 -> ToInt32 x = r.
Proof. unfold ToInt32. intros Hr ->. Z.div_mod_to_equations. lia. Qed.

Lemma ToInt32_idem x : ToInt32 (ToInt32 x) = ToInt32 x.
Proof. apply ToInt32_small, ToInt32_range. Qed.

Lemma land_high a n : 0 <= n -> Z.land a (- 2 ^ n) = 2 ^ n * (a / 2 ^ n).
Proof.
  intros Hn. replace (- 2 ^ n) with (Z.lnot (Z.ones n)).
  - rewrite <- Z.ldiff_land, Z.ldiff_ones_r by done.
    rewrite Z.shiftl_mul_pow2, Z.shiftr_div_pow2 by done. lia.
  - rewrite Z.ones_equiv. unfold Z.lnot. lia.
Qed.

Lemma land_low a n : 0 <= n -> Z.land a (2 ^ n - 1) = a mod 2 ^ n.
Proof. intros Hn. rewrite <- Z.land_ones by done. by rewrite Z.ones_equiv, Z.sub_1_r. Qed.

Lemma land_bit a n : 0 <= n -> Z.land a (2 ^ n) = a mod 2 ^ (n + 1) - a mod 2 ^ n.
Proof.
  intros Hn. rewrite <- !land_low by lia.
  assert (Hsplit : 2 ^ (n + 1) - 1 = Z.lor (2 ^ n - 1) (2 ^ n)).
  { assert (Hdis : Z.land (2 ^ n - 1) (2 ^ n) = 0).
    { rewrite Z.land_comm, land_low by done. apply Z.mod_same. lia. }
    pose proof (Z.add_lor_land (2 ^ n - 1) (2 ^ n)) as Hadd. rewrite Hdis in Hadd.
    rewrite Z.pow_add_r by lia. lia. }
  rewrite Hsplit, Z.land_lor_distr_r.
  pose proof (Z.add_lor_land (Z.land a (2 ^ n - 1)) (Z.land a (2 ^ n))) as Hadd.
  replace (Z.land (Z.land a (2 ^ n - 1)) (Z.land a (2 ^ n))) with 0 in Hadd; [lia|].
  rewrite Z.land_assoc, (Z.land_comm (Z.land a _) a), Z.land_assoc, Z.land_diag.
  rewrite <- Z.land_assoc.
  replace (Z.land (2 ^ n - 1) (2 ^ n)) with 0; [by rewrite Z.land_0_r|].
  rewrite Z.land_comm, land_low by done. symmetry. apply Z.mod_same. lia.
Qed.

Lemma lxor_arith a b : Z.lxor a b = a + b - 2 * Z.land a b.
Proof. pose proof (Z.add_lxor_2land a b). lia. Qed.

Lemma lor_arith a b : Z.lor a b = a + b - Z.land a b.
Proof. pose proof (Z.add_lor_land a b). lia. Qed.

End Bits.

Section AddUnsigned.
Local Open Scope Z_scope.

Lemma band_sign x : band x 0x80000000 = 2 ^ 31 * (ToInt32 x / 2 ^ 31).
Proof. unfold band. change (ToInt32 0x80000000) with (- 2 ^ 31). by apply land_high. Qed.

Lemma band_bit30 x : band x 0x40000000 = ToInt32 x mod 2 ^ 31 - ToInt32 x mod 2 ^ 30.
Proof. unfold band. change (ToInt32 0x40000000) with (2 ^ 30). by apply (land_bit _ 30). Qed.

Lemma band_low30 x : band x 0x3FFFFFFF = ToInt32 x mod 2 ^ 30.
Proof. unfold band. change (ToInt32 0x3FFFFFFF) with (2 ^ 30 - 1). by apply land_low. Qed.

Lemma ToInt32_congr u v : (u - v) mod 2 ^ 32 = 0 -> ToInt32 u = ToInt32 v.
Proof. unfold ToInt32. intros H. Z.div_mod_to_equations. lia. Qed.

Lemma ToInt32_shift u v k : u = v + k * 2 ^ 32 -> ToInt32 u = ToInt32 v.
Proof. intros ->. apply ToInt32_congr. replace (v + k * 2 ^ 32 - v) with (k * 2 ^ 32) by lia. apply Z.mod_mul. lia. Qed.

Lemma ToInt32_add_l a b : ToInt32 (ToInt32 a + b) = ToInt32 (a + b).
Proof. apply ToInt32_congr. unfold ToInt32. Z.div_mod_to_equations. lia. Qed.

Lemma bxor_sign a m : m = 0 \/ m = - 2 ^ 31 -> bxor a m = ToInt32 (a + m).
Proof.
  unfold bxor. pose proof (ToInt32_range a) as Ha. intros [-> | ->].
  - change (ToInt32 0) with 0. by rewrite Z.lxor_0_r, Z.add_0_r.
  - change (ToInt32 (- 2 ^ 31)) with (- 2 ^ 31).
    rewrite lxor_arith, land_high by done.
    rewrite (ToInt32_congr (a + - 2 ^ 31) (ToInt32 a + - 2 ^ 31)).
    2:{ unfold ToInt32. Z.div_mod_to_equations. lia. }
    symmetry. destruct (Z.lt_ge_cases (ToInt32 a) 0) as [Hneg | Hpos].
    + apply (ToInt32_eq _ _ 1); Z.div_mod_to_equations; lia.
    + apply (ToInt32_eq _ _ 0); Z.div_mod_to_equations; lia.
Qed.

Lemma bxor_bit30 a : bxor a 0x40000000
  = ToInt32 a + 2 ^ 30 - 2 * (ToInt32 a mod 2 ^ 31 - ToInt32 a mod 2 ^ 30).
Proof.
  unfold bxor. change (ToInt32 0x40000000) with (2 ^ 30).
  by rewrite lxor_arith, (land_bit _ 30).
Qed.

Lemma bxor_top a : bxor a 0xC0000000
  = ToInt32 a - 2 ^ 30 - 2 * (2 ^ 30 * (ToInt32 a / 2 ^ 30)).
Proof.
  unfold bxor. change (ToInt32 0xC0000000) with (- 2 ^ 30).
  rewrite lxor_arith, land_high by done. lia.
Qed.

Lemma nonzero_masks a b :
  (a = 0 \/ a = 2 ^ 30) -> (b = 0 \/ b = 2 ^ 30) ->
  nonzero (band a b) = bool_decide (a = 2 ^ 30 /\ b = 2 ^ 30)
  /\ nonzero (bor a b) = bool_decide (a = 2 ^ 30 \/ b = 2 ^ 30).
Proof. by intros [-> | ->] [-> | ->]. Qed.

(** X25. [addUnsigned], which the source builds from 30-bit halves and
    exclusive-ors, is addition modulo 2^32: for all integers it returns the
    sum of its arguments as a signed 32-bit integer. *)
Theorem addUnsigned_is_addition x y : MD5.addUnsigned x y = ToInt32 (x + y).
Proof.
  unfold MD5.addUnsigned.
  rewrite (band_sign x), (band_sign y), (band_bit30 x), (band_bit30 y),
    (band_low30 x), (band_low30 y).
  pose proof (ToInt32_range x) as HX. pose proof (ToInt32_range y) as HY.
  assert (Hxy : (x + y - (ToInt32 x + ToInt32 y)) mod 2 ^ 32 = 0).
  { unfold ToInt32. Z.div_mod_to_equations. lia. }
  rewrite (ToInt32_congr _ _ Hxy). clear Hxy.
  generalize dependent (ToInt32 x). generalize dependent (ToInt32 y).
  clear x y. intros Y HY X HX.
  remember (X mod 2 ^ 31 - X mod 2 ^ 30) as lX4 eqn:HlX4.
  remember (Y mod 2 ^ 31 - Y mod 2 ^ 30) as lY4 eqn:HlY4.
  remember (2 ^ 31 * (X / 2 ^ 31)) as lX8 eqn:HlX8.
  remember (2 ^ 31 * (Y / 2 ^ 31)) as lY8 eqn:HlY8.
  remember (X mod 2 ^ 30 + Y mod 2 ^ 30) as lResult eqn:HlResult.
  assert (HX4 : lX4 = 0 \/ lX4 = 2 ^ 30) by (Z.div_mod_to_equations; lia).
  assert (HY4 : lY4 = 0 \/ lY4 = 2 ^ 30) by (Z.div_mod_to_equations; lia).
  assert (HX8 : lX8 = 0 \/ lX8 = - 2 ^ 31) by (Z.div_mod_to_equations; lia).
  assert (HY8 : lY8 = 0 \/ lY8 = - 2 ^ 31) by (Z.div_mod_to_equations; lia).
  assert (HL : 0 <= lResult < 2 ^ 31) by (Z.div_mod_to_equations; lia).
  assert (HLs : ToInt32 lResult = lResult) by (apply ToInt32_small; lia).
  destruct (nonzero_masks lX4 lY4 HX4 HY4) as [-> ->].
  rewrite !(bxor_sign _ lY8 HY8), !(bxor_sign _ lX8 HX8).
  change (bxor lResult 0x80000000) with (bxor lResult (- 2 ^ 31)).
  rewrite (bxor_sign lResult (- 2 ^ 31)) by (by right).
  rewrite bxor_bit30, bxor_top, band_bit30, HLs.
  rewrite !ToInt32_add_l, (ToInt32_small (lResult + - 2 ^ 31)) by lia.
  assert (HXsplit : X = lX8 + lX4 + X mod 2 ^ 30) by (Z.div_mod_to_equations; lia).
  assert (HYsplit : Y = lY8 + lY4 + Y mod 2 ^ 30) by (Z.div_mod_to_equations; lia).
  assert (HLmod : lResult mod 2 ^ 31 = lResult) by (Z.div_mod_to_equations; lia).
  assert (HLbit : lResult / 2 ^ 30 = 0 /\ lResult mod 2 ^ 30 = lResult
                  \/ lResult / 2 ^ 30 = 1 /\ lResult mod 2 ^ 30 = lResult - 2 ^ 30)
    by (Z.div_mod_to_equations; lia).
  rewrite HLmod. unfold nonzero.
  assert (Hshift : forall u, (exists k, -2 <= k <= 2 /\ u = X + Y + k * 2 ^ 32) ->
                             ToInt32 u = ToInt32 (X + Y)).
  { intros u (k & _ & ->). by apply (ToInt32_shift _ _ k). }
  clear HlX4 HlY4 HlX8 HlY8.
  repeat case_bool_decide; [| destruct (Z.eqb_spec (lResult - lResult mod 2 ^ 30) 0) as [Hbit | Hbit] | ].
  all: cbn [negb]; apply Hshift.
  all: destruct HX8 as [HX8 | HX8], HY8 as [HY8 | HY8], HLbit as [[HLq HLr] | [HLq HLr]].
  all: first [ exists 0; lia | exists 1; lia | exists (-1); lia | exists 2; lia | exists (-2); lia ].
Qed.

End AddUnsigned.

(** ** The digest *)

(** The model reproduces the digests of the test suite of RFC 1321. *)
Example md5_test_suite :
  MD5.md5 (code_units "") = "d41d8cd98f00b204e9800998ecf8427e"%string
  /\ MD5.md5 (code_units "a") = "0cc175b9c0f1b6a831c399e269772661"%string
  /\ MD5.md5 (code_units "abc") = "900150983cd24fb0d6963f7d28e17f72"%string
  /\ MD5.md5 (code_units "message digest") = "f96b697d7cb7938d525a2f31aaf161d0"%string
  /\ MD5.md5 (code_units "abcdefghijklmnopqrstuvwxyz")
     = "c3fcd3d76192e4007dfb496cca67e13b"%string.
Proof. vm_compute. repeat split. Qed.


Lemma list_ascii_app s t :
  list_ascii_of_string (s ++ t) = list_ascii_of_string s ++ list_ascii_of_string t.
Proof. induction s as [|c s IH]; [done|]. cbn. by rewrite IH. Qed.

Lemma list_ascii_lower s :
  list_ascii_of_string (toLowerCase s) = map lower (list_ascii_of_string s).
Proof. induction s as [|c s IH]; [done|]. cbn. by rewrite IH. Qed.

Lemma lower_hex_digit c : is_hex_digit c = true -> lower c = c.
Proof. by destruct c as [[] [] [] [] [] [] [] []]. Qed.

Lemma map_lower_hex l : Forall (fun c => is_hex_digit c = true) l -> map lower l = l.
Proof.
  induction 1 as [|c l Hc _ IH]; [done|]. cbn [map]. by rewrite IH, lower_hex_digit.
Qed.

Lemma count_up_In n start c :
  (start <= c < start + Z.of_nat n)%Z -> In c (count_up n start).
Proof.
  revert start. induction n as [|n IH]; intros start Hc; [lia|].
  cbn [count_up]. destruct (Z.eq_dec start c) as [->|Hne]; [by left|].
  right. apply IH. lia.
Qed.

Lemma hex_pairs_ok : forallb hex_pair_ok (count_up 256 0) = true.
Proof. vm_compute. reflexivity. Qed.

Lemma hex_pair_byte lByte :
  is_byte lByte ->
  length (hex_pair lByte) = 2%nat /\ Forall (fun c => is_hex_digit c = true) (hex_pair lByte).
Proof.
  intros Hb. pose proof hex_pairs_ok as Hall. rewrite forallb_forall in Hall.
  specialize (Hall lByte). unfold hex_pair_ok in Hall.
  assert (Hin : In lByte (count_up 256 0)) by (apply count_up_In; unfold is_byte in Hb; lia).
  destruct (hex_pair lByte) as [|c1 [|c2 [|c3 l]]]; try (by specialize (Hall Hin)).
  specialize (Hall Hin). apply andb_prop in Hall as [H1 H2]. split; [done|]. by repeat constructor.
Qed.

Lemma band_255 x : is_byte (band x 255).
Proof.
  unfold band, is_byte. change (ToInt32 255) with (2 ^ 8 - 1)%Z.
  rewrite land_low by done. apply Z.mod_pos_bound. done.
Qed.

Lemma wordToHex_digits lValue :
  length (list_ascii_of_string (MD5.wordToHex lValue)) = 8%nat
  /\ Forall (fun c => is_hex_digit c = true) (list_ascii_of_string (MD5.wordToHex lValue)).
Proof.
  unfold MD5.wordToHex. cbn [foldl]. unfold MD5.put_hex.
  rewrite !list_ascii_app. cbn [list_ascii_of_string app].
  pose proof (fun k => hex_pair_byte _ (band_255 (shru lValue (k * 8)))) as Hp.
  unfold hex_pair in Hp.
  destruct (Hp 0%Z) as [L0 F0], (Hp 1%Z) as [L1 F1], (Hp 2%Z) as [L2 F2], (Hp 3%Z) as [L3 F3].
  split.
  - rewrite !length_app, L0, L1, L2, L3. done.
  - repeat (apply Forall_app; split); done.
Qed.

(** X26. Whatever the text, [md5] returns 32 characters, each a digit or a
    lower-case letter from [a] to [f]. *)
Theorem md5_digest_format (text : list Z) :
  length (list_ascii_of_string (MD5.md5 text)) = 32%nat
  /\ Forall (fun c => is_hex_digit c = true) (list_ascii_of_string (MD5.md5 text)).
Proof.
  unfold MD5.md5.
  destruct (foldl _ _ _) as [[[a b] c] d].
  rewrite list_ascii_lower, !list_ascii_app.
  destruct (wordToHex_digits a) as [La Fa], (wordToHex_digits b) as [Lb Fb],
    (wordToHex_digits c) as [Lc Fc], (wordToHex_digits d) as [Ld Fd].
  assert (Fall : Forall (fun c => is_hex_digit c = true)
            (list_ascii_of_string (MD5.wordToHex a) ++ list_ascii_of_string (MD5.wordToHex b)
             ++ list_ascii_of_string (MD5.wordToHex c) ++ list_ascii_of_string (MD5.wordToHex d))).
  { repeat (apply Forall_app; split); done. }
  split.
  - rewrite length_map, !length_app, La, Lb, Lc, Ld. done.
  - by rewrite map_lower_hex.
Qed.

(** ** The text that is hashed *)

Lemma crlf_to_lf_cons c rest :
  MD5.crlf_to_lf (c :: rest)
  = match rest with
    | c' :: rest' =>
        if (c =? 13)%Z && (c' =? 10)%Z then 10%Z :: MD5.crlf_to_lf rest'
        else c :: MD5.crlf_to_lf rest
    | [] => [c]
    end.
Proof. reflexivity. Qed.

Lemma crlf_to_lf_app s t :
  last s <> Some 13%Z ->
  MD5.crlf_to_lf (s ++ t) = MD5.crlf_to_lf s ++ MD5.crlf_to_lf t.
Proof.
  remember (length s) as n eqn:Hn. revert s Hn.
  induction n as [n IH] using lt_wf_ind. intros s Hn Hlast.
  destruct s as [|c [|c' s']].
  - done.
  - cbn [app]. rewrite crlf_to_lf_cons. cbn in Hlast.
    destruct t as [|c' t']; [done|].
    destruct (Z.eqb_spec c 13) as [->|Hc]; [by destruct Hlast|]. reflexivity.
  - cbn [app].
    rewrite (crlf_to_lf_cons c (c' :: s' ++ t)), (crlf_to_lf_cons c (c' :: s')).
    change (c' :: s' ++ t) with ((c' :: s') ++ t).
    destruct ((c =? 13)%Z && (c' =? 10)%Z).
    + cbn [app]. f_equal. apply (IH (length s')); [cbn in Hn; lia|done|].
      destruct s' as [|c'' s'']; [done|]. by rewrite !last_cons_cons in Hlast.
    + cbn [app]. f_equal. apply (IH (length (c' :: s')) ltac:(cbn in Hn |- *; lia) (c' :: s')); [done|].
      by rewrite last_cons_cons in Hlast.
Qed.

(** X27. [md5] does not tell a Windows line end from a Unix one: replacing a
    carriage return and line feed by a line feed alone, after a text that
    does not itself end in a carriage return, leaves the digest
    unchanged. *)
Theorem md5_ignores_carriage_return (before after : list Z) :
  last before <> Some 13%Z ->
  MD5.md5 (before ++ [13; 10]%Z ++ after) = MD5.md5 (before ++ [10]%Z ++ after).
Proof.
  intros Hlast. unfold MD5.md5, MD5.utf8Encode.
  rewrite !crlf_to_lf_app by done.
  cbn [app]. rewrite !crlf_to_lf_cons. cbn [Z.eqb andb].
  destruct after as [|c rest]; reflexivity.
Qed.

Lemma md5_ignores_carriage_return_witness :
  MD5.md5 (code_units "a=1" ++ [13; 10]%Z ++ code_units "b=2")
  = MD5.md5 (code_units "a=1" ++ [10]%Z ++ code_units "b=2").
Proof.
  apply (md5_ignores_carriage_return (code_units "a=1") (code_units "b=2")).
  vm_compute. discriminate.
Defined.

Section Bytes.
Local Open Scope Z_scope.

Lemma lor_below a b n :
  (0 <= n -> 0 <= a < 2 ^ n -> 0 <= b < 2 ^ n -> 0 <= Z.lor a b < 2 ^ n)%Z.
Proof.
  intros Hn Ha Hb. split; [apply Z.lor_nonneg; lia|].
  destruct (Z.eq_dec (Z.lor a b) 0) as [->|Hne]; [lia|].
  apply Z.log2_lt_pow2; [pose proof (proj2 (Z.lor_nonneg a b)); lia|].
  rewrite Z.log2_lor by lia.
  destruct (Z.eq_dec a 0) as [->|Ha0], (Z.eq_dec b 0) as [->|Hb0].
  - by destruct Hne.
  - rewrite Z.max_r by (cbn; apply Z.log2_nonneg). apply Z.log2_lt_pow2; lia.
  - rewrite Z.max_l by (cbn; apply Z.log2_nonneg). apply Z.log2_lt_pow2; lia.
  - apply Z.max_lub_lt; apply Z.log2_lt_pow2; lia.
Qed.

Lemma bor_byte a b : is_byte (ToInt32 a) -> is_byte (ToInt32 b) -> is_byte (bor a b).
Proof. unfold is_byte, bor. intros Ha Hb. by apply lor_below. Qed.

Lemma fromCharCode_byte b : is_byte b -> is_byte (fromCharCode b).
Proof.
  unfold is_byte, fromCharCode. intros Hb. rewrite Z.mod_small; lia.
Qed.

Lemma band_below x n :
  (0 <= n < 31)%Z -> (0 <= ToInt32 (band x (2 ^ n - 1)) < 2 ^ n)%Z.
Proof.
  intros Hn. unfold band.
  assert (Hpow : (2 ^ n < 2 ^ 31)%Z) by (apply Z.pow_lt_mono_r; lia).
  assert (Hpos : (0 < 2 ^ n)%Z) by (apply Z.pow_pos_nonneg; lia).
  rewrite (ToInt32_small (2 ^ n - 1)) by lia.
  rewrite land_low by lia.
  pose proof (Z.mod_pos_bound (ToInt32 x) (2 ^ n) Hpos).
  rewrite ToInt32_small; lia.
Qed.

Lemma shr_unit c k :
  is_code_unit c -> (0 <= k < 32)%Z -> shr c k = (c / 2 ^ k)%Z.
Proof.
  unfold is_code_unit, shr, ToUint32. intros Hc Hk.
  rewrite ToInt32_small by lia.
  rewrite (Z.mod_small k (2 ^ 32)) by lia. rewrite (Z.mod_small k 32) by lia.
  by rewrite Z.shiftr_div_pow2 by lia.
Qed.

Lemma encode_unit_bytes c : is_code_unit c -> Forall is_byte (MD5.encode_unit c).
Proof.
  intros Hc. unfold MD5.encode_unit. pose proof Hc as Hrange. unfold is_code_unit in Hrange.
  destruct (Z.ltb_spec c 128) as [Hascii | Hwide].
  { constructor; [|constructor]. apply fromCharCode_byte. unfold is_byte. lia. }
  assert (Hlow : forall x, is_byte (bor (band x 63) 128)).
  { intros x. apply bor_byte; [|by unfold is_byte].
    pose proof (band_below x 6 ltac:(lia)) as Hb. unfold is_byte.
    change (2 ^ 6 - 1)%Z with 63%Z in Hb. lia. }
  destruct (Z.gtb_spec c 127) as [_ | Hno]; [|lia]. cbn [andb].
  destruct (Z.ltb_spec c 2048) as [Htwo | Hthree].
  - constructor; [|constructor; [|constructor]]; apply fromCharCode_byte; [|apply Hlow].
    apply bor_byte; [|by unfold is_byte].
    rewrite shr_unit by (done || lia). unfold is_byte.
    rewrite ToInt32_small; Z.div_mod_to_equations; lia.
  - constructor; [|constructor; [|constructor; [|constructor]]];
      apply fromCharCode_byte; [|apply Hlow|apply Hlow].
    apply bor_byte; [|by unfold is_byte].
    rewrite shr_unit by (done || lia). unfold is_byte.
    rewrite ToInt32_small; Z.div_mod_to_equations; lia.
Qed.

End Bytes.

Lemma crlf_to_lf_units s : Forall is_code_unit s -> Forall is_code_unit (MD5.crlf_to_lf s).
Proof.
  remember (length s) as n eqn:Hn. revert s Hn.
  induction n as [n IH] using lt_wf_ind. intros s Hn Hs.
  destruct s as [|c [|c' s']]; [done|done|].
  rewrite crlf_to_lf_cons.
  apply Forall_cons in Hs as [Hc Hs]. pose proof Hs as Hs'. apply Forall_cons in Hs' as [Hc' Hs'].
  destruct ((c =? 13)%Z && (c' =? 10)%Z).
  - apply Forall_cons. split; [done|]. apply (IH (length s')); [cbn in Hn; lia|done|done].
  - apply Forall_cons. split; [done|].
    apply (IH (length (c' :: s'))); [cbn in Hn |- *; lia|done|done].
Qed.

Lemma crlf_to_lf_length s : (length (MD5.crlf_to_lf s) <= length s)%nat.
Proof.
  remember (length s) as n eqn:Hn. revert s Hn.
  induction n as [n IH] using lt_wf_ind. intros s Hn.
  destruct s as [|c [|c' s']]; [subst n; reflexivity|subst n; reflexivity|].
  rewrite crlf_to_lf_cons.
  destruct ((c =? 13)%Z && (c' =? 10)%Z).
  - cbn [length]. pose proof (IH (length s') ltac:(cbn in Hn; lia) s' eq_refl). cbn in *. lia.
  - cbn [length]. pose proof (IH (length (c' :: s')) ltac:(cbn in Hn |- *; lia) (c' :: s') eq_refl).
    cbn in *. lia.
Qed.

(** X28. [utf8Encode] turns a string into bytes: from any string of UTF-16
    code units it produces values below 256 only, at most three for each
    code unit, so that [convertToWordArray] can pack four of them into a
    word. *)
Theorem utf8Encode_bytes (text : list Z) :
  Forall is_code_unit text ->
  Forall is_byte (MD5.utf8Encode text)
  /\ (length (MD5.utf8Encode text) <= 3 * length text)%nat.
Proof.
  intros Hs. unfold MD5.utf8Encode. split.
  - apply crlf_to_lf_units in Hs. induction Hs as [|c s Hc _ IH]; [done|].
    cbn [flat_map]. apply Forall_app. split; [by apply encode_unit_bytes|done].
  - pose proof (crlf_to_lf_length text) as Hlen.
    assert (Hflat : forall s, (length (flat_map MD5.encode_unit s) <= 3 * length s)%nat).
    { induction s as [|c s IH]; [done|]. cbn [flat_map]. rewrite length_app.
      assert (length (MD5.encode_unit c) <= 3)%nat.
      { unfold MD5.encode_unit. repeat case_match; cbn; lia. }
      cbn [length]. lia. }
    specialize (Hflat (MD5.crlf_to_lf text)). lia.
Qed.

Lemma utf8Encode_bytes_witness :
  Forall is_byte (MD5.utf8Encode [233; 0x20AC; 13; 10]%Z)
  /\ (length (MD5.utf8Encode [233; 0x20AC; 13; 10]%Z) <= 3 * 4)%nat.
Proof.
  apply (utf8Encode_bytes [233; 0x20AC; 13; 10]%Z).
  repeat (apply Forall_cons; split; [unfold is_code_unit; lia|]). apply Forall_nil_2.
Defined.

(** ** The word array *)

Lemma array_set_length a i v :
  (i < length a)%nat -> length (array_set a i v) = length a.
Proof.
  intros Hi. unfold array_set. apply Nat.ltb_lt in Hi. rewrite Hi. apply length_insert.
Qed.

Lemma array_get_set a i v j :
  (i < length a)%nat ->
  array_get (array_set a i v) j = if (j =? i)%nat then v else array_get a j.
Proof.
  intros Hi. unfold array_set, array_get. pose proof Hi as Hlt. apply Nat.ltb_lt in Hlt.
  rewrite Hlt. clear Hlt. revert i j Hi. induction a as [|x a IH]; intros i j Hi; [cbn in Hi; lia|].
  destruct i as [|i], j as [|j]; try reflexivity.
  cbn [length] in Hi. cbn. apply IH. lia.
Qed.

Lemma array_set_end a v : array_set a (length a) v = a ++ [v].
Proof.
  unfold array_set. rewrite Nat.ltb_irrefl, Nat.sub_diag. reflexivity.
Qed.

Lemma array_get_app_l a b j : (j < length a)%nat -> array_get (a ++ b) j = array_get a j.
Proof. intros Hj. unfold array_get. by apply app_nth1. Qed.

Lemma array_get_end a v : array_get (a ++ [v]) (length a) = v.
Proof. unfold array_get. rewrite app_nth2 by lia. by rewrite Nat.sub_diag. Qed.

Lemma array_get_beyond a j : (length a <= j)%nat -> array_get a j = 0%Z.
Proof. intros Hj. unfold array_get. by apply nth_overflow. Qed.

Lemma array_get_zeros n j : array_get (replicate n 0%Z) j = 0%Z.
Proof.
  unfold array_get. revert j. induction n as [|n IH]; intros [|j]; try reflexivity. apply IH.
Qed.

Section Packing.
Local Open Scope Z_scope.

Lemma land_disjoint a t k :
  0 <= k -> 0 <= a < 2 ^ k -> t mod 2 ^ k = 0 -> Z.land a t = 0.
Proof.
  intros Hk Ha Ht.
  rewrite <- (Z.mod_small a (2 ^ k)) by done.
  rewrite <- !Z.land_ones by done.
  rewrite <- Z.land_assoc, (Z.land_comm (Z.ones k) t), Z.land_ones by done.
  rewrite Ht. apply Z.land_0_r.
Qed.

Lemma ToInt32_of_small a : ToUint32 a < 2 ^ 31 -> ToInt32 a = ToUint32 a.
Proof. unfold ToInt32, ToUint32. intros Ha. Z.div_mod_to_equations. lia. Qed.

Lemma shl_byte c j :
  is_byte c -> (j < 4)%nat ->
  shl c (Z.of_nat (j * 8)) = ToInt32 (c * 2 ^ (8 * Z.of_nat j)).
Proof.
  unfold is_byte, shl, ToUint32. intros Hc Hj.
  rewrite (ToInt32_small c) by lia.
  replace (Z.of_nat (j * 8)) with (8 * Z.of_nat j) by lia.
  rewrite (Z.mod_small (8 * Z.of_nat j) (2 ^ 32)) by lia.
  rewrite (Z.mod_small (8 * Z.of_nat j) 32) by lia.
  by rewrite Z.shiftl_mul_pow2 by lia.
Qed.

Lemma bor_shifted a c j :
  (j < 4)%nat -> ToUint32 a < 2 ^ (8 * Z.of_nat j) -> is_byte c ->
  ToUint32 (bor a (shl c (Z.of_nat (j * 8)))) = ToUint32 a + c * 2 ^ (8 * Z.of_nat j).
Proof.
  intros Hj Ha Hc. rewrite shl_byte by done. unfold bor. rewrite ToInt32_idem.
  assert (Hk : 0 <= 8 * Z.of_nat j <= 24) by lia.
  assert (Hpow : 0 < 2 ^ (8 * Z.of_nat j) <= 2 ^ 24).
  { split; [apply Z.pow_pos_nonneg; lia|apply Z.pow_le_mono_r; lia]. }
  assert (Hua : 0 <= ToUint32 a) by (unfold ToUint32; apply Z.mod_pos_bound; done).
  rewrite (ToInt32_of_small a) by lia.
  rewrite lor_arith, (land_disjoint _ _ (8 * Z.of_nat j)); [|lia|lia|].
  - unfold is_byte in Hc.
    assert (Hj' : j = 0%nat \/ j = 1%nat \/ j = 2%nat \/ j = 3%nat) by lia.
    generalize dependent (ToUint32 a). intros A HA HA0.
    destruct Hj' as [-> | [-> | [-> | ->]]]; cbn in *;
      unfold ToUint32, ToInt32; Z.div_mod_to_equations; lia.
  - unfold is_byte in Hc.
    assert (Hj' : j = 0%nat \/ j = 1%nat \/ j = 2%nat \/ j = 3%nat) by lia.
    destruct Hj' as [-> | [-> | [-> | ->]]]; cbn;
      unfold ToInt32; Z.div_mod_to_equations; lia.
Qed.

End Packing.

Ltac nat_div := zify; Z.div_mod_to_equations; lia.

Lemma nth_byte (s : list Z) i : Forall is_byte s -> is_byte (nth i s 0%Z).
Proof.
  intros Hs. revert i. induction Hs as [|c s Hc _ IH]; intros [|i]; cbn; try done.
Qed.

Lemma le_word_nil w : le_word [] w = 0%Z.
Proof.
  unfold le_word.
  assert (Hnil : forall i, nth i (@nil Z) 0%Z = 0%Z) by (by intros [|i]).
  by rewrite !Hnil.
Qed.

(** Adding byte [m] of the text changes the word that holds it, and no
    other. *)
Lemma le_word_take_S (s : list Z) m w :
  le_word (take (S m) s) w
  = (le_word (take m s) w
     + if (w =? m / 4)%nat then nth m s 0 * 2 ^ (8 * Z.of_nat (m mod 4)) else 0)%Z.
Proof.
  unfold le_word. rewrite !nth_firstn.
  assert (Hm : (m = 4 * (m / 4) + m mod 4 /\ m mod 4 < 4)%nat) by nat_div.
  destruct Hm as [Hm Hj]. generalize dependent (m mod 4)%nat. generalize dependent (m / 4)%nat.
  intros q j Hm Hj. subst m.
  destruct (Nat.eqb_spec w q) as [->|Hne].
  - assert (Hj' : j = 0%nat \/ j = 1%nat \/ j = 2%nat \/ j = 3%nat) by lia.
    destruct Hj' as [-> | [-> | [-> | ->]]];
      repeat match goal with
             | |- context [(?a <? ?b)%nat] => destruct (Nat.ltb_spec a b); try lia
             end.
    all: rewrite ?Nat.add_0_r; cbn [Z.of_nat Z.mul Pos.mul Z.pow Z.pow_pos Pos.iter]; lia.
  - repeat match goal with
           | |- context [(?a <? ?b)%nat] => destruct (Nat.ltb_spec a b); try lia
           end.
Qed.

(** The bytes of a word that are still to come are zero. *)
Lemma le_word_take_below (s : list Z) m :
  Forall is_byte s ->
  (0 <= le_word (take m s) (m / 4) < 2 ^ (8 * Z.of_nat (m mod 4)))%Z.
Proof.
  intros Hs. unfold le_word. rewrite !nth_firstn.
  assert (Hm : (m = 4 * (m / 4) + m mod 4 /\ m mod 4 < 4)%nat) by nat_div.
  destruct Hm as [Hm Hj].
  pose proof (nth_byte s (4 * (m / 4)) Hs) as H0.
  pose proof (nth_byte s (4 * (m / 4) + 1) Hs) as H1.
  pose proof (nth_byte s (4 * (m / 4) + 2) Hs) as H2.
  pose proof (nth_byte s (4 * (m / 4) + 3) Hs) as H3.
  unfold is_byte in *.
  generalize dependent (m mod 4)%nat. generalize dependent (m / 4)%nat.
  intros q H0 H1 H2 H3 j Hm Hj.
  assert (Hj' : j = 0%nat \/ j = 1%nat \/ j = 2%nat \/ j = 3%nat) by lia.
  destruct Hj' as [-> | [-> | [-> | ->]]];
    repeat match goal with
           | |- context [(?a <? ?b)%nat] => destruct (Nat.ltb_spec a b); try lia
           end.
Qed.

Lemma put_bytes (s : list Z) L m :
  Forall is_byte s -> (m <= length s)%nat -> (length s < 4 * L)%nat ->
  let arr := foldl (MD5.put_byte s) (replicate L 0%Z) (seq 0 m) in
  length arr = L /\ forall w, ToUint32 (array_get arr w) = le_word (take m s) w.
Proof.
  intros Hs Hm HL. cbn zeta. induction m as [|m IH].
  - cbn [seq foldl]. split; [apply length_replicate|].
    intros w. by rewrite array_get_zeros, le_word_nil.
  - destruct (IH ltac:(lia)) as [Hlen Hwords].
    rewrite seq_S, foldl_app. cbn [foldl Nat.add].
    set (arr := foldl (MD5.put_byte s) (replicate L 0%Z) (seq 0 m)) in *.
    unfold MD5.put_byte.
    replace ((m - m mod 4) / 4)%nat with (m / 4)%nat by nat_div.
    assert (Hwc : (m / 4 < length arr)%nat) by (rewrite Hlen; nat_div).
    split; [by rewrite array_set_length|].
    intros w. rewrite array_get_set by done. rewrite le_word_take_S.
    destruct (Nat.eqb_spec w (m / 4)) as [->|Hne]; [|by rewrite Hwords, Z.add_0_r].
    rewrite bor_shifted.
    + by rewrite Hwords.
    + nat_div.
    + rewrite Hwords. apply le_word_take_below. done.
    + apply nth_byte. done.
Qed.

(** X29. [convertToWordArray] lays a text of bytes out as MD5 requires: the
    array has a whole number of 16-word blocks, 16 * ((n + 8) / 64 + 1)
    words for [n] bytes; its words hold the bytes of the text, lowest byte
    first, then one byte [0x80], then zeros; and its last two words hold
    the length of the text in bits. *)
Theorem word_array_layout (text : list Z) :
  Forall is_byte text ->
  let x := MD5.convertToWordArray text in
  length x = (16 * ((length text + 8) / 64 + 1))%nat
  /\ (forall w, (w < length x - 2)%nat ->
        ToUint32 (array_get x w) = le_word (text ++ [0x80%Z]) w)
  /\ array_get x (length x - 2) = shl (Z.of_nat (length text)) 3
  /\ array_get x (length x - 1) = shru (Z.of_nat (length text)) 29.
Proof.
  intros Hs. cbn zeta. unfold MD5.convertToWordArray.
  set (n := length text).
  set (N := (((n + 8 - (n + 8) mod 64) / 64 + 1) * 16)%nat).
  assert (HN : (N = 16 * ((n + 8) / 64 + 1) /\ n < 4 * (N - 1) /\ n / 4 < N - 2)%nat)
    by (subst N; nat_div).
  destruct HN as (HN & Hroom & Hmark).
  destruct (put_bytes text (N - 1) n Hs ltac:(done) Hroom) as [Hlen1 Hwords1].
  set (arr1 := foldl (MD5.put_byte text) (replicate (N - 1) 0%Z) (seq 0 n)) in *.
  replace ((n - n mod 4) / 4)%nat with (n / 4)%nat by nat_div.
  set (arr2 := array_set arr1 (n / 4)%nat _).
  assert (Hlen2 : length arr2 = (N - 1)%nat)
    by (subst arr2; rewrite array_set_length; lia).
  assert (Hwords2 : forall w, ToUint32 (array_get arr2 w) = le_word (text ++ [0x80%Z]) w).
  { intros w. subst arr2. rewrite array_get_set by lia.
    pose proof (le_word_take_S (text ++ [0x80%Z]) n w) as Hstep.
    rewrite firstn_all2 in Hstep by (rewrite length_app; cbn; lia).
    replace (take n (text ++ [0x80%Z])) with text in Hstep
      by (symmetry; apply take_app_length).
    replace (nth n (text ++ [0x80%Z]) 0%Z) with 0x80%Z in Hstep
      by (symmetry; apply nth_middle).
    rewrite Hstep. clear Hstep.
    replace (take n text) with text in Hwords1 by (symmetry; apply firstn_all).
    destruct (Nat.eqb_spec w (n / 4)) as [->|Hne]; [|by rewrite Hwords1, Z.add_0_r].
    rewrite bor_shifted.
    - by rewrite Hwords1.
    - nat_div.
    - rewrite Hwords1. pose proof (le_word_take_below text n Hs) as Hbelow.
      replace (take n text) with text in Hbelow by (symmetry; apply firstn_all). apply Hbelow.
    - by unfold is_byte. }
  set (arr3 := array_set arr2 (N - 2) _).
  assert (Hlen3 : length arr3 = (N - 1)%nat)
    by (subst arr3; rewrite array_set_length; lia).
  set (last_word := shru (Z.of_nat n) 29).
  assert (Harr4 : array_set arr3 (N - 1) last_word = arr3 ++ [last_word])
    by (rewrite <- Hlen3; apply array_set_end).
  rewrite Harr4, length_app, Hlen3. cbn [length].
  replace (N - 1 + 1 - 2)%nat with (N - 2)%nat by lia.
  replace (N - 1 + 1 - 1)%nat with (length arr3) by lia.
  split; [lia|]. split; [|split].
  - intros w Hw. rewrite array_get_app_l by lia.
    subst arr3. rewrite array_get_set by lia.
    destruct (Nat.eqb_spec w (N - 2)) as [->|_]; [lia|]. apply Hwords2.
  - rewrite array_get_app_l by lia. subst arr3. rewrite array_get_set by lia.
    by rewrite Nat.eqb_refl.
  - apply array_get_end.
Qed.

Lemma word_array_layout_witness :
  let x := MD5.convertToWordArray (code_units "abc") in
  length x = (16 * ((length (code_units "abc") + 8) / 64 + 1))%nat
  /\ (forall w, (w < length x - 2)%nat ->
        ToUint32 (array_get x w) = le_word (code_units "abc" ++ [0x80%Z]) w)
  /\ array_get x (length x - 2) = shl (Z.of_nat (length (code_units "abc"))) 3
  /\ array_get x (length x - 1) = shru (Z.of_nat (length (code_units "abc"))) 29.
Proof.
  apply (word_array_layout (code_units "abc")).
  change (code_units "abc") with [97; 98; 99]%Z.
  repeat (apply Forall_cons; split; [unfold is_byte; lia|]). apply Forall_nil_2.
Defined.

Section Rotation.
Local Open Scope Z_scope.

(** X30. [rotateLeft] rotates a 32-bit word: for a shift [s] between 1 and 31
    the low [32 - s] bits of the word move up by [s] places and its high
    [s] bits move to the bottom. *)
Theorem rotateLeft_rotates v s :
  0 < s < 32 ->
  ToUint32 (MD5.rotateLeft v s)
  = (ToUint32 v mod 2 ^ (32 - s)) * 2 ^ s + ToUint32 v / 2 ^ (32 - s).
Proof.
  intros Hs. unfold MD5.rotateLeft, bor, shl, shru.
  assert (HsU : ToUint32 s mod 32 = s).
  { unfold ToUint32. rewrite (Z.mod_small s (2 ^ 32)) by lia. apply Z.mod_small. lia. }
  assert (HsU' : ToUint32 (32 - s) mod 32 = 32 - s).
  { unfold ToUint32. rewrite (Z.mod_small (32 - s) (2 ^ 32)) by lia. apply Z.mod_small. lia. }
  rewrite HsU, HsU', ToInt32_idem.
  rewrite Z.shiftl_mul_pow2, Z.shiftr_div_pow2 by lia.
  set (P := 2 ^ s). set (Q := 2 ^ (32 - s)).
  assert (HP : 0 < P) by (apply Z.pow_pos_nonneg; lia).
  assert (HQ : 0 < Q) by (apply Z.pow_pos_nonneg; lia).
  assert (HPQ : P * Q = 2 ^ 32).
  { subst P Q. rewrite <- Z.pow_add_r by lia. f_equal. lia. }
  assert (HPle : P <= 2 ^ 31) by (apply Z.pow_le_mono_r; lia).
  set (u := ToUint32 v).
  assert (Hu : 0 <= u < 2 ^ 32) by (apply Z.mod_pos_bound; done).
  pose proof (Z.div_mod u Q ltac:(lia)) as Hdm.
  pose proof (Z.mod_pos_bound u Q HQ) as Hl.
  set (h := u / Q) in *. set (l := u mod Q) in *.
  assert (Hh : 0 <= h < P).
  { split; [apply Z.div_pos; lia|]. apply Z.div_lt_upper_bound; lia. }
  assert (HV : exists e, ToInt32 v = u - 2 ^ 32 * e).
  { exists ((v + 2 ^ 31) / 2 ^ 32 - v / 2 ^ 32). subst u. unfold ToInt32, ToUint32.
    Z.div_mod_to_equations. lia. }
  destruct HV as [e HV]. rewrite HV.
  set (T := ToInt32 ((u - 2 ^ 32 * e) * P)).
  assert (HT : exists q, T = (u - 2 ^ 32 * e) * P - 2 ^ 32 * q).
  { exists (((u - 2 ^ 32 * e) * P + 2 ^ 31) / 2 ^ 32). subst T. unfold ToInt32.
    generalize ((u - 2 ^ 32 * e) * P). intros z. Z.div_mod_to_equations. lia. }
  destruct HT as [q HT].
  assert (HTk : T = l * P + 2 ^ 32 * (h - e * P - q)).
  { rewrite HT, Hdm, <- HPQ. ring. }
  assert (HTmod : T mod P = 0).
  { rewrite HTk, <- HPQ.
    replace (l * P + P * Q * (h - e * P - q)) with ((l + Q * (h - e * P - q)) * P) by ring.
    apply Z.mod_mul. lia. }
  rewrite (ToInt32_small h) by lia.
  rewrite lor_arith, Z.land_comm, (land_disjoint h T s) by (done || lia).
  rewrite Z.sub_0_r. unfold ToUint32 at 1.
  symmetry. apply (Z.mod_unique_pos _ _ (h - e * P - q)).
  - split; [nia|]. assert (l * P <= 2 ^ 32 - P) by nia. lia.
  - rewrite HTk. ring.
Qed.

Lemma rotateLeft_rotates_witness :
  ToUint32 (MD5.rotateLeft 0x80000001 MD5.S11) = 0xC0%Z.
Proof.
  rewrite (rotateLeft_rotates 0x80000001 MD5.S11); [reflexivity|].
  unfold MD5.S11. lia.
Defined.

End Rotation.
